(** * FinWise backend: OTP lifecycle and progress aggregation

    A shallow embedding of the service layer of the backend
    (otpService, emailService, authService, courseService and
    profileService) and of the authentication middleware over a model of
    the relational store, followed by the properties of the specification
    that concern them and by further properties of the services.

    Conventions of the embedding.
    - Identifiers (cuid strings) are [string]; timestamps ([Date]) are
      milliseconds since the epoch, in [Z]; Prisma [Int] columns are [Z].
    - A table is a finite map from its unique key to its row: the primary
      key [id] for User, OtpCode, Course, Lesson and Assignment, and the
      composite unique key named in the [where] clause of the upserts
      ([userId_lessonId], [userId_courseId], [userId_assignmentId]) for the
      three progress tables.  The key columns are not repeated in the row.
    - An [async] function is a state transformer over the store that
      resolves with a value or rejects with an [Error]; the store reached
      when it rejects is kept, since the services open no transaction.
    - [new Date()], [Math.random()], bcrypt, jsonwebtoken, the SMTP
      transport and the order in which the database returns rows of equal
      sort key are inputs of the operations that use them; the clock
      readings of one call are one instant [now], which is also the
      [CURRENT_TIMESTAMP] default of the rows the call creates.
    - The database refuses a row that breaks a foreign key of the
      migration under the sources; the schema of the course tables is not
      among them, and what the services depend on of it is a parameter
      ([Schema]).
    - An [include] of a relation the function does not read afterwards is
      left out; one it reads is a lookup in the related table. *)

From Stdlib Require Import ZArith String List Lia.
From stdpp Require Import gmap strings list fin_maps pretty.

Open Scope string_scope.
Open Scope Z_scope.

(** ** JavaScript and date-fns primitives *)

Module JS.

(** [Math.round(a / b)] for integers [a] and [b > 0]: the quotient rounded
    to the nearest integer, halves towards plus infinity.  The double
    division is correctly rounded and every half-integer below 2^52 is a
    double, so the result agrees with the exact one as long as
    [b * (|a / b| + 1) < 2^52]. *)
Definition Math_round_div (a b : Z) : Z := (2 * a + b) `div` (2 * b).

(** date-fns [isBefore(date, dateToCompare)]: strictly earlier. *)
Definition isBefore (date dateToCompare : Z) : bool := date <? dateToCompare.

(** date-fns [addMinutes(date, amount)]. *)
Definition addMinutes (date amount : Z) : Z := date + amount * 60000.

(** What [Number(v)] is for a string [v]: an integer, [NaN] for a string
    that is not numeric, or another double (a fraction or an infinity), of
    which the services read the truthiness only. *)
Inductive Number :=
  | Int (n : Z)
  | NaN
  | OtherDouble.

(** Truthiness of an optional string and of an optional number. *)
Definition truthy_str (o : option string) : bool :=
  match o with
  | Some s => negb (String.eqb s "")
  | None => false
  end.

Definition truthy_num (o : option Number) : bool :=
  match o with
  | Some (Int n) => negb (n =? 0)
  | Some NaN => false
  | Some OtherDouble => true
  | None => false
  end.

(** [array.reduce((sum, x) => sum + f(x), 0)]. *)
Definition reduce_sum {A : Type} (f : A → Z) (xs : list A) : Z :=
  fold_left (λ sum x, sum + f x) xs 0.

End JS.

(** ** Configuration (config/env.ts) *)

Record Env := {
  PORT : string;
  DATABASE_URL : string;
  JWT_SECRET : string;
  OTP_EXP_MINUTES : Z;
  OTP_RESEND_INTERVAL_SEC : Z;
  SMTP_HOST : option string;
  SMTP_PORT : option JS.Number;
  SMTP_USER : option string;
  SMTP_PASS : option string;
  SMTP_FROM : option string;
}.

(** ** Data model *)

Inductive OtpPurpose := REGISTER | LOGIN | PASSWORD_RESET.

Global Instance OtpPurpose_eq_dec : EqDecision OtpPurpose.
Proof. solve_decision. Defined.

Module User.
Record t := {
  createdAt : Z;
  updatedAt : Z;
  email : string;
  phone : option string;
  passwordHash : string;
  isActive : bool;
}.
End User.

Module OtpCode.
Record t := {
  createdAt : Z;
  userId : string;
  code : string;
  purpose : OtpPurpose;
  expiresAt : Z;
  usedAt : option Z;
  sentTo : string;
}.

(** [data: { usedAt }] of an update. *)
Definition set_usedAt (d : Z) (o : t) : t :=
  {| createdAt := createdAt o; userId := userId o; code := code o;
     purpose := purpose o; expiresAt := expiresAt o; usedAt := Some d;
     sentTo := sentTo o |}.
End OtpCode.

Module Course.
Record t := {
  title : string;
  order : Z;
  isActive : bool;
}.
End Course.

Module Lesson.
Record t := {
  courseId : string;
  title : string;
  order : Z;
  isActive : bool;
}.
End Lesson.

Module Assignment.
Record t := {
  lessonId : string;
  maxScore : Z;
  isActive : bool;
}.
End Assignment.

Module UserLessonProgress.
Record t := {
  progressPercent : Z;
  completedAt : option Z;
}.
End UserLessonProgress.

Module UserCourseProgress.
Record t := {
  progressPercent : Z;
  completedAt : option Z;
}.
End UserCourseProgress.

Module UserAssignment.
(** [answers] is an opaque JSON document, kept in serialised form; [None]
    is the SQL NULL of the column, should the column admit it. *)
Record t := {
  score : Z;
  answers : option string;
  completedAt : option Z;
}.
End UserAssignment.

(** What the services depend on of the Prisma schema of the course tables,
    which is not among the sources: whether the column [answers] of
    UserAssignment is required ([Json]) or optional ([Json?]). *)
Record Schema := {
  answers_required : bool;
}.

(** ** The store *)

Record Db := {
  users : gmap string User.t;
  otpCodes : gmap string OtpCode.t;
  courses : gmap string Course.t;
  lessons : gmap string Lesson.t;
  assignments : gmap string Assignment.t;
  userLessonProgress : gmap (string * string) UserLessonProgress.t;
  userCourseProgress : gmap (string * string) UserCourseProgress.t;
  userAssignments : gmap (string * string) UserAssignment.t;
}.

Definition set_users (f : gmap string User.t → gmap string User.t) (db : Db) : Db :=
  {| users := f (users db); otpCodes := otpCodes db; courses := courses db;
     lessons := lessons db; assignments := assignments db;
     userLessonProgress := userLessonProgress db;
     userCourseProgress := userCourseProgress db;
     userAssignments := userAssignments db |}.

Definition set_otpCodes (f : gmap string OtpCode.t → gmap string OtpCode.t) (db : Db) : Db :=
  {| users := users db; otpCodes := f (otpCodes db); courses := courses db;
     lessons := lessons db; assignments := assignments db;
     userLessonProgress := userLessonProgress db;
     userCourseProgress := userCourseProgress db;
     userAssignments := userAssignments db |}.

Definition set_userLessonProgress
    (f : gmap (string * string) UserLessonProgress.t → gmap (string * string) UserLessonProgress.t)
    (db : Db) : Db :=
  {| users := users db; otpCodes := otpCodes db; courses := courses db;
     lessons := lessons db; assignments := assignments db;
     userLessonProgress := f (userLessonProgress db);
     userCourseProgress := userCourseProgress db;
     userAssignments := userAssignments db |}.

Definition set_userCourseProgress
    (f : gmap (string * string) UserCourseProgress.t → gmap (string * string) UserCourseProgress.t)
    (db : Db) : Db :=
  {| users := users db; otpCodes := otpCodes db; courses := courses db;
     lessons := lessons db; assignments := assignments db;
     userLessonProgress := userLessonProgress db;
     userCourseProgress := f (userCourseProgress db);
     userAssignments := userAssignments db |}.

Definition set_userAssignments
    (f : gmap (string * string) UserAssignment.t → gmap (string * string) UserAssignment.t)
    (db : Db) : Db :=
  {| users := users db; otpCodes := otpCodes db; courses := courses db;
     lessons := lessons db; assignments := assignments db;
     userLessonProgress := userLessonProgress db;
     userCourseProgress := userCourseProgress db;
     userAssignments := f (userAssignments db) |}.

(** ** Errors and the async monad *)

(** The [Error]s the services throw, one constructor per message. *)
Inductive Error :=
  | ProgressOutOfRange
  | LessonNotFound
  | CourseNotFound
  | AssignmentNotFound
  | ScoreOutOfRange (maxScore : Z)
  | UserAlreadyExists
  | UserNotFound
  | UserNotFoundOrInactive
  | InvalidOrExpiredCode
  | InvalidCredentials
  | SmtpNotConfigured
  | SendMailFailed
  | DanglingRelation
  | ForeignKeyConstraint (constraint : string)
  | MissingArgument (argument : string).

Definition message (e : Error) : string :=
  match e with
  | ProgressOutOfRange => "Progress percent must be between 0 and 100"
  | LessonNotFound => "Lesson not found"
  | CourseNotFound => "Course not found"
  | AssignmentNotFound => "Assignment not found"
  | ScoreOutOfRange m => "Score must be between 0 and " +:+ pretty m
  | UserAlreadyExists => "User with this email already exists"
  | UserNotFound => "User not found"
  | UserNotFoundOrInactive => "User not found or inactive"
  | InvalidOrExpiredCode => "Invalid or expired code"
  | InvalidCredentials => "Invalid credentials"
  | SmtpNotConfigured => "SMTP is not configured in environment variables"
  | SendMailFailed => "sendMail rejected"
  | DanglingRelation => "Cannot read properties of null"
  | ForeignKeyConstraint c => "Foreign key constraint failed on the field: " +:+ c
  | MissingArgument a => "Argument `" +:+ a +:+ "` is missing."
  end.

Inductive Outcome (A : Type) :=
  | Resolved (a : A)
  | Rejected (e : Error).
Arguments Resolved {A} a.
Arguments Rejected {A} e.

Definition Async (A : Type) : Type := Db → Outcome A * Db.

Global Instance Async_ret : MRet Async := λ A a db, (Resolved a, db).

Global Instance Async_bind : MBind Async := λ A B k m db,
  match m db with
  | (Resolved a, db') => k a db'
  | (Rejected e, db') => (Rejected e, db')
  end.

Definition throw {A : Type} (e : Error) : Async A := λ db, (Rejected e, db).
Definition query {A : Type} (f : Db → A) : Async A := λ db, (Resolved (f db), db).
Definition modify (f : Db → Db) : Async unit := λ db, (Resolved (), f db).
Definition attempt {A : Type} (f : Db → Outcome A) : Async A := λ db, (f db, db).

(** ** Prisma client operations used by the services *)

Module Prisma.

(** [upsert({ where: key, create, update })] on a table with unique [key]:
    [update] receives the stored row and returns it with the [data] fields
    replaced (a field given as [undefined] is left as it is). *)
Definition upsert `{Countable K} {V : Type}
    (key : K) (create : V) (update : V → V) (table : gmap K V) : V * gmap K V :=
  let row := match table !! key with
             | Some old => update old
             | None => create
             end in
  (row, <[key := row]> table).

(** [create] on a table whose primary key is a generated cuid: the row is
    stored under an identifier no row of the table has. *)
Definition create {V : Type} (row : V) (table : gmap string V) : string * gmap string V :=
  let id := fresh (dom table) in
  (id, <[id := row]> table).

(** [findMany({ where })]: the rows satisfying [where], with their keys. *)
Definition findMany `{Countable K} {V : Type}
    (where_ : K * V → Prop) `{∀ r, Decision (where_ r)} (table : gmap K V) : list (K * V) :=
  filter where_ (map_to_list table).

(** [count({ where })]. *)
Definition count `{Countable K} {V : Type}
    (where_ : K * V → Prop) `{∀ r, Decision (where_ r)} (table : gmap K V) : Z :=
  Z.of_nat (length (findMany where_ table)).

(** [orderBy: { createdAt: 'desc' }] followed by taking the first row: a row
    of greatest [createdAt].  Among rows of the same [createdAt] the database
    returns the one it pleases: [tie id id'] tells whether, for this query,
    it puts the row [id] before the row [id']. *)
Fixpoint newest (tie : string → string → bool) (rows : list (string * OtpCode.t))
    : option (string * OtpCode.t) :=
  match rows with
  | [] => None
  | r :: rows' =>
      match newest tie rows' with
      | Some r' =>
          if OtpCode.createdAt r.2 <? OtpCode.createdAt r'.2 then Some r'
          else if OtpCode.createdAt r'.2 <? OtpCode.createdAt r.2 then Some r
          else if tie r.1 r'.1 then Some r else Some r'
      | None => Some r
      end
  end.

End Prisma.

(** ** services/otpService.ts *)

Module OtpService.

Definition digits : string := "0123456789".

(** [digits[k]] appended to a string; an index past the end reads
    [undefined].  [Math.floor(Math.random() * digits.length)] is below 10. *)
Definition digit_at (k : nat) : string :=
  match String.get k digits with
  | Some c => String c ""
  | None => "undefined"
  end.

(** The loop of [generateOtpCode], from index [i] with [n] rounds to go;
    [random i] is [Math.floor(Math.random() * digits.length)] at round [i]. *)
Fixpoint generateOtpCode_loop (random : nat → nat) (i n : nat) (code : string) : string :=
  match n with
  | O => code
  | S n' => generateOtpCode_loop random (S i) n' (code +:+ digit_at (random i))
  end.

Definition generateOtpCode (random : nat → nat) (length : nat) : string :=
  generateOtpCode_loop random 0 length "".

Record CreateParams := {
  create_userId : string;
  create_purpose : OtpPurpose;
  create_sentTo : string;
}.

(** [prisma.otpCode.create] is refused by the database when no user has the
    [userId]: the migration declares the foreign key [OtpCode_userId_fkey]
    on ["User"("id")]. *)
Definition createOtpForUser (env : Env) (now : Z) (random : nat → nat)
    (params : CreateParams) : Async (string * OtpCode.t) := λ db,
  let code := generateOtpCode random 6 in
  let expiresAt := JS.addMinutes now (OTP_EXP_MINUTES env) in
  let otp := {| OtpCode.createdAt := now;
                OtpCode.userId := create_userId params;
                OtpCode.purpose := create_purpose params;
                OtpCode.code := code;
                OtpCode.expiresAt := expiresAt;
                OtpCode.usedAt := None;
                OtpCode.sentTo := create_sentTo params |} in
  match users db !! create_userId params with
  | Some _ =>
      let '(id, table) := Prisma.create otp (otpCodes db) in
      (Resolved (id, otp), set_otpCodes (λ _, table) db)
  | None => (Rejected (ForeignKeyConstraint "OtpCode_userId_fkey"), db)
  end.

Record VerifyParams := {
  verify_userId : string;
  verify_purpose : OtpPurpose;
  verify_code : string;
}.

(** The [where] clause of [verifyOtp]. *)
Definition verify_where (params : VerifyParams) (r : string * OtpCode.t) : Prop :=
  OtpCode.userId r.2 = verify_userId params ∧
  OtpCode.purpose r.2 = verify_purpose params ∧
  OtpCode.code r.2 = verify_code params ∧
  OtpCode.usedAt r.2 = None.

Global Instance verify_where_dec params r : Decision (verify_where params r).
Proof. unfold verify_where. apply _. Defined.

Definition otpCode_findFirst (tie : string → string → bool) (params : VerifyParams)
    (db : Db) : option (string * OtpCode.t) :=
  Prisma.newest tie (Prisma.findMany (verify_where params) (otpCodes db)).

(** [tie] is the order in which the database returns codes created at the
    same instant, left open by the query. *)
Definition verifyOtp (tie : string → string → bool) (now : Z) (params : VerifyParams)
    : Async bool :=
  otp ← query (otpCode_findFirst tie params);
  match otp with
  | None => mret false
  | Some (id, otp) =>
      if JS.isBefore (OtpCode.expiresAt otp) now then mret false
      else
        _ ← modify (set_otpCodes (alter (OtpCode.set_usedAt now) id));
        mret true
  end.

End OtpService.

(** ** services/emailService.ts *)

Module EmailService.

Record Mail := {
  mail_from : option string;
  mail_to : string;
  mail_subject : string;
  mail_text : string;
}.

(** The configuration check of [getTransporter]; the transport it builds is
    cached in a module variable and has no other state. *)
Definition getTransporter (env : Env) : Async unit :=
  if negb (JS.truthy_str (SMTP_HOST env)) || negb (JS.truthy_num (SMTP_PORT env))
     || negb (JS.truthy_str (SMTP_USER env)) || negb (JS.truthy_str (SMTP_PASS env))
  then throw SmtpNotConfigured
  else mret ().

Record OtpEmail := {
  email_to : string;
  email_code : string;
  email_purpose : string;
}.

Definition newline : string := String (Ascii.ascii_of_nat 10) "".

Definition otp_mail (env : Env) (params : OtpEmail) : Mail :=
  {| mail_from := if JS.truthy_str (SMTP_FROM env) then SMTP_FROM env else SMTP_USER env;
     mail_to := email_to params;
     mail_subject := "Ваш код подтверждения (" +:+ email_purpose params +:+ ")";
     mail_text := "Ваш одноразовый код: " +:+ email_code params +:+ newline +:+ newline +:+
       "Срок действия ограничен по времени. Если вы не запрашивали этот код, просто проигнорируйте письмо." |}.

(** [sendMail mail] tells whether the transport delivered [mail]. *)
Definition sendOtpEmail (env : Env) (sendMail : Mail → bool) (params : OtpEmail) : Async unit :=
  _ ← getTransporter env;
  if sendMail (otp_mail env params) then mret () else throw SendMailFailed.

End EmailService.

(** ** services/authService.ts *)

Module AuthService.

Definition SALT_ROUNDS : Z := 10.

(** [prisma.user.findUnique({ where: { email } })]; [email] is unique. *)
Definition user_findUnique (email : string) (db : Db) : option (string * User.t) :=
  head (Prisma.findMany (λ r, User.email r.2 = email) (users db)).

Definition user_update (now : Z) (id : string) (data : User.t → User.t) : Async unit :=
  modify (set_users (alter (λ u,
    let u' := data u in
    {| User.createdAt := User.createdAt u'; User.updatedAt := now;
       User.email := User.email u'; User.phone := User.phone u';
       User.passwordHash := User.passwordHash u'; User.isActive := User.isActive u' |}) id)).

Section WithCollaborators.

(** The process configuration, bcrypt, jsonwebtoken and the SMTP transport. *)
Variable env : Env.
Variable bcrypt_hash : string → Z → string.
Variable bcrypt_compare : string → string → bool.
Variable jwt_sign : string → Z → string → string.
Variable sendMail : EmailService.Mail → bool.

Definition registerRequestOtp (now : Z) (random : nat → nat)
    (email password : string) : Async unit :=
  existing ← query (user_findUnique email);
  match existing with
  | Some _ => throw UserAlreadyExists
  | None =>
      let passwordHash := bcrypt_hash password SALT_ROUNDS in
      user ← (λ db,
        let row := {| User.createdAt := now; User.updatedAt := now;
                      User.email := email; User.phone := None;
                      User.passwordHash := passwordHash; User.isActive := false |} in
        let '(id, table) := Prisma.create row (users db) in
        (Resolved (id, row), set_users (λ _, table) db));
      otp ← OtpService.createOtpForUser env now random
        {| OtpService.create_userId := user.1;
           OtpService.create_purpose := REGISTER;
           OtpService.create_sentTo := email |};
      EmailService.sendOtpEmail env sendMail
        {| EmailService.email_to := email;
           EmailService.email_code := OtpCode.code otp.2;
           EmailService.email_purpose := "Регистрация" |}
  end.

(** [jwt_sign sub now secret] is [jwt.sign({ sub }, secret, { expiresIn: '7d' })]
    at the clock reading [now], which jsonwebtoken stamps into the token as
    [iat] and, seven days later, [exp]. *)
Definition signJwt (now : Z) (userId : string) : string :=
  jwt_sign userId now (JWT_SECRET env).

Definition registerVerifyOtp (tie : string → string → bool) (now : Z)
    (email code : string) : Async string :=
  user ← query (user_findUnique email);
  match user with
  | None => throw UserNotFound
  | Some (id, user) =>
      ok ← OtpService.verifyOtp tie now
        {| OtpService.verify_userId := id;
           OtpService.verify_purpose := REGISTER;
           OtpService.verify_code := code |};
      if negb ok then throw InvalidOrExpiredCode
      else
        _ ← (if negb (User.isActive user)
             then user_update now id (λ u,
               {| User.createdAt := User.createdAt u; User.updatedAt := User.updatedAt u;
                  User.email := User.email u; User.phone := User.phone u;
                  User.passwordHash := User.passwordHash u; User.isActive := true |})
             else mret ());
        mret (signJwt now id)
  end.

Definition loginWithPassword (now : Z) (email password : string) : Async string :=
  user ← query (user_findUnique email);
  match user with
  | None => throw UserNotFoundOrInactive
  | Some (id, user) =>
      if negb (User.isActive user) then throw UserNotFoundOrInactive
      else if negb (bcrypt_compare password (User.passwordHash user))
      then throw InvalidCredentials
      else mret (signJwt now id)
  end.

Definition requestPasswordReset (now : Z) (random : nat → nat) (email : string) : Async unit :=
  user ← query (user_findUnique email);
  match user with
  | None => mret ()
  | Some (id, user) =>
      if negb (User.isActive user) then mret ()
      else
        otp ← OtpService.createOtpForUser env now random
          {| OtpService.create_userId := id;
             OtpService.create_purpose := PASSWORD_RESET;
             OtpService.create_sentTo := email |};
        EmailService.sendOtpEmail env sendMail
          {| EmailService.email_to := email;
             EmailService.email_code := OtpCode.code otp.2;
             EmailService.email_purpose := "Сброс пароля" |}
  end.

Definition confirmPasswordReset (tie : string → string → bool) (now : Z)
    (email code newPassword : string) : Async unit :=
  user ← query (user_findUnique email);
  match user with
  | None => throw UserNotFoundOrInactive
  | Some (id, user) =>
      if negb (User.isActive user) then throw UserNotFoundOrInactive
      else
        ok ← OtpService.verifyOtp tie now
          {| OtpService.verify_userId := id;
             OtpService.verify_purpose := PASSWORD_RESET;
             OtpService.verify_code := code |};
        if negb ok then throw InvalidOrExpiredCode
        else
          let passwordHash := bcrypt_hash newPassword SALT_ROUNDS in
          user_update now id (λ u,
            {| User.createdAt := User.createdAt u; User.updatedAt := User.updatedAt u;
               User.email := User.email u; User.phone := User.phone u;
               User.passwordHash := passwordHash; User.isActive := User.isActive u |})
  end.

End WithCollaborators.

End AuthService.

(** ** services/courseService.ts *)

Module CourseService.

(** [include: { lessons: { where: { isActive: true } } }] of a course. *)
Definition course_lessons (courseId : string) (db : Db) : list (string * Lesson.t) :=
  Prisma.findMany (λ r, Lesson.courseId r.2 = courseId ∧ Lesson.isActive r.2 = true)
    (lessons db).

Definition updateCourseProgress (now : Z) (userId courseId : string) : Async unit :=
  course ← query (λ db, courses db !! courseId);
  match course with
  | None => throw CourseNotFound
  | Some _ =>
      course_lessons ← query (course_lessons courseId);
      if (length course_lessons =? 0)%nat then mret ()
      else
        lessonsProgress ← query (λ db,
          Prisma.findMany (λ r, r.1.1 = userId ∧ r.1.2 ∈ course_lessons.*1)
            (userLessonProgress db));
        let totalProgress :=
          JS.reduce_sum (λ lp, UserLessonProgress.progressPercent lp.2) lessonsProgress in
        let averageProgress :=
          JS.Math_round_div totalProgress (Z.of_nat (length course_lessons)) in
        let isCompleted := averageProgress =? 100 in
        modify (set_userCourseProgress (λ table,
          (Prisma.upsert (userId, courseId)
             {| UserCourseProgress.progressPercent := averageProgress;
                UserCourseProgress.completedAt := if isCompleted then Some now else None |}
             (λ old,
               {| UserCourseProgress.progressPercent := averageProgress;
                  UserCourseProgress.completedAt :=
                    if isCompleted then Some now else UserCourseProgress.completedAt old |})
             table).2))
  end.

(** The lesson is found by [id] alone, active or not; of the row found only
    [courseId] is read. *)
Definition updateLessonProgress (now : Z) (userId lessonId : string) (progressPercent : Z)
    : Async UserLessonProgress.t :=
  if (progressPercent <? 0) || (progressPercent >? 100) then throw ProgressOutOfRange
  else
    lesson ← query (λ db, lessons db !! lessonId);
    match lesson with
    | None => throw LessonNotFound
    | Some lesson =>
        let isCompleted := progressPercent =? 100 in
        lessonProgress ← (λ db,
          let '(row, table) :=
            Prisma.upsert (userId, lessonId)
              {| UserLessonProgress.progressPercent := progressPercent;
                 UserLessonProgress.completedAt := if isCompleted then Some now else None |}
              (λ old,
                {| UserLessonProgress.progressPercent := progressPercent;
                   UserLessonProgress.completedAt :=
                     if isCompleted then Some now else UserLessonProgress.completedAt old |})
              (userLessonProgress db) in
          (Resolved row, set_userLessonProgress (λ _, table) db));
        _ ← updateCourseProgress now userId (Lesson.courseId lesson);
        mret lessonProgress
    end.

(** [findUnique({ where: { id }, include: { lesson: true } })]: the assignment
    together with the lesson it belongs to. *)
Definition assignment_findUnique (assignmentId : string) (db : Db)
    : option (Assignment.t * option Lesson.t) :=
  (λ a, (a, lessons db !! Assignment.lessonId a)) <$> assignments db !! assignmentId.

(** [answers] is [any], and the route lets it be absent: [Some] of a value
    the column takes, in serialised form, or [None] for [undefined].  Prisma
    validates the arguments of the upsert before it runs: with [answers]
    undefined and the column required, [create] lacks an argument and the
    call is refused whether or not the row exists; otherwise [create] leaves
    the column to its NULL and [update] leaves it as it is. *)
Definition submitAssignment (schema : Schema) (now : Z) (userId assignmentId : string)
    (answers : option string) (score : Z) : Async UserAssignment.t :=
  assignment ← query (assignment_findUnique assignmentId);
  match assignment with
  | None => throw AssignmentNotFound
  | Some (assignment, assignment_lesson) =>
      if (score <? 0) || (score >? Assignment.maxScore assignment)
      then throw (ScoreOutOfRange (Assignment.maxScore assignment))
      else
        userAssignment ← (λ db,
          match answers, answers_required schema with
          | None, true => (Rejected (MissingArgument "answers"), db)
          | _, _ =>
              let '(row, table) :=
                Prisma.upsert (userId, assignmentId)
                  {| UserAssignment.score := score; UserAssignment.answers := answers;
                     UserAssignment.completedAt := Some now |}
                  (λ old,
                    {| UserAssignment.score := score;
                       UserAssignment.answers :=
                         match answers with
                         | Some _ => answers
                         | None => UserAssignment.answers old
                         end;
                       UserAssignment.completedAt := Some now |})
                  (userAssignments db) in
              (Resolved row, set_userAssignments (λ _, table) db)
          end);
        _ ← match assignment_lesson with
            | Some _ =>
                _ ← updateLessonProgress now userId (Assignment.lessonId assignment) 100;
                mret ()
            | None => mret ()
            end;
        mret userAssignment
  end.

End CourseService.

(** ** services/profileService.ts *)

Module ProfileService.

(** The result of [getUserStats].  [scorePercentage], the one field computed
    by a floating-point product, is not part of the embedding. *)
Record Stats := {
  totalCourses : Z;
  startedCourses : Z;
  completedCourses : Z;
  averageProgress : Z;
  completedLessons : Z;
  totalLessons : Z;
  completedAssignments : Z;
  totalAssignments : Z;
  totalScore : Z;
  maxScore : Z;
}.

(** [findMany({ where: { userId } })] on the course progress table; the
    included course is not read. *)
Definition userCourses (userId : string) (db : Db) : list (string * string * UserCourseProgress.t) :=
  Prisma.findMany (λ r, r.1.1 = userId) (userCourseProgress db).

(** The relation filter [course: { isActive: true }] of a lesson. *)
Definition lesson_course_active (db : Db) (l : Lesson.t) : Prop :=
  ∃ c, courses db !! Lesson.courseId l = Some c ∧ Course.isActive c = true.

Global Instance lesson_course_active_dec db l : Decision (lesson_course_active db l).
Proof.
  unfold lesson_course_active.
  destruct (courses db !! Lesson.courseId l) as [c|].
  - destruct (decide (Course.isActive c = true)).
    + left. by exists c.
    + right. intros (c' & Hc & ?). by simplify_eq.
  - right. by intros (c' & Hc & ?).
Defined.

(** The relation filter [lesson: { course: { isActive: true }, isActive: true }]
    of an assignment. *)
Definition assignment_lesson_active (db : Db) (a : Assignment.t) : Prop :=
  ∃ l, lessons db !! Assignment.lessonId a = Some l ∧
       lesson_course_active db l ∧ Lesson.isActive l = true.

Global Instance assignment_lesson_active_dec db a : Decision (assignment_lesson_active db a).
Proof.
  unfold assignment_lesson_active.
  destruct (lessons db !! Assignment.lessonId a) as [l|].
  - destruct (decide (lesson_course_active db l ∧ Lesson.isActive l = true)).
    + left. by exists l.
    + right. intros (l' & Hl & ?). by simplify_eq.
  - right. by intros (l' & Hl & ?).
Defined.

(** [aggregate({ where: { userId }, _sum: { score: true } })]: [null] over no
    row. *)
Definition sum_score (rows : list (string * string * UserAssignment.t)) : option Z :=
  match rows with
  | [] => None
  | _ => Some (JS.reduce_sum (λ ua, UserAssignment.score ua.2) rows)
  end.

(** [findMany({ where: { userId }, include: { assignment: { select: { maxScore } } } })]:
    every row joined with the [maxScore] of its assignment. *)
Definition with_maxScore (db : Db) (rows : list (string * string * UserAssignment.t))
    : Outcome (list (string * string * UserAssignment.t * Z)) :=
  match mapM (λ ua, (λ a, (ua, Assignment.maxScore a)) <$> assignments db !! ua.1.2) rows with
  | Some joined => Resolved joined
  | None => Rejected DanglingRelation
  end.

Definition getUserStats (userId : string) : Async Stats :=
  totalCourses ← query (λ db, Prisma.count (λ r, Course.isActive r.2 = true) (courses db));
  userCourses ← query (userCourses userId);
  let startedCourses := Z.of_nat (length userCourses) in
  let completedCourses := Z.of_nat (length
    (filter (λ cp, UserCourseProgress.progressPercent cp.2 = 100) userCourses)) in
  let averageProgress :=
    if Z.of_nat (length userCourses) >? 0
    then JS.Math_round_div
           (JS.reduce_sum (λ cp, UserCourseProgress.progressPercent cp.2) userCourses)
           (Z.of_nat (length userCourses))
    else 0 in
  completedLessons ← query (λ db,
    Prisma.count (λ r, r.1.1 = userId ∧ UserLessonProgress.progressPercent r.2 = 100)
      (userLessonProgress db));
  totalLessons ← query (λ db,
    Prisma.count (λ r, lesson_course_active db r.2 ∧ Lesson.isActive r.2 = true) (lessons db));
  completedAssignments ← query (λ db,
    Prisma.count (λ r, r.1.1 = userId ∧ UserAssignment.completedAt r.2 ≠ None)
      (userAssignments db));
  totalAssignments ← query (λ db,
    Prisma.count (λ r, assignment_lesson_active db r.2 ∧ Assignment.isActive r.2 = true)
      (assignments db));
  totalScore ← query (λ db,
    sum_score (Prisma.findMany (λ r, r.1.1 = userId) (userAssignments db)));
  maxPossibleScore ← attempt (λ db,
    with_maxScore db (Prisma.findMany (λ r, r.1.1 = userId) (userAssignments db)));
  let maxScore := JS.reduce_sum (λ ua, ua.2) maxPossibleScore in
  mret {| totalCourses := totalCourses;
          startedCourses := startedCourses;
          completedCourses := completedCourses;
          averageProgress := averageProgress;
          completedLessons := completedLessons;
          totalLessons := totalLessons;
          completedAssignments := completedAssignments;
          totalAssignments := totalAssignments;
          totalScore := default 0 totalScore;
          maxScore := maxScore |}.

Record Achievement := {
  id : string;
  title : string;
  description : string;
  unlocked : bool;
  unlockedAt : option Z;
}.

(** [if (cond) achievements.push(a)]. *)
Definition push_if (cond : bool) (a : Achievement) (achievements : list Achievement)
    : list Achievement :=
  if cond then achievements ++ [a] else achievements.

Definition getUserAchievements (userId : string) : Async (list Achievement) :=
  stats ← getUserStats userId;
  let achievements : list Achievement := [] in
  let achievements := push_if (startedCourses stats >=? 1)
    {| id := "first_course"; title := "Первый шаг";
       description := "Начал прохождение первого курса";
       unlocked := true; unlockedAt := None |} achievements in
  let achievements := push_if (completedCourses stats >=? 1)
    {| id := "first_completed"; title := "Первый успех";
       description := "Завершил первый курс";
       unlocked := true; unlockedAt := None |} achievements in
  let achievements := push_if (completedCourses stats >=? 5)
    {| id := "five_courses"; title := "Опытный студент";
       description := "Завершил 5 курсов";
       unlocked := true; unlockedAt := None |} achievements in
  let achievements := push_if (completedCourses stats >=? 10)
    {| id := "ten_courses"; title := "Мастер обучения";
       description := "Завершил 10 курсов";
       unlocked := true; unlockedAt := None |} achievements in
  let achievements := push_if
    ((completedAssignments stats >? 0) &&
     (completedAssignments stats =? totalAssignments stats))
    {| id := "all_assignments"; title := "Выполнил все задания";
       description := "Завершил все доступные задания";
       unlocked := true; unlockedAt := None |} achievements in
  let achievements := push_if
    ((averageProgress stats =? 100) && (startedCourses stats >? 0))
    {| id := "perfect_progress"; title := "Идеальный прогресс";
       description := "Достиг 100% прогресса по всем курсам";
       unlocked := true; unlockedAt := None |} achievements in
  mret achievements.

End ProfileService.

(** ** middleware/authMiddleware.ts *)

Module AuthMiddleware.

(** The headers the middleware reads.  Express looks a header up without
    regard to case, so [req.header('authorization') ||
    req.header('Authorization')] is one lookup. *)
Record Request := {
  x_auth_token : option string;
  authorization : option string;
}.

(** What the middleware does with a request: it hands it on with
    [req.userId] set, or answers 401 with an error. *)
Inductive Response :=
  | next (userId : string)
  | status_401 (error : string).

(** [s.substring(n)]. *)
Fixpoint substring (n : nat) (s : string) : string :=
  match n, s with
  | O, _ => s
  | S n', String _ s' => substring n' s'
  | S _, EmptyString => EmptyString
  end.

(** [header && header.startsWith(prefix)]. *)
Definition startsWith (prefix : string) (header : option string) : bool :=
  match header with
  | Some s => JS.truthy_str header && String.prefix prefix s
  | None => false
  end.

Section WithJwt.

(** The process configuration and jsonwebtoken's [verify] at the time of
    the request: [None] when it throws (a bad signature, a token past its
    [exp]), otherwise the [sub] of the payload, if it has one. *)
Variable env : Env.
Variable jwt_verify : string → string → option (option string).

Definition authMiddleware (req : Request) : Response :=
  let headerToken := x_auth_token req in
  let authHeader := authorization req in
  let token : option string :=
    if JS.truthy_str headerToken then headerToken
    else if startsWith "Bearer " authHeader
         then substring (String.length "Bearer ") <$> authHeader
         else None in
  match token with
  | Some token =>
      if String.eqb token "" then status_401 "No auth token provided"
      else
        match jwt_verify token (JWT_SECRET env) with
        | Some sub =>
            if negb (JS.truthy_str sub) then status_401 "Invalid token payload"
            else next (default "" sub)
        | None => status_401 "Invalid or expired token"
        end
  | None => status_401 "No auth token provided"
  end.

End WithJwt.

End AuthMiddleware.

(** ** The rollup as the specification words it *)

Module Spec.

Definition Zsum (xs : list Z) : Z := foldr Z.add 0 xs.

(** The percent a user has on a lesson: that of the progress row, and 0 for
    a lesson without one. *)
Definition lesson_percent (db : Db) (userId lessonId : string) : Z :=
  match userLessonProgress db !! (userId, lessonId) with
  | Some row => UserLessonProgress.progressPercent row
  | None => 0
  end.

(** A lesson that counts for a course: a stored lesson of the course with
    [isActive] set. *)
Definition counts_for (db : Db) (courseId lessonId : string) : Prop :=
  ∃ lesson, lessons db !! lessonId = Some lesson ∧
            Lesson.courseId lesson = courseId ∧ Lesson.isActive lesson = true.

(** The identifiers of the active lessons of a course, read off the lesson
    table. *)
Definition active_lessons (db : Db) (courseId : string) : list string :=
  (filter (λ r, Lesson.courseId r.2 = courseId ∧ Lesson.isActive r.2 = true)
     (map_to_list (lessons db))).*1.

(** round(sum of the user's percents over the active lessons of the course,
    divided by the count of all its active lessons). *)
Definition course_percent (db : Db) (userId courseId : string) : Z :=
  JS.Math_round_div
    (Zsum (lesson_percent db userId <$> active_lessons db courseId))
    (Z.of_nat (length (active_lessons db courseId))).

End Spec.

(** ** Sequences of calls made by a client *)

Module Client.

(** A client sets lessons to 100%, one call after the other; each call is a
    time and a lesson. *)
Fixpoint complete_lessons (userId : string) (calls : list (Z * string)) (db : Db) : Db :=
  match calls with
  | [] => db
  | (now, lessonId) :: calls' =>
      complete_lessons userId calls'
        (CourseService.updateLessonProgress now userId lessonId 100 db).2
  end.

(** One registration request: the process it reaches and what it sends. *)
Record Attempt := {
  attempt_env : Env;
  attempt_bcrypt_hash : string → Z → string;
  attempt_sendMail : EmailService.Mail → bool;
  attempt_now : Z;
  attempt_random : nat → nat;
  attempt_password : string;
}.

(** Registration requests for one email, one after the other: the outcomes
    in order and the store reached. *)
Fixpoint register_attempts (email : string) (attempts : list Attempt) (db : Db)
    : list (Outcome unit) * Db :=
  match attempts with
  | [] => ([], db)
  | a :: attempts' =>
      let r := AuthService.registerRequestOtp (attempt_env a) (attempt_bcrypt_hash a)
                 (attempt_sendMail a) (attempt_now a) (attempt_random a)
                 email (attempt_password a) db in
      let rs := register_attempts email attempts' r.2 in
      (r.1 :: rs.1, rs.2)
  end.

End Client.

(** ** Invariants of the progress tables *)

Module Invariant.

(** Every stored lesson and course percent lies within 0..100. *)
Definition percent_in_range (db : Db) : Prop :=
  map_Forall (λ _ row, 0 ≤ UserLessonProgress.progressPercent row ≤ 100)
    (userLessonProgress db) ∧
  map_Forall (λ _ row, 0 ≤ UserCourseProgress.progressPercent row ≤ 100)
    (userCourseProgress db).

(** Every lesson and course row standing at 100 carries a completion time. *)
Definition completion_stamped (db : Db) : Prop :=
  map_Forall (λ _ row, UserLessonProgress.progressPercent row = 100 →
                       is_Some (UserLessonProgress.completedAt row))
    (userLessonProgress db) ∧
  map_Forall (λ _ row, UserCourseProgress.progressPercent row = 100 →
                       is_Some (UserCourseProgress.completedAt row))
    (userCourseProgress db).

(** Every submission refers to a stored assignment, carries a score within
    0..[maxScore] of it and a completion time. *)
Definition scores_in_range (db : Db) : Prop :=
  map_Forall (λ key row,
      is_Some (UserAssignment.completedAt row) ∧
      ∃ assignment, assignments db !! key.2 = Some assignment ∧
                    0 ≤ UserAssignment.score row ≤ Assignment.maxScore assignment)
    (userAssignments db).

End Invariant.

(** ** Example stores *)

Module Example.

Definition env_no_smtp : Env :=
  {| PORT := "4000"; DATABASE_URL := "postgresql://localhost:5432/app_db";
     JWT_SECRET := "0123456789abcdef";
     OTP_EXP_MINUTES := 10; OTP_RESEND_INTERVAL_SEC := 60;
     SMTP_HOST := None; SMTP_PORT := None; SMTP_USER := None;
     SMTP_PASS := None; SMTP_FROM := None |}.

Definition env_smtp : Env :=
  {| PORT := "4000"; DATABASE_URL := "postgresql://localhost:5432/app_db";
     JWT_SECRET := "0123456789abcdef";
     OTP_EXP_MINUTES := 10; OTP_RESEND_INTERVAL_SEC := 60;
     SMTP_HOST := Some "smtp.x.com"; SMTP_PORT := Some (JS.Int 465);
     SMTP_USER := Some "mailer"; SMTP_PASS := Some "secret";
     SMTP_FROM := None |}.

(** [SMTP_PORT=smtps] in the environment: [Number('smtps')] is [NaN]. *)
Definition env_port_name : Env :=
  {| PORT := "4000"; DATABASE_URL := "postgresql://localhost:5432/app_db";
     JWT_SECRET := "0123456789abcdef";
     OTP_EXP_MINUTES := 10; OTP_RESEND_INTERVAL_SEC := 60;
     SMTP_HOST := Some "smtp.x.com"; SMTP_PORT := Some JS.NaN;
     SMTP_USER := Some "mailer"; SMTP_PASS := Some "secret";
     SMTP_FROM := None |}.

(** The two possible schemas of the answers column. *)
Definition answers_json : Schema := {| answers_required := true |}.
Definition answers_json_opt : Schema := {| answers_required := false |}.

Definition empty_db : Db :=
  {| users := ∅; otpCodes := ∅; courses := ∅; lessons := ∅; assignments := ∅;
     userLessonProgress := ∅; userCourseProgress := ∅; userAssignments := ∅ |}.

Definition lessonA : Lesson.t :=
  {| Lesson.courseId := "c1"; Lesson.title := "A"; Lesson.order := 1;
     Lesson.isActive := true |}.

Definition lessonB : Lesson.t :=
  {| Lesson.courseId := "c1"; Lesson.title := "B"; Lesson.order := 2;
     Lesson.isActive := true |}.

Definition lessonC : Lesson.t :=
  {| Lesson.courseId := "c1"; Lesson.title := "C"; Lesson.order := 3;
     Lesson.isActive := true |}.

Definition quizA : Assignment.t :=
  {| Assignment.lessonId := "lA"; Assignment.maxScore := 100;
     Assignment.isActive := true |}.

(** One active course with three active lessons, the first with a quiz, and
    no progress yet. *)
Definition course_db : Db :=
  {| users := ∅; otpCodes := ∅;
     courses := {[ "c1" := {| Course.title := "Course"; Course.order := 1;
                              Course.isActive := true |} ]};
     lessons := {[ "lA" := lessonA; "lB" := lessonB; "lC" := lessonC ]};
     assignments := {[ "qA" := quizA ]};
     userLessonProgress := ∅; userCourseProgress := ∅; userAssignments := ∅ |}.

(** The user completed lesson A at time 1000. *)
Definition completed_db : Db :=
  (CourseService.updateLessonProgress 1000 "u1" "lA" 100 course_db).2.

Definition alice : User.t :=
  {| User.createdAt := 100; User.updatedAt := 100; User.email := "a@x.com";
     User.phone := None; User.passwordHash := "$2b$10$hashA"; User.isActive := true |}.

Definition bob : User.t :=
  {| User.createdAt := 200; User.updatedAt := 200; User.email := "b@x.com";
     User.phone := None; User.passwordHash := "$2b$10$hashB"; User.isActive := false |}.

Definition users_db : Db :=
  {| users := {[ "u1" := alice; "u2" := bob ]}; otpCodes := ∅;
     courses := ∅; lessons := ∅; assignments := ∅;
     userLessonProgress := ∅; userCourseProgress := ∅; userAssignments := ∅ |}.

Definition otp (createdAt : Z) (expiresAt : Z) : OtpCode.t :=
  {| OtpCode.createdAt := createdAt; OtpCode.userId := "u1"; OtpCode.code := "123456";
     OtpCode.purpose := LOGIN; OtpCode.expiresAt := expiresAt;
     OtpCode.usedAt := None; OtpCode.sentTo := "a@x.com" |}.

Definition login_123456 : OtpService.VerifyParams :=
  {| OtpService.verify_userId := "u1"; OtpService.verify_purpose := LOGIN;
     OtpService.verify_code := "123456" |}.

(** One code, issued at 1000 and expiring at 601000. *)
Definition one_code_db : Db :=
  {| users := {[ "u1" := alice ]}; otpCodes := {[ "o1" := otp 1000 601000 ]};
     courses := ∅; lessons := ∅; assignments := ∅;
     userLessonProgress := ∅; userCourseProgress := ∅; userAssignments := ∅ |}.

(** Alice and Bob are stored and Alice holds the code. *)
Definition alice_code_db : Db :=
  {| users := {[ "u1" := alice; "u2" := bob ]};
     otpCodes := {[ "o1" := otp 1000 601000 ]};
     courses := ∅; lessons := ∅; assignments := ∅;
     userLessonProgress := ∅; userCourseProgress := ∅; userAssignments := ∅ |}.

Definition alice_db : Db :=
  {| users := {[ "u1" := alice ]}; otpCodes := ∅;
     courses := ∅; lessons := ∅; assignments := ∅;
     userLessonProgress := ∅; userCourseProgress := ∅; userAssignments := ∅ |}.

(** A database that returns codes of the same instant in the order of
    their identifiers. *)
Definition by_id (id id' : string) : bool := String.leb id id'.

(** The generator draws 1, 2, 3, 4, 5, 6. *)
Definition draws_123456 (i : nat) : nat := S i.

Definition bcrypt_hash (password : string) (rounds : Z) : string :=
  "$2b$" +:+ pretty rounds +:+ "$" +:+ password.

Definition reset_123456 : OtpService.VerifyParams :=
  {| OtpService.verify_userId := "u1"; OtpService.verify_purpose := PASSWORD_RESET;
     OtpService.verify_code := "123456" |}.

(** Alice asks for a password reset at 1000 and again at 2000; both mails
    are delivered and both codes happen to carry the same six digits. *)
Definition twin_codes_db : Db :=
  let request now :=
    AuthService.requestPasswordReset env_smtp (λ _, true) now draws_123456 "a@x.com" in
  (request 2000 (request 1000 alice_db).2).2.

Definition reset_for_alice : OtpService.CreateParams :=
  {| OtpService.create_userId := "u1"; OtpService.create_purpose := PASSWORD_RESET;
     OtpService.create_sentTo := "a@x.com" |}.

Definition reset_for_bob : OtpService.CreateParams :=
  {| OtpService.create_userId := "u2"; OtpService.create_purpose := PASSWORD_RESET;
     OtpService.create_sentTo := "b@x.com" |}.

(** A signer for the examples: the secret, the subject and the time of
    signing. *)
Definition jwt_sign (sub : string) (now : Z) (secret : string) : string :=
  secret +:+ "." +:+ sub +:+ "@" +:+ pretty now.

Definition bcrypt_compare (password hash : string) : bool :=
  String.eqb hash (bcrypt_hash password AuthService.SALT_ROUNDS).

Definition carol : User.t :=
  {| User.createdAt := 1000; User.updatedAt := 1000; User.email := "c@x.com";
     User.phone := None; User.passwordHash := bcrypt_hash "secret1" 10;
     User.isActive := false |}.

(** Carol has registered at 1000 and holds the code 123456. *)
Definition pending_db : Db :=
  {| users := {[ "u3" := carol ]};
     otpCodes := {[ "o3" :=
       {| OtpCode.createdAt := 1000; OtpCode.userId := "u3"; OtpCode.code := "123456";
          OtpCode.purpose := REGISTER; OtpCode.expiresAt := 601000;
          OtpCode.usedAt := None; OtpCode.sentTo := "c@x.com" |} ]};
     courses := ∅; lessons := ∅; assignments := ∅;
     userLessonProgress := ∅; userCourseProgress := ∅; userAssignments := ∅ |}.

(** Dave's stored hash is the bcrypt hash of "hashA". *)
Definition dave : User.t :=
  {| User.createdAt := 100; User.updatedAt := 100; User.email := "a@x.com";
     User.phone := None; User.passwordHash := bcrypt_hash "hashA" 10;
     User.isActive := true |}.

Definition login_db : Db :=
  {| users := {[ "u1" := dave; "u2" := bob ]}; otpCodes := ∅;
     courses := ∅; lessons := ∅; assignments := ∅;
     userLessonProgress := ∅; userCourseProgress := ∅; userAssignments := ∅ |}.

Definition lessonH : Lesson.t :=
  {| Lesson.courseId := "c2"; Lesson.title := "H"; Lesson.order := 1;
     Lesson.isActive := false |}.

(** A course whose only lesson is inactive. *)
Definition hidden_db : Db :=
  {| users := ∅; otpCodes := ∅;
     courses := {[ "c2" := {| Course.title := "Draft"; Course.order := 2;
                              Course.isActive := true |} ]};
     lessons := {[ "lH" := lessonH ]};
     assignments := ∅;
     userLessonProgress := ∅; userCourseProgress := ∅; userAssignments := ∅ |}.

Definition lessonD : Lesson.t :=
  {| Lesson.courseId := "c1"; Lesson.title := "D"; Lesson.order := 4;
     Lesson.isActive := false |}.

(** The course of [course_db] with a fourth, inactive lesson. *)
Definition mixed_db : Db :=
  {| users := ∅; otpCodes := ∅;
     courses := courses course_db;
     lessons := <[ "lD" := lessonD ]> (lessons course_db);
     assignments := assignments course_db;
     userLessonProgress := ∅; userCourseProgress := ∅; userAssignments := ∅ |}.

(** The user completed lessons A and B. *)
Definition two_done_db : Db :=
  Client.complete_lessons "u1" [(1000, "lA"); (2000, "lB")] course_db.

(** The user completed all three lessons. *)
Definition finished_db : Db :=
  Client.complete_lessons "u1" [(1000, "lA"); (2000, "lB"); (3000, "lC")] course_db.

(** A later registration request, with a working mail transport. *)
Definition retry (now : Z) : Client.Attempt :=
  {| Client.attempt_env := env_smtp; Client.attempt_bcrypt_hash := bcrypt_hash;
     Client.attempt_sendMail := λ _, true; Client.attempt_now := now;
     Client.attempt_random := draws_123456; Client.attempt_password := "secret2" |}.

(** One submission, graded 80 of 100, on the quiz of the first lesson. *)
Definition graded_db : Db :=
  {| users := ∅; otpCodes := ∅;
     courses := {[ "c1" := {| Course.title := "Course"; Course.order := 1;
                              Course.isActive := true |} ]};
     lessons := {[ "lA" := lessonA; "lB" := lessonB; "lC" := lessonC ]};
     assignments := {[ "qA" := quizA ]};
     userLessonProgress := ∅; userCourseProgress := ∅;
     userAssignments :=
       {[ ("u1", "qA") := {| UserAssignment.score := 80;
                             UserAssignment.answers := Some "answers";
                             UserAssignment.completedAt := Some 500 |} ]} |}.

(** Two started courses, one at 100 and one at 99. *)
Definition near_perfect_db : Db :=
  {| users := ∅; otpCodes := ∅; courses := ∅; lessons := ∅; assignments := ∅;
     userLessonProgress := ∅;
     userCourseProgress :=
       {[ ("u1", "c1") := {| UserCourseProgress.progressPercent := 100;
                             UserCourseProgress.completedAt := Some 1000 |};
          ("u1", "c2") := {| UserCourseProgress.progressPercent := 99;
                             UserCourseProgress.completedAt := None |} ]};
     userAssignments := ∅ |}.

(** What precedes the first [@] of a string. *)
Fixpoint before_at (s : string) : string :=
  match s with
  | EmptyString => EmptyString
  | String c s' =>
      if Ascii.eqb c (Ascii.ascii_of_nat 64) then EmptyString
      else String c (before_at s')
  end.

(** A [verify] for the tokens of [jwt_sign]: the token starts with the
    secret and a dot, and the subject is what follows up to the [@]. *)
Definition jwt_verify (token secret : string) : option (option string) :=
  if String.prefix (secret +:+ ".") token
  then Some (Some (before_at
                     (AuthMiddleware.substring (S (String.length secret)) token)))
  else None.

End Example.

(** * Properties *)

(** ** Reasoning about async computations *)

Ltac async_unfold :=
  unfold mbind, Async_bind, mret, Async_ret, query, modify, throw, attempt in *.

Ltac async_simpl := async_unfold; cbn [fst snd] in *.

(** ** Course progress *)

Section CourseProgress.

Import CourseService.

Implicit Types (db : Db) (now p : Z) (userId lessonId courseId : string).

Local Arguments updateCourseProgress : simpl never.
Local Arguments updateLessonProgress : simpl never.

(** [updateCourseProgress] writes to the course progress table only. *)
Lemma updateCourseProgress_frame now userId courseId db :
  ∃ f, (updateCourseProgress now userId courseId db).2 = set_userCourseProgress f db.
Proof.
  unfold updateCourseProgress. async_simpl.
  destruct (courses db !! courseId) as [c|]; cbn.
  - destruct (length (course_lessons courseId db) =? 0)%nat; cbn.
    + exists id. by destruct db.
    + eauto.
  - exists id. by destruct db.
Qed.

(** The range check of [updateLessonProgress]. *)
Lemma progress_range_check p :
  (p <? 0) || (p >? 100) = false ↔ 0 ≤ p ≤ 100.
Proof. rewrite orb_false_iff, Z.ltb_ge, Z.gtb_ltb, Z.ltb_ge. lia. Qed.

(** C6. For every percent outside [0,100], [updateLessonProgress] rejects with
    the range error 'Progress percent must be between 0 and 100' and leaves
    the whole store, hence every lesson and course progress row, as it was. *)
Theorem updateLessonProgress_out_of_range now userId lessonId p db :
  p < 0 ∨ p > 100 →
  updateLessonProgress now userId lessonId p db = (Rejected ProgressOutOfRange, db).
Proof.
  intros Hp. unfold updateLessonProgress.
  destruct ((p <? 0) || (p >? 100)) eqn:Hchk; [done|].
  apply progress_range_check in Hchk. lia.
Qed.

(** What the upsert of [updateLessonProgress] stores for a percent [p], given
    the row [old] found under the key. *)
Lemma updateLessonProgress_table now userId lessonId p db lesson :
  0 ≤ p ≤ 100 →
  lessons db !! lessonId = Some lesson →
  userLessonProgress (updateLessonProgress now userId lessonId p db).2 =
    <[(userId, lessonId) :=
        {| UserLessonProgress.progressPercent := p;
           UserLessonProgress.completedAt :=
             if p =? 100 then Some now
             else userLessonProgress db !! (userId, lessonId)
                    ≫= UserLessonProgress.completedAt |}]>
      (userLessonProgress db).
Proof.
  intros Hp Hl. unfold updateLessonProgress.
  apply progress_range_check in Hp. rewrite Hp. async_simpl. rewrite Hl.
  unfold Prisma.upsert. cbn.
  match goal with
  | |- context [updateCourseProgress ?n ?u ?c ?d] =>
      destruct (updateCourseProgress_frame n u c d) as [f Hf];
      destruct (updateCourseProgress n u c d) as [[[]|e] db2]
  end; cbn in *; subst db2; cbn;
    by destruct (userLessonProgress db !! (userId, lessonId)).
Qed.

(** [updateLessonProgress] touches the two progress tables only. *)
Lemma updateLessonProgress_frame now userId lessonId p db :
  let db' := (updateLessonProgress now userId lessonId p db).2 in
  users db' = users db ∧ otpCodes db' = otpCodes db ∧ courses db' = courses db ∧
  lessons db' = lessons db ∧ assignments db' = assignments db ∧
  userAssignments db' = userAssignments db.
Proof.
  unfold updateLessonProgress.
  destruct ((p <? 0) || (p >? 100)); [done|]. async_simpl.
  destruct (lessons db !! lessonId) as [lesson|]; [|done].
  unfold Prisma.upsert. cbn.
  match goal with
  | |- context [updateCourseProgress ?n ?u ?c ?d] =>
      destruct (updateCourseProgress_frame n u c d) as [f Hf];
      destruct (updateCourseProgress n u c d) as [[[]|e] db2]
  end; cbn in *; by subst db2.
Qed.

(** With the lesson and its course in the store, a percent in range is
    accepted: the call resolves with the row it stored. *)
Lemma updateLessonProgress_resolves now userId lessonId p db lesson :
  0 ≤ p ≤ 100 →
  lessons db !! lessonId = Some lesson →
  is_Some (courses db !! Lesson.courseId lesson) →
  ∃ row, (updateLessonProgress now userId lessonId p db).1 = Resolved row.
Proof.
  intros Hp Hl [c Hc]. unfold updateLessonProgress.
  apply progress_range_check in Hp. rewrite Hp. async_simpl. rewrite Hl.
  unfold Prisma.upsert, updateCourseProgress. async_simpl. cbn. rewrite Hc.
  destruct (length _ =? 0)%nat; cbn; eauto.
Qed.

(** C2 (as amended). For every percent [p] in [0,100] and every lesson of the
    store, [updateLessonProgress] stores exactly [p]; [completedAt] becomes
    the time of the call when [p = 100] and otherwise keeps the value the row
    had before (unset when there was no row).  So after the call
    [completedAt] is set iff [p = 100] or it was set already: a regression
    below 100 leaves the earlier completion time in place. *)
Theorem updateLessonProgress_stores now userId lessonId p db lesson :
  0 ≤ p ≤ 100 →
  lessons db !! lessonId = Some lesson →
  let before := userLessonProgress db !! (userId, lessonId)
                  ≫= UserLessonProgress.completedAt in
  ∃ row,
    userLessonProgress (updateLessonProgress now userId lessonId p db).2
      !! (userId, lessonId) = Some row ∧
    UserLessonProgress.progressPercent row = p ∧
    (p = 100 → UserLessonProgress.completedAt row = Some now) ∧
    (p ≠ 100 → UserLessonProgress.completedAt row = before) ∧
    (is_Some (UserLessonProgress.completedAt row) ↔ p = 100 ∨ is_Some before).
Proof.
  intros Hp Hl before.
  rewrite (updateLessonProgress_table _ _ _ _ _ _ Hp Hl), lookup_insert_eq.
  eexists; split; [done|]. cbn. fold before.
  destruct (Z.eqb_spec p 100) as [->|Hne].
  - repeat split; try done. by left.
  - repeat split; try done; [tauto|]. intros [?|?]; done.
Qed.

(** The percent is stored at a concrete store. *)
Lemma updateLessonProgress_stores_witness :
  ∃ row,
    userLessonProgress (updateLessonProgress 1000 "u1" "lA" 40 Example.course_db).2
      !! ("u1", "lA") = Some row ∧
    UserLessonProgress.progressPercent row = 40 ∧
    (40 = 100 → UserLessonProgress.completedAt row = Some 1000) ∧
    (40 ≠ 100 → UserLessonProgress.completedAt row =
       userLessonProgress Example.course_db !! ("u1", "lA")
         ≫= UserLessonProgress.completedAt) ∧
    (is_Some (UserLessonProgress.completedAt row) ↔
       40 = 100 ∨ is_Some (userLessonProgress Example.course_db !! ("u1", "lA")
                             ≫= UserLessonProgress.completedAt)).
Proof.
  apply (updateLessonProgress_stores 1000 "u1" "lA" 40 Example.course_db Example.lessonA).
  - lia.
  - vm_compute. reflexivity.
Defined.

(** The claim C2 as first stated fails on a regression: lesson A was set to
    100 at time 1000 and is set to 50 at time 2000; the row then holds 50 and
    still carries the completion time 1000. *)
Lemma updateLessonProgress_regression_keeps_completedAt :
  userLessonProgress (updateLessonProgress 2000 "u1" "lA" 50 Example.completed_db).2
    !! ("u1", "lA")
  = Some {| UserLessonProgress.progressPercent := 50;
            UserLessonProgress.completedAt := Some 1000 |}
  ∧ ¬ (∀ row,
        userLessonProgress (updateLessonProgress 2000 "u1" "lA" 50 Example.completed_db).2
          !! ("u1", "lA") = Some row →
        (is_Some (UserLessonProgress.completedAt row) ↔ 50 = 100)).
Proof.
  assert (userLessonProgress
            (updateLessonProgress 2000 "u1" "lA" 50 Example.completed_db).2
            !! ("u1", "lA")
          = Some {| UserLessonProgress.progressPercent := 50;
                    UserLessonProgress.completedAt := Some 1000 |}) as Hrow
    by (vm_compute; reflexivity).
  split; [exact Hrow|].
  intros H. destruct (H _ Hrow) as [H1 _]. cbn in H1.
  specialize (H1 (mk_is_Some _ _ eq_refl)). lia.
Qed.

Lemma updateLessonProgress_out_of_range_witness :
  updateLessonProgress 1000 "u1" "lA" 101 Example.completed_db
  = (Rejected ProgressOutOfRange, Example.completed_db).
Proof.
  apply (updateLessonProgress_out_of_range 1000 "u1" "lA" 101 Example.completed_db).
  right. lia.
Defined.

(** *** Assignment submission *)

Lemma score_range_check score maxScore :
  (score <? 0) || (score >? maxScore) = false ↔ 0 ≤ score ≤ maxScore.
Proof. rewrite orb_false_iff, Z.ltb_ge, Z.gtb_ltb, Z.ltb_ge. lia. Qed.

(** [submitAssignment] by cases.  The answers the row is left with are
    those submitted and, when none are, those it had. *)
Lemma submitAssignment_cases schema now userId assignmentId answers score db :
  submitAssignment schema now userId assignmentId answers score db =
    match assignments db !! assignmentId with
    | None => (Rejected AssignmentNotFound, db)
    | Some assignment =>
        if (score <? 0) || (score >? Assignment.maxScore assignment)
        then (Rejected (ScoreOutOfRange (Assignment.maxScore assignment)), db)
        else if match answers with
                | None => answers_required schema
                | Some _ => false
                end
        then (Rejected (MissingArgument "answers"), db)
        else
          let row := {| UserAssignment.score := score;
                        UserAssignment.answers :=
                          match answers with
                          | Some _ => answers
                          | None => userAssignments db !! (userId, assignmentId)
                                      ≫= UserAssignment.answers
                          end;
                        UserAssignment.completedAt := Some now |} in
          let db1 := set_userAssignments (insert (userId, assignmentId) row) db in
          match lessons db !! Assignment.lessonId assignment with
          | None => (Resolved row, db1)
          | Some _ =>
              let r := updateLessonProgress now userId (Assignment.lessonId assignment)
                         100 db1 in
              (match r.1 with
               | Resolved _ => Resolved row
               | Rejected e => Rejected e
               end, r.2)
          end
    end.
Proof.
  unfold submitAssignment, assignment_findUnique. async_simpl.
  destruct (assignments db !! assignmentId) as [asg|]; [|done]. cbn.
  destruct ((score <? 0) || (score >? Assignment.maxScore asg)); [done|].
  destruct answers as [a|]; [|destruct (answers_required schema); [done|]];
    unfold Prisma.upsert, set_userAssignments; cbn;
    (destruct (userAssignments db !! (userId, assignmentId)) as [old|]; cbn;
     (destruct (lessons db !! Assignment.lessonId asg) as [lesson|]; cbn; [|done];
      by destruct (updateLessonProgress now userId _ 100 _) as [[row|e] db2])).
Qed.

(** [submitAssignment] leaves the catalogue, the users and the codes alone. *)
Lemma submitAssignment_frame schema now userId assignmentId answers score db :
  let db' := (submitAssignment schema now userId assignmentId answers score db).2 in
  users db' = users db ∧ otpCodes db' = otpCodes db ∧ courses db' = courses db ∧
  lessons db' = lessons db ∧ assignments db' = assignments db.
Proof.
  intros db'. subst db'. rewrite submitAssignment_cases.
  destruct (assignments db !! assignmentId) as [asg|]; [|done].
  destruct ((score <? 0) || (score >? Assignment.maxScore asg)); [done|].
  destruct (match answers with None => _ | Some _ => _ end); [done|]. cbn zeta.
  destruct (lessons db !! Assignment.lessonId asg) as [lesson|]; [|done]. cbn [snd].
  match goal with
  | |- context [updateLessonProgress ?n ?u ?l ?q ?d] =>
      by destruct (updateLessonProgress_frame n u l q d) as (? & ? & ? & ? & ? & ?)
  end.
Qed.

(** The two rows an accepted submission writes: a submission with answers,
    or one without when the column is optional. *)
Lemma submitAssignment_tables schema now userId assignmentId answers score db asg :
  assignments db !! assignmentId = Some asg →
  0 ≤ score ≤ Assignment.maxScore asg →
  (answers = None → answers_required schema = false) →
  let db' := (submitAssignment schema now userId assignmentId answers score db).2 in
  userAssignments db' =
    <[(userId, assignmentId) :=
        {| UserAssignment.score := score;
           UserAssignment.answers :=
             match answers with
             | Some _ => answers
             | None => userAssignments db !! (userId, assignmentId)
                         ≫= UserAssignment.answers
             end;
           UserAssignment.completedAt := Some now |}]> (userAssignments db) ∧
  (is_Some (lessons db !! Assignment.lessonId asg) →
   userLessonProgress db' =
     <[(userId, Assignment.lessonId asg) :=
         {| UserLessonProgress.progressPercent := 100;
            UserLessonProgress.completedAt := Some now |}]> (userLessonProgress db)).
Proof.
  intros Ha Hs Hopt db'. subst db'. rewrite submitAssignment_cases, Ha.
  apply score_range_check in Hs. rewrite Hs.
  assert (match answers with None => answers_required schema | Some _ => false end
          = false) as -> by (destruct answers; [done|by apply Hopt]).
  cbn zeta.
  destruct (lessons db !! Assignment.lessonId asg) as [lesson|] eqn:Hl; cbn [snd].
  - match goal with
    | |- context [updateLessonProgress ?n ?u ?l ?q ?d] =>
        destruct (updateLessonProgress_frame n u l q d) as (_ & _ & _ & _ & _ & Hua);
        pose proof (updateLessonProgress_table n u l q d lesson) as Ht
    end.
    split; [by rewrite Hua|]. intros _. rewrite Ht; [|lia|done]. done.
  - split; [done|by intros [? ?]].
Qed.



(** With the catalogue consistent (the lesson of the assignment, if stored,
    has its course stored), an accepted in-range submission resolves with the
    row it wrote. *)
Lemma submitAssignment_resolves schema now userId assignmentId answers score db asg :
  assignments db !! assignmentId = Some asg →
  0 ≤ score ≤ Assignment.maxScore asg →
  (answers = None → answers_required schema = false) →
  (∀ lesson, lessons db !! Assignment.lessonId asg = Some lesson →
             is_Some (courses db !! Lesson.courseId lesson)) →
  (submitAssignment schema now userId assignmentId answers score db).1 =
    Resolved {| UserAssignment.score := score;
                UserAssignment.answers :=
                  match answers with
                  | Some _ => answers
                  | None => userAssignments db !! (userId, assignmentId)
                              ≫= UserAssignment.answers
                  end;
                UserAssignment.completedAt := Some now |}.
Proof.
  intros Ha Hs Hopt Hfk. rewrite submitAssignment_cases, Ha.
  apply score_range_check in Hs. rewrite Hs.
  assert (match answers with None => answers_required schema | Some _ => false end
          = false) as -> by (destruct answers; [done|by apply Hopt]).
  cbn zeta.
  destruct (lessons db !! Assignment.lessonId asg) as [lesson|] eqn:Hl; [|done].
  cbn [fst].
  match goal with
  | |- context [updateLessonProgress ?n ?u ?l ?q ?d] =>
      destruct (updateLessonProgress_resolves n u l q d lesson) as [row Hrow];
      [lia | done | by apply Hfk |]
  end.
  by rewrite Hrow.
Qed.

(** C10.  A user submits an assignment twice, both scores in range, the
    first time with answers.  A second submission with answers is accepted,
    and the stored row then carries the answers and the score of the second
    submission (also when that score is the lower one) with [completedAt]
    the time of the second call.  A second submission without answers does
    not replace the answers: when the answers column is optional it is
    accepted and the row carries the score and the time of the second
    submission with the answers of the first; when the column is required it
    is refused and the row stays as the first submission left it. *)
Theorem submitAssignment_resubmission
    schema now1 now2 userId assignmentId answers1 answers2 score1 score2 db asg :
  assignments db !! assignmentId = Some asg →
  0 ≤ score1 ≤ Assignment.maxScore asg →
  0 ≤ score2 ≤ Assignment.maxScore asg →
  (∀ lesson, lessons db !! Assignment.lessonId asg = Some lesson →
             is_Some (courses db !! Lesson.courseId lesson)) →
  let first :=
    submitAssignment schema now1 userId assignmentId (Some answers1) score1 db in
  let second :=
    submitAssignment schema now2 userId assignmentId (Some answers2) score2 first.2 in
  let bare := submitAssignment schema now2 userId assignmentId None score2 first.2 in
  userAssignments first.2 !! (userId, assignmentId) =
    Some {| UserAssignment.score := score1; UserAssignment.answers := Some answers1;
            UserAssignment.completedAt := Some now1 |} ∧
  second.1 =
    Resolved {| UserAssignment.score := score2; UserAssignment.answers := Some answers2;
                UserAssignment.completedAt := Some now2 |} ∧
  userAssignments second.2 !! (userId, assignmentId) =
    Some {| UserAssignment.score := score2; UserAssignment.answers := Some answers2;
            UserAssignment.completedAt := Some now2 |} ∧
  (answers_required schema = false →
   bare.1 =
     Resolved {| UserAssignment.score := score2; UserAssignment.answers := Some answers1;
                 UserAssignment.completedAt := Some now2 |} ∧
   userAssignments bare.2 !! (userId, assignmentId) =
     Some {| UserAssignment.score := score2; UserAssignment.answers := Some answers1;
             UserAssignment.completedAt := Some now2 |}) ∧
  (answers_required schema = true →
   bare = (Rejected (MissingArgument "answers"), first.2)).
Proof.
  intros Ha Hs1 Hs2 Hfk first second bare.
  destruct (submitAssignment_frame schema now1 userId assignmentId (Some answers1) score1 db)
    as (_ & _ & Hc & Hl & Has).
  fold first in Hc, Hl, Has.
  assert (assignments first.2 !! assignmentId = Some asg) as Ha' by by rewrite Has.
  assert (userAssignments first.2 !! (userId, assignmentId) =
            Some {| UserAssignment.score := score1; UserAssignment.answers := Some answers1;
                    UserAssignment.completedAt := Some now1 |}) as Hfirst.
  { destruct (submitAssignment_tables schema now1 userId assignmentId (Some answers1)
                score1 db asg Ha Hs1) as [Hua _]; [done|].
    fold first in Hua. rewrite Hua. apply lookup_insert_eq. }
  assert (∀ lesson, lessons first.2 !! Assignment.lessonId asg = Some lesson →
                    is_Some (courses first.2 !! Lesson.courseId lesson)) as Hfk'.
  { intros lesson. rewrite Hl, Hc. apply Hfk. }
  split; [done|]. split; [|split; [|split]].
  - by apply (submitAssignment_resolves schema now2 userId assignmentId (Some answers2)
                score2 first.2 asg Ha' Hs2).
  - destruct (submitAssignment_tables schema now2 userId assignmentId (Some answers2)
                score2 first.2 asg Ha' Hs2) as [Hua _]; [done|].
    fold second in Hua. rewrite Hua. apply lookup_insert_eq.
  - intros Hopt. split.
    + subst bare.
      rewrite (submitAssignment_resolves schema now2 userId assignmentId None
                 score2 first.2 asg Ha' Hs2) by done.
      by rewrite Hfirst.
    + destruct (submitAssignment_tables schema now2 userId assignmentId None
                  score2 first.2 asg Ha' Hs2) as [Hua _]; [done|].
      fold bare in Hua. by rewrite Hua, lookup_insert_eq, Hfirst.
  - intros Hreq. subst bare. rewrite submitAssignment_cases, Ha', Hreq.
    apply score_range_check in Hs2. by rewrite Hs2.
Qed.

(** A score of 90 replaced by a later score of 20, answers included. *)
Lemma submitAssignment_resubmission_witness :
  let first :=
    submitAssignment Example.answers_json 3000 "u1" "qA" (Some "{q1:1}") 90
      Example.course_db in
  let second :=
    submitAssignment Example.answers_json 4000 "u1" "qA" (Some "{q1:2}") 20 first.2 in
  userAssignments first.2 !! ("u1", "qA") =
    Some {| UserAssignment.score := 90; UserAssignment.answers := Some "{q1:1}";
            UserAssignment.completedAt := Some 3000 |} ∧
  second.1 =
    Resolved {| UserAssignment.score := 20; UserAssignment.answers := Some "{q1:2}";
                UserAssignment.completedAt := Some 4000 |} ∧
  userAssignments second.2 !! ("u1", "qA") =
    Some {| UserAssignment.score := 20; UserAssignment.answers := Some "{q1:2}";
            UserAssignment.completedAt := Some 4000 |}.
Proof.
  destruct (submitAssignment_resubmission Example.answers_json 3000 4000 "u1" "qA"
              "{q1:1}" "{q1:2}" 90 20 Example.course_db Example.quizA)
    as (Hfirst & Hsecond & Hstored & _).
  - vm_compute. reflexivity.
  - cbn. lia.
  - cbn. lia.
  - intros lesson Hl. vm_compute in Hl. injection Hl as <-.
    exists {| Course.title := "Course"; Course.order := 1; Course.isActive := true |}.
    vm_compute. reflexivity.
  - split; [exact Hfirst|]. split; [exact Hsecond|exact Hstored].
Defined.

(** The claim as it stands fails for a resubmission without answers, which
    the route admits: after a first submission with answers and the score 90,
    a second one with the score 20 and no answers is refused when the answers
    column is required, and when it is optional the row keeps the answers of
    the first submission. *)
Lemma submitAssignment_resubmission_keeps_answers :
  (let first :=
     submitAssignment Example.answers_json 3000 "u1" "qA" (Some "{q1:1}") 90
       Example.course_db in
   let second := submitAssignment Example.answers_json 4000 "u1" "qA" None 20 first.2 in
   second.1 = Rejected (MissingArgument "answers") ∧
   userAssignments second.2 !! ("u1", "qA") =
     Some {| UserAssignment.score := 90; UserAssignment.answers := Some "{q1:1}";
             UserAssignment.completedAt := Some 3000 |}) ∧
  (let first :=
     submitAssignment Example.answers_json_opt 3000 "u1" "qA" (Some "{q1:1}") 90
       Example.course_db in
   let second := submitAssignment Example.answers_json_opt 4000 "u1" "qA" None 20 first.2 in
   second.1 =
     Resolved {| UserAssignment.score := 20; UserAssignment.answers := Some "{q1:1}";
                 UserAssignment.completedAt := Some 4000 |} ∧
   userAssignments second.2 !! ("u1", "qA") =
     Some {| UserAssignment.score := 20; UserAssignment.answers := Some "{q1:1}";
             UserAssignment.completedAt := Some 4000 |}).
Proof. split; split; vm_compute; reflexivity. Qed.

(** *** The course rollup *)

Lemma reduce_sum_acc {A} (f : A → Z) (xs : list A) (acc : Z) :
  fold_left (λ sum x, sum + f x) xs acc = acc + Spec.Zsum (f <$> xs).
Proof.
  revert acc. induction xs as [|x xs IH]; intros acc; cbn.
  - lia.
  - rewrite IH. unfold Spec.Zsum. lia.
Qed.

Lemma reduce_sum_Zsum {A} (f : A → Z) (xs : list A) :
  JS.reduce_sum f xs = Spec.Zsum (f <$> xs).
Proof. unfold JS.reduce_sum. rewrite reduce_sum_acc. lia. Qed.

Lemma Zsum_Permutation (xs ys : list Z) : xs ≡ₚ ys → Spec.Zsum xs = Spec.Zsum ys.
Proof.
  unfold Spec.Zsum.
  induction 1 as [|x xs ys _ IH|x y xs|xs ys zs _ IH1 _ IH2]; cbn; lia.
Qed.

(** Pointwise change of the summand at one lesson of a duplicate-free list. *)
Lemma Zsum_update (g g' : string → Z) (l0 : string) (ids : list string) :
  NoDup ids →
  (∀ l, l ≠ l0 → g' l = g l) →
  Spec.Zsum (g' <$> ids) =
    Spec.Zsum (g <$> ids) + (if decide (l0 ∈ ids) then g' l0 - g l0 else 0).
Proof.
  intros Hnd Hg. unfold Spec.Zsum.
  induction Hnd as [|l ids Hl Hnd IH]; cbn.
  - done.
  - rewrite IH. destruct (decide (l = l0)) as [->|Hne].
    + destruct (decide (l0 ∈ l0 :: ids)) as [_|[]]; [|by constructor].
      destruct (decide (l0 ∈ ids)); [done|lia].
    + rewrite (Hg l Hne).
      destruct (decide (l0 ∈ ids)) as [Hin|Hnin], (decide (l0 ∈ l :: ids)) as [Hin'|Hnin'];
        try lia.
      * destruct Hnin'. by constructor.
      * apply elem_of_cons in Hin' as [->|?]; done.
Qed.

(** The sum the code takes over the progress rows it finds equals the sum
    over the lessons, a lesson without a row counting 0. *)
Lemma findMany_sum (table : gmap (string * string) UserLessonProgress.t)
    userId (ids : list string) :
  NoDup ids →
  JS.reduce_sum (λ lp, UserLessonProgress.progressPercent lp.2)
    (Prisma.findMany (λ r, r.1.1 = userId ∧ r.1.2 ∈ ids) table)
  = Spec.Zsum ((λ l, match table !! (userId, l) with
                     | Some row => UserLessonProgress.progressPercent row
                     | None => 0
                     end) <$> ids).
Proof.
  intros Hnd. rewrite reduce_sum_Zsum. unfold Prisma.findMany.
  induction table as [|[u l0] row table Hnone IH] using map_ind.
  - rewrite map_to_list_empty, filter_nil. cbn. unfold Spec.Zsum. clear Hnd.
    induction ids as [|l ids IHids]; cbn; [done|].
    by rewrite lookup_empty, <-IHids.
  - rewrite (Zsum_Permutation _ _
      (fmap_Permutation _ _ _ (filter_Permutation _ _ _ (map_to_list_insert _ _ row Hnone)))).
    destruct (decide (u = userId)) as [->|Hu].
    + rewrite (Zsum_update
        (λ l, match table !! (userId, l) with
              | Some r => UserLessonProgress.progressPercent r | None => 0 end)
        _ l0 ids Hnd).
      2:{ intros l Hl. rewrite lookup_insert_ne; [done|congruence]. }
      rewrite lookup_insert_eq, Hnone, <-IH.
      destruct (decide (l0 ∈ ids)) as [Hin|Hnin].
      * rewrite filter_cons_True by (split; [done|exact Hin]).
        unfold Spec.Zsum. cbn. lia.
      * rewrite filter_cons_False; [lia|]. cbn. tauto.
    + rewrite filter_cons_False by (cbn; tauto). rewrite IH.
      f_equal. apply list_fmap_ext. intros _ l _.
      rewrite lookup_insert_ne; [done|congruence].
Qed.

(** The lessons [updateCourseProgress] reads are the active lessons of the
    course. *)
Lemma active_lessons_query db courseId :
  Spec.active_lessons db courseId = (course_lessons courseId db).*1.
Proof. reflexivity. Qed.

Lemma active_lessons_NoDup db courseId : NoDup (Spec.active_lessons db courseId).
Proof.
  unfold Spec.active_lessons.
  eapply sublist_NoDup; [apply (NoDup_fst_map_to_list (lessons db))|].
  apply fmap_sublist, sublist_filter.
Qed.

(** The rollup reads the lesson table and the lesson progress table only. *)
Lemma course_percent_ext db db' userId courseId :
  lessons db' = lessons db →
  userLessonProgress db' = userLessonProgress db →
  Spec.course_percent db' userId courseId = Spec.course_percent db userId courseId.
Proof.
  intros Hl Hp.
  unfold Spec.course_percent, Spec.active_lessons, Spec.lesson_percent.
  by rewrite Hl, Hp.
Qed.

(** For a stored course with an active lesson, [updateCourseProgress] stores
    the rollup of the store it runs on. *)
Lemma updateCourseProgress_row now userId courseId db :
  is_Some (courses db !! courseId) →
  Spec.active_lessons db courseId ≠ [] →
  let r := updateCourseProgress now userId courseId db in
  r.1 = Resolved () ∧
  ∃ row, userCourseProgress r.2 !! (userId, courseId) = Some row ∧
         UserCourseProgress.progressPercent row = Spec.course_percent db userId courseId.
Proof.
  intros [c Hc] Hne. unfold updateCourseProgress. async_simpl. rewrite Hc. cbn.
  destruct (course_lessons courseId db) as [|l1 ls] eqn:Hls.
  { by rewrite active_lessons_query, Hls in Hne. }
  cbn [length Nat.eqb]. cbn -[Prisma.findMany]. split; [done|].
  unfold Prisma.upsert. cbn -[Prisma.findMany]. rewrite lookup_insert_eq.
  eexists; split; [done|].
  assert (JS.Math_round_div
            (JS.reduce_sum (λ lp, UserLessonProgress.progressPercent lp.2)
               (Prisma.findMany (λ r, r.1.1 = userId ∧ r.1.2 ∈ (l1 :: ls).*1)
                  (userLessonProgress db)))
            (Z.of_nat (length (l1 :: ls)))
          = Spec.course_percent db userId courseId) as <-.
  { unfold Spec.course_percent.
    pose proof (active_lessons_NoDup db courseId) as Hnd.
    rewrite !active_lessons_query. rewrite active_lessons_query in Hnd.
    rewrite Hls in *.
    rewrite (findMany_sum _ _ _ Hnd), length_fmap. done. }
  by destruct (userCourseProgress db !! (userId, courseId)).
Qed.

(** C1, the general statement.  For a lesson of a stored course that has at
    least one active lesson, after [updateLessonProgress] the course
    progress row of the user holds round(sum / count), the sum taken over
    the active lessons of the course in the store after the call (0 for a
    lesson without a progress row) and the count that of all its active
    lessons. *)
Lemma updateLessonProgress_course_row now userId lessonId p db lesson :
  0 ≤ p ≤ 100 →
  lessons db !! lessonId = Some lesson →
  is_Some (courses db !! Lesson.courseId lesson) →
  Spec.active_lessons db (Lesson.courseId lesson) ≠ [] →
  let db' := (updateLessonProgress now userId lessonId p db).2 in
  ∃ row, userCourseProgress db' !! (userId, Lesson.courseId lesson) = Some row ∧
         UserCourseProgress.progressPercent row =
           Spec.course_percent db' userId (Lesson.courseId lesson).
Proof.
  intros Hp Hl Hc Hne. unfold updateLessonProgress.
  apply progress_range_check in Hp. rewrite Hp. async_simpl. rewrite Hl.
  unfold Prisma.upsert. cbn.
  match goal with
  | |- context [updateCourseProgress ?n ?u ?c ?d] =>
      destruct (updateCourseProgress_frame n u c d) as [f Hf];
      destruct (updateCourseProgress_row n u c d) as [_ (row & Hrow & Hpct)];
      [done | done |];
      destruct (updateCourseProgress n u c d) as [[[]|e] db2]
  end; cbn in *; (exists row; split; [done|]; rewrite Hpct; symmetry;
    apply course_percent_ext; by subst db2).
Qed.

(** *** k of n lessons completed *)

Lemma active_lessons_elem db courseId l :
  l ∈ Spec.active_lessons db courseId ↔
  ∃ lesson, lessons db !! l = Some lesson ∧
            Lesson.courseId lesson = courseId ∧ Lesson.isActive lesson = true.
Proof.
  unfold Spec.active_lessons.
  rewrite list_elem_of_fmap. split.
  - intros ([l' lesson] & -> & [[Hc Ha] Hin%elem_of_map_to_list]%list_elem_of_filter).
    by exists lesson.
  - intros (lesson & Hl & Hc & Ha). exists (l, lesson). split; [done|].
    apply list_elem_of_filter. split; [done|]. by apply elem_of_map_to_list.
Qed.

Lemma active_lessons_ext db db' courseId :
  lessons db' = lessons db →
  Spec.active_lessons db' courseId = Spec.active_lessons db courseId.
Proof. intros Hl. unfold Spec.active_lessons. by rewrite Hl. Qed.

Lemma complete_lessons_frame userId calls db :
  lessons (Client.complete_lessons userId calls db) = lessons db ∧
  courses (Client.complete_lessons userId calls db) = courses db.
Proof.
  revert db. induction calls as [|[now l] calls IH]; intros db; cbn; [done|].
  destruct (IH (updateLessonProgress now userId l 100 db).2) as [-> ->].
  by destruct (updateLessonProgress_frame now userId l 100 db) as (_ & _ & -> & -> & _).
Qed.

Lemma complete_lessons_snoc userId calls now l db :
  Client.complete_lessons userId (calls ++ [(now, l)]) db =
  (updateLessonProgress now userId l 100 (Client.complete_lessons userId calls db)).2.
Proof.
  revert db. induction calls as [|[now' l'] calls IH]; intros db; cbn; [done|].
  apply IH.
Qed.

(** After the calls, a lesson named in one of them stands at 100 and any
    other lesson is as it was. *)
Lemma complete_lessons_percent userId calls db l' :
  (∀ l, l ∈ calls.*2 → is_Some (lessons db !! l)) →
  Spec.lesson_percent (Client.complete_lessons userId calls db) userId l' =
    if decide (l' ∈ calls.*2) then 100 else Spec.lesson_percent db userId l'.
Proof.
  revert db. induction calls as [|[now l] calls IH]; intros db Hex; cbn.
  - by rewrite decide_False by by intros ?%elem_of_nil.
  - destruct (Hex l) as [lesson Hl]; [by constructor|].
    rewrite IH.
    2:{ intros l2 Hl2.
        destruct (updateLessonProgress_frame now userId l 100 db) as (_ & _ & _ & -> & _).
        apply Hex. by constructor. }
    unfold Spec.lesson_percent at 1.
    rewrite (updateLessonProgress_table now userId l 100 db lesson) by (done || lia).
    destruct (decide (l' ∈ calls.*2)) as [Hin|Hnin].
    + rewrite decide_True; [done|]. by constructor.
    + destruct (decide (l' = l)) as [->|Hne].
      * rewrite lookup_insert_eq. cbn. rewrite decide_True; [done|]. by constructor.
      * rewrite lookup_insert_ne by congruence.
        rewrite decide_False; [done|]. by intros [?|?]%elem_of_cons.
Qed.

Lemma Zsum_indicator (ls ids : list string) :
  NoDup ids → NoDup ls → (∀ l, l ∈ ls → l ∈ ids) →
  Spec.Zsum ((λ l, if decide (l ∈ ls) then 100 else 0) <$> ids)
  = 100 * Z.of_nat (length ls).
Proof.
  intros Hids Hls Hsub.
  assert (filter (.∈ ls) ids ≡ₚ ls) as <-.
  { apply NoDup_Permutation; [by apply NoDup_filter | done |].
    intros l. rewrite list_elem_of_filter. split; [tauto|]. intros ?. split; auto. }
  clear. unfold Spec.Zsum. induction ids as [|l ids IH]; [done|].
  rewrite fmap_cons. cbn [foldr]. rewrite IH. destruct (decide (l ∈ ls)).
  - rewrite filter_cons_True by done. cbn [length]. lia.
  - rewrite filter_cons_False by done. lia.
Qed.

(** C1, the particular case.  The user has no progress row on the active
    lessons of a course other than, possibly, the [k] lessons named in the
    calls; once these [k] distinct active lessons are set to 100, the course
    progress row holds round(100 * k / n), [n] the number of active lessons. *)
Lemma complete_lessons_course_row userId courseId calls db :
  is_Some (courses db !! courseId) →
  calls ≠ [] →
  NoDup calls.*2 →
  (∀ l, l ∈ calls.*2 → l ∈ Spec.active_lessons db courseId) →
  (∀ l, l ∈ Spec.active_lessons db courseId → l ∉ calls.*2 →
        userLessonProgress db !! (userId, l) = None) →
  ∃ row,
    userCourseProgress (Client.complete_lessons userId calls db) !! (userId, courseId)
      = Some row ∧
    UserCourseProgress.progressPercent row =
      JS.Math_round_div (100 * Z.of_nat (length calls))
        (Z.of_nat (length (Spec.active_lessons db courseId))).
Proof.
  intros Hc Hne Hnd Hact Hrest.
  assert (∀ l, l ∈ calls.*2 → is_Some (lessons db !! l)) as Hex.
  { intros l Hl. apply Hact, active_lessons_elem in Hl as (lesson & -> & _). by eexists. }
  destruct (exists_last Hne) as (calls0 & [now l] & Hcalls).
  assert (l ∈ calls.*2) as Hl by (rewrite Hcalls, fmap_app; set_solver).
  destruct (proj1 (active_lessons_elem _ _ _) (Hact l Hl)) as (lesson & Hlesson & <- & _).
  set (mid := Client.complete_lessons userId calls0 db).
  destruct (complete_lessons_frame userId calls0 db) as [Hml Hmc]. fold mid in Hml, Hmc.
  destruct (updateLessonProgress_course_row now userId l 100 mid lesson)
    as (row & Hrow & Hpct).
  { lia. } { by rewrite Hml. } { by rewrite Hmc. }
  { rewrite (active_lessons_ext _ _ _ Hml). intros Hnil.
    specialize (Hact l Hl). rewrite Hnil in Hact. by apply elem_of_nil in Hact. }
  subst mid. rewrite <-complete_lessons_snoc, <-Hcalls in Hrow, Hpct.
  exists row. split; [done|]. rewrite Hpct. unfold Spec.course_percent.
  rewrite (active_lessons_ext db _ _ (proj1 (complete_lessons_frame userId calls db))).
  rewrite <-(length_fmap snd calls).
  rewrite <-(Zsum_indicator calls.*2 (Spec.active_lessons db (Lesson.courseId lesson)))
    by (apply active_lessons_NoDup || done).
  do 2 f_equal. apply list_fmap_ext. intros _ l' Hl'%list_elem_of_lookup_2.
  rewrite (complete_lessons_percent _ _ _ _ Hex).
  destruct (decide (l' ∈ calls.*2)) as [|Hnin]; [done|].
  unfold Spec.lesson_percent. by rewrite (Hrest l' Hl' Hnin).
Qed.

(** Any duplicate-free list of the lessons that count for a course is the
    list of its active lessons up to order. *)
Lemma counts_for_Permutation db courseId ids :
  NoDup ids →
  (∀ l, l ∈ ids ↔ Spec.counts_for db courseId l) →
  ids ≡ₚ Spec.active_lessons db courseId.
Proof.
  intros Hnd Hids. apply NoDup_Permutation; [done|apply active_lessons_NoDup|].
  intros l. by rewrite Hids, active_lessons_elem.
Qed.

(** C1. (a) For every user and every lesson of a stored course with at least
    one active lesson, after [updateLessonProgress] the stored course
    progress equals round(sum of the user's lesson percents over the active
    lessons of the course / count of all its active lessons), a lesson
    without a progress row contributing 0.  The active lessons are given as
    any list [ids] without repetition of the stored lessons of the course
    with [isActive] set; lessons of the course with [isActive] unset count
    neither in the sum nor in the divisor.  (b) In particular, after [k]
    distinct active lessons out of [n] are set to 100 and the rest have no
    row, the course progress equals round(100 * k / n). *)
Theorem course_progress_is_rounded_mean :
  (∀ now userId lessonId p db lesson ids,
     0 ≤ p ≤ 100 →
     lessons db !! lessonId = Some lesson →
     is_Some (courses db !! Lesson.courseId lesson) →
     NoDup ids →
     (∀ l, l ∈ ids ↔
           ∃ lesson', lessons db !! l = Some lesson' ∧
                      Lesson.courseId lesson' = Lesson.courseId lesson ∧
                      Lesson.isActive lesson' = true) →
     ids ≠ [] →
     let db' := (updateLessonProgress now userId lessonId p db).2 in
     ∃ row, userCourseProgress db' !! (userId, Lesson.courseId lesson) = Some row ∧
            UserCourseProgress.progressPercent row =
              JS.Math_round_div
                (Spec.Zsum (Spec.lesson_percent db' userId <$> ids))
                (Z.of_nat (length ids))) ∧
  (∀ userId courseId calls db ids,
     is_Some (courses db !! courseId) →
     NoDup ids →
     (∀ l, l ∈ ids ↔
           ∃ lesson', lessons db !! l = Some lesson' ∧
                      Lesson.courseId lesson' = courseId ∧
                      Lesson.isActive lesson' = true) →
     calls ≠ [] →
     NoDup calls.*2 →
     (∀ l, l ∈ calls.*2 → l ∈ ids) →
     (∀ l, l ∈ ids → l ∉ calls.*2 → userLessonProgress db !! (userId, l) = None) →
     ∃ row,
       userCourseProgress (Client.complete_lessons userId calls db) !! (userId, courseId)
         = Some row ∧
       UserCourseProgress.progressPercent row =
         JS.Math_round_div (100 * Z.of_nat (length calls)) (Z.of_nat (length ids))).
Proof.
  split.
  - intros now userId lessonId p db lesson ids Hp Hl Hc Hnd Hids Hne db'.
    pose proof (counts_for_Permutation db _ ids Hnd Hids) as Hperm.
    destruct (updateLessonProgress_course_row now userId lessonId p db lesson)
      as (row & Hrow & Hpct); [done..| |].
    { intros Hnil. rewrite Hnil in Hperm. by apply Permutation_nil_r in Hperm. }
    fold db' in Hrow, Hpct.
    exists row. split; [done|]. rewrite Hpct. unfold Spec.course_percent.
    assert (Spec.active_lessons db' (Lesson.courseId lesson) ≡ₚ ids) as Hperm'.
    { rewrite Hperm. apply reflexive_eq, active_lessons_ext. subst db'.
      by destruct (updateLessonProgress_frame now userId lessonId p db)
        as (_ & _ & _ & -> & _). }
    f_equal.
    + apply Zsum_Permutation. by rewrite Hperm'.
    + by rewrite Hperm'.
  - intros userId courseId calls db ids Hc Hnd Hids Hne Hcalls Hin Hrest.
    pose proof (counts_for_Permutation db _ ids Hnd Hids) as Hperm.
    destruct (complete_lessons_course_row userId courseId calls db)
      as (row & Hrow & Hpct); [done..| | |].
    { intros l Hl. rewrite <-Hperm. by apply Hin. }
    { intros l Hl. rewrite <-Hperm in Hl. by apply Hrest. }
    exists row. split; [done|]. by rewrite Hpct, Hperm.
Qed.

(** Three active lessons and an inactive one in the course: one active
    lesson at 40 gives round(40 / 3) = 13, and two of the three at 100 give
    round(200 / 3) = 67; the inactive lesson is not counted. *)
Lemma course_progress_is_rounded_mean_witness :
  (∃ row,
     userCourseProgress (updateLessonProgress 1000 "u1" "lA" 40 Example.mixed_db).2
       !! ("u1", "c1") = Some row ∧
     UserCourseProgress.progressPercent row = 13) ∧
  (∃ row,
     userCourseProgress
       (Client.complete_lessons "u1" [(1000, "lA"); (2000, "lB")] Example.mixed_db)
       !! ("u1", "c1") = Some row ∧
     UserCourseProgress.progressPercent row = 67).
Proof.
  assert (∀ l, l ∈ ["lA"; "lB"; "lC"] ↔
               ∃ lesson', lessons Example.mixed_db !! l = Some lesson' ∧
                          Lesson.courseId lesson' = "c1" ∧
                          Lesson.isActive lesson' = true) as Hids.
  { intros l. split.
    - intros Hl. repeat (apply elem_of_cons in Hl as [->|Hl]).
      + by exists Example.lessonA.
      + by exists Example.lessonB.
      + by exists Example.lessonC.
      + by apply elem_of_nil in Hl.
    - intros (lesson' & Hl & _ & Hact). cbn in Hl.
      apply lookup_insert_Some in Hl as [[<- <-]|[_ Hl]]; [discriminate Hact|].
      apply lookup_insert_Some in Hl as [[<- <-]|[_ Hl]]; [set_solver|].
      apply lookup_insert_Some in Hl as [[<- <-]|[_ Hl]]; [set_solver|].
      apply lookup_singleton_Some in Hl as [<- <-]. set_solver. }
  assert (NoDup ["lA"; "lB"; "lC"]) as Hnd by compute_done.
  split.
  - destruct (proj1 course_progress_is_rounded_mean
                1000 "u1" "lA" 40 Example.mixed_db Example.lessonA ["lA"; "lB"; "lC"])
      as (row & Hrow & Hpct).
    + lia.
    + vm_compute. reflexivity.
    + eexists. vm_compute. reflexivity.
    + exact Hnd.
    + exact Hids.
    + discriminate.
    + exists row. split; [exact Hrow|]. rewrite Hpct. vm_compute. reflexivity.
  - destruct (proj2 course_progress_is_rounded_mean
                "u1" "c1" [(1000, "lA"); (2000, "lB")] Example.mixed_db ["lA"; "lB"; "lC"])
      as (row & Hrow & Hpct).
    + eexists. vm_compute. reflexivity.
    + exact Hnd.
    + exact Hids.
    + discriminate.
    + compute_done.
    + apply Forall_forall. compute_done.
    + intros l _ _. apply lookup_empty.
    + exists row. split; [exact Hrow|]. rewrite Hpct. vm_compute. reflexivity.
Defined.

End CourseProgress.

(** ** OTP verification *)

Section OtpVerification.

Import OtpService.

Implicit Types (db : Db) (now : Z) (params : VerifyParams) (otp : OtpCode.t).

Lemma newest_elem tie rows r : Prisma.newest tie rows = Some r → r ∈ rows.
Proof.
  revert r. induction rows as [|r0 rows IH]; intros r; cbn; [done|].
  destruct (Prisma.newest tie rows) as [r'|].
  - destruct (_ <? _); [|destruct (_ <? _); [|destruct (tie _ _)]];
      intros [= <-]; first [left | right; by apply IH].
  - intros [= <-]. left.
Qed.

Lemma newest_None tie rows : Prisma.newest tie rows = None → rows = [].
Proof.
  destruct rows as [|r0 rows]; cbn; [done|].
  destruct (Prisma.newest tie rows);
    [destruct (_ <? _); [|destruct (_ <? _); [|destruct (tie _ _)]]|]; done.
Qed.

Lemma newest_max tie rows r r' :
  Prisma.newest tie rows = Some r → r' ∈ rows →
  OtpCode.createdAt r'.2 ≤ OtpCode.createdAt r.2.
Proof.
  revert r. induction rows as [|r0 rows IH]; intros r; cbn; [by intros _ ?%elem_of_nil|].
  destruct (Prisma.newest tie rows) as [r1|] eqn:Hn.
  - destruct (Z.ltb_spec (OtpCode.createdAt r0.2) (OtpCode.createdAt r1.2));
      [|destruct (Z.ltb_spec (OtpCode.createdAt r1.2) (OtpCode.createdAt r0.2));
        [|destruct (tie r0.1 r1.1)]];
      intros [= <-] [->|Hin]%elem_of_cons; try lia;
      specialize (IH r1 eq_refl Hin); lia.
  - apply newest_None in Hn as ->. intros [= <-] [->|?%elem_of_nil]%elem_of_cons; [lia|done].
Qed.

(** The row [findFirst] returns is stored, matches the request and is unused. *)
Lemma otpCode_findFirst_Some tie params db id otp :
  otpCode_findFirst tie params db = Some (id, otp) →
  otpCodes db !! id = Some otp ∧ verify_where params (id, otp).
Proof.
  intros Hin%newest_elem. unfold Prisma.findMany in Hin.
  apply list_elem_of_filter in Hin as [Hw Hin]. by apply elem_of_map_to_list in Hin.
Qed.

(** It returns no row only if no stored row matches. *)
Lemma otpCode_findFirst_None tie params db id otp :
  otpCode_findFirst tie params db = None →
  otpCodes db !! id = Some otp → ¬ verify_where params (id, otp).
Proof.
  intros Hnil%newest_None Hl Hw. unfold Prisma.findMany in Hnil.
  eapply (filter_nil_not_elem_of _ _ (id, otp)) in Hnil; [|done].
  apply Hnil. by apply elem_of_map_to_list.
Qed.

(** No stored row that matches was created after the row it returns. *)
Lemma otpCode_findFirst_newest tie params db id otp id' otp' :
  otpCode_findFirst tie params db = Some (id, otp) →
  otpCodes db !! id' = Some otp' → verify_where params (id', otp') →
  OtpCode.createdAt otp' ≤ OtpCode.createdAt otp.
Proof.
  intros Hfind Hid' Hw.
  apply (newest_max tie _ (id, otp) (id', otp') Hfind).
  apply list_elem_of_filter. split; [done|]. by apply elem_of_map_to_list.
Qed.

(** [verifyOtp] by cases on the row found. *)
Lemma verifyOtp_cases tie now params db :
  verifyOtp tie now params db =
    match otpCode_findFirst tie params db with
    | None => (Resolved false, db)
    | Some (id, otp) =>
        if OtpCode.expiresAt otp <? now then (Resolved false, db)
        else (Resolved true, set_otpCodes (alter (OtpCode.set_usedAt now) id) db)
    end.
Proof.
  unfold verifyOtp. async_simpl. unfold JS.isBefore.
  destruct (otpCode_findFirst tie params db) as [[id otp]|]; [|done].
  by destruct (OtpCode.expiresAt otp <? now).
Qed.

(** [verifyOtp] accepts exactly when the code it selects has not expired
    before [now]. *)
Lemma verifyOtp_accepts_selected tie now params db :
  (verifyOtp tie now params db).1 = Resolved true ↔
  ∃ id otp, otpCode_findFirst tie params db = Some (id, otp) ∧
            OtpCode.usedAt otp = None ∧ now ≤ OtpCode.expiresAt otp.
Proof.
  rewrite verifyOtp_cases.
  destruct (otpCode_findFirst tie params db) as [[id otp]|] eqn:Hfind.
  - pose proof (otpCode_findFirst_Some tie _ _ _ _ Hfind) as [_ (_ & _ & _ & Hunused)].
    cbn in Hunused.
    destruct (Z.ltb_spec (OtpCode.expiresAt otp) now); cbn.
    + split; [done|]. intros (id' & otp' & [= <- <-] & _ & ?). lia.
    + split; [|done]. intros _. exists id, otp. split; [done|]. split; [done|lia].
  - cbn. split; [done|]. by intros (id' & otp' & ? & _).
Qed.

(** A stored code that is the only unused one of its user, purpose and value
    is the one [findFirst] selects, if it is unused, and none is selected
    otherwise. *)
Lemma verifyOtp_accepts_code tie now db id otp :
  otpCodes db !! id = Some otp →
  let params := {| verify_userId := OtpCode.userId otp;
                   verify_purpose := OtpCode.purpose otp;
                   verify_code := OtpCode.code otp |} in
  (∀ id' otp', otpCodes db !! id' = Some otp' → verify_where params (id', otp') → id' = id) →
  ((verifyOtp tie now params db).1 = Resolved true ↔
   OtpCode.usedAt otp = None ∧ now ≤ OtpCode.expiresAt otp).
Proof.
  intros Hid params Huniq. rewrite verifyOtp_accepts_selected. split.
  - intros (id' & otp' & Hfind & Hunused & Hexp).
    apply otpCode_findFirst_Some in Hfind as [Hid' Hw].
    pose proof (Huniq _ _ Hid' Hw) as ->. by simplify_eq.
  - intros [Hunused Hexp].
    destruct (otpCode_findFirst tie params db) as [[id' otp']|] eqn:Hfind.
    + pose proof (otpCode_findFirst_Some tie _ _ _ _ Hfind) as [Hid' Hw].
      pose proof (Huniq _ _ Hid' Hw) as ->. simplify_eq. by exists id, otp.
    + destruct (otpCode_findFirst_None tie _ _ _ _ Hfind Hid). by repeat split.
Qed.

(** C4 (as amended).  [verifyOtp] accepts exactly when the code it selects,
    the most recently created unused one of that user, purpose and value,
    has [now <= expiresAt]; so a stored code that is the only unused one of
    its user, purpose and value is accepted iff [usedAt] is unset and the
    current time is not after [expiresAt].  It fails once [now > expiresAt];
    at the boundary [now = expiresAt] it is still accepted.  This holds
    whichever code the database returns first among codes created at the
    same instant ([tie]). *)
Theorem verifyOtp_accepts_iff tie now db :
  (∀ params,
     (verifyOtp tie now params db).1 = Resolved true ↔
     ∃ id otp, otpCode_findFirst tie params db = Some (id, otp) ∧
               OtpCode.usedAt otp = None ∧ now ≤ OtpCode.expiresAt otp) ∧
  (∀ params id otp,
     otpCode_findFirst tie params db = Some (id, otp) →
     otpCodes db !! id = Some otp ∧ verify_where params (id, otp) ∧
     ∀ id' otp', otpCodes db !! id' = Some otp' → verify_where params (id', otp') →
                 OtpCode.createdAt otp' ≤ OtpCode.createdAt otp) ∧
  (∀ id otp,
     otpCodes db !! id = Some otp →
     let params := {| verify_userId := OtpCode.userId otp;
                      verify_purpose := OtpCode.purpose otp;
                      verify_code := OtpCode.code otp |} in
     (∀ id' otp', otpCodes db !! id' = Some otp' → verify_where params (id', otp') →
                  id' = id) →
     ((verifyOtp tie now params db).1 = Resolved true ↔
      OtpCode.usedAt otp = None ∧ now ≤ OtpCode.expiresAt otp)).
Proof.
  split; [|split].
  - intros params. apply verifyOtp_accepts_selected.
  - intros params id otp Hfind.
    destruct (otpCode_findFirst_Some tie _ _ _ _ Hfind) as [Hid Hw].
    split; [done|]. split; [done|]. intros id' otp'.
    apply (otpCode_findFirst_newest tie _ _ id otp id' otp' Hfind).
  - intros id otp. apply verifyOtp_accepts_code.
Qed.

Lemma verifyOtp_accepts_iff_witness :
  (verifyOtp Example.by_id 5000 Example.login_123456 Example.one_code_db).1 = Resolved true ↔
  OtpCode.usedAt (Example.otp 1000 601000) = None ∧
  5000 ≤ OtpCode.expiresAt (Example.otp 1000 601000).
Proof.
  apply (proj2 (proj2 (verifyOtp_accepts_iff Example.by_id 5000 Example.one_code_db))
           "o1" (Example.otp 1000 601000)).
  - vm_compute. reflexivity.
  - intros id' otp' Hl _. cbn in Hl. by apply lookup_singleton_Some in Hl as [<- _].
Defined.

(** The claim C4 as first stated fails at the boundary: the code expires at
    601000 and a verification at exactly 601000 accepts it. *)
Lemma verifyOtp_accepts_at_expiresAt :
  OtpCode.expiresAt (Example.otp 1000 601000) = 601000 ∧
  (verifyOtp Example.by_id 601000 Example.login_123456 Example.one_code_db).1 = Resolved true ∧
  ¬ (601000 < OtpCode.expiresAt (Example.otp 1000 601000)).
Proof. split; [done|]. split; [vm_compute; reflexivity|cbn; lia]. Qed.

(** C3 (as amended).  [verifyOtp] always resolves.  A failed verification
    leaves the store as it was.  A successful one marks exactly one stored
    code used, an unused code of the requested user, purpose and value, and
    changes nothing else; that code is never selected again, and a second
    verification with the same user, purpose and value fails whenever the
    store held at most one unused code with them (codes are not deduplicated
    on issue, so an unused twin would still verify).  This holds whichever
    code the database returns first among codes created at the same instant,
    in the first query ([tie]) and in any later one ([tie']). *)
Theorem verifyOtp_single_use tie now params db :
  let r := verifyOtp tie now params db in
  (r.1 = Resolved true ∨ r.1 = Resolved false) ∧
  (r.1 = Resolved false → r.2 = db) ∧
  (r.1 = Resolved true →
   ∃ id otp,
     otpCodes db !! id = Some otp ∧ verify_where params (id, otp) ∧
     r.2 = set_otpCodes (alter (OtpCode.set_usedAt now) id) db ∧
     otpCodes r.2 !! id = Some (OtpCode.set_usedAt now otp) ∧
     (∀ id', id' ≠ id → otpCodes r.2 !! id' = otpCodes db !! id') ∧
     (∀ tie' id2 otp2,
        otpCode_findFirst tie' params r.2 = Some (id2, otp2) → id2 ≠ id) ∧
     (∀ tie' now',
        (∀ id1 otp1 id2 otp2,
           otpCodes db !! id1 = Some otp1 → verify_where params (id1, otp1) →
           otpCodes db !! id2 = Some otp2 → verify_where params (id2, otp2) →
           id1 = id2) →
        verifyOtp tie' now' params r.2 = (Resolved false, r.2))).
Proof.
  intros r. subst r. rewrite verifyOtp_cases.
  destruct (otpCode_findFirst tie params db) as [[id otp]|] eqn:Hfind;
    [|cbn; split; [by right|]; by split].
  destruct (OtpCode.expiresAt otp <? now);
    [cbn; split; [by right|]; by split|]. cbn.
  split; [by left|]. split; [done|]. intros _.
  apply otpCode_findFirst_Some in Hfind as [Hid Hw].
  assert (∀ tie' id2 otp2,
            otpCode_findFirst tie' params
              (set_otpCodes (alter (OtpCode.set_usedAt now) id) db) = Some (id2, otp2) →
            id2 ≠ id) as Hgone.
  { intros tie' id2 otp2 [Hid2 Hw2]%otpCode_findFirst_Some ->. cbn in Hid2.
    rewrite lookup_alter_eq, Hid in Hid2. injection Hid2 as <-.
    by destruct Hw2 as (_ & _ & _ & Hu). }
  exists id, otp. split; [done|]. split; [done|]. split; [done|].
  split; [cbn; by rewrite lookup_alter_eq, Hid|].
  split; [intros id' Hne; cbn; by apply lookup_alter_ne|].
  split; [done|].
  - intros tie' now' Huniq. rewrite verifyOtp_cases.
    destruct (otpCode_findFirst tie' params _) as [[id2 otp2]|] eqn:Hfind2; [|done].
    pose proof (Hgone tie' id2 otp2 Hfind2) as Hne.
    apply otpCode_findFirst_Some in Hfind2 as [Hid2 Hw2]. cbn in Hid2.
    rewrite lookup_alter_ne in Hid2 by done.
    destruct Hne. by apply (Huniq id2 otp2 id otp).
Qed.

Lemma verifyOtp_single_use_witness :
  let r := verifyOtp Example.by_id 5000 Example.login_123456 Example.one_code_db in
  r.1 = Resolved true ∧
  verifyOtp Example.by_id 6000 Example.login_123456 r.2 = (Resolved false, r.2).
Proof.
  intros r.
  assert (r.1 = Resolved true) as Hr by (vm_compute; reflexivity).
  split; [exact Hr|].
  destruct (verifyOtp_single_use Example.by_id 5000 Example.login_123456
              Example.one_code_db) as (_ & _ & Htrue).
  destruct (Htrue Hr) as (id & otp & _ & _ & _ & _ & _ & _ & Hsecond).
  apply Hsecond. intros id1 otp1 id2 otp2 H1 _ H2 _. cbn in H1, H2.
  apply lookup_singleton_Some in H1 as [<- _].
  by apply lookup_singleton_Some in H2 as [<- _].
Defined.

(** The claim C3 as first stated fails when two unused codes carry the same
    digits: a user asks for a password reset at 1000 and again at 2000 and
    the generator draws 123456 both times; verifying 123456 at 5000 succeeds
    and verifying it again at 6000 succeeds as well. *)
Lemma verifyOtp_twin_codes_verify_twice :
  let r := verifyOtp Example.by_id 5000 Example.reset_123456 Example.twin_codes_db in
  r.1 = Resolved true ∧
  (verifyOtp Example.by_id 6000 Example.reset_123456 r.2).1 = Resolved true.
Proof. split; vm_compute; reflexivity. Qed.

End OtpVerification.

(** ** Registration and password reset *)

Section Accounts.

Import AuthService.

Implicit Types (db : Db) (now : Z) (email password : string) (env : Env).

Local Arguments OtpService.createOtpForUser : simpl never.
Local Arguments EmailService.sendOtpEmail : simpl never.
Local Arguments OtpService.generateOtpCode : simpl never.

(** The user [findUnique] returns is stored and has the requested email. *)
Lemma user_findUnique_Some email db id user :
  user_findUnique email db = Some (id, user) →
  users db !! id = Some user ∧ User.email user = email.
Proof.
  intros Hin%head_Some_elem_of. unfold Prisma.findMany in Hin.
  apply list_elem_of_filter in Hin as [He Hin]. by apply elem_of_map_to_list in Hin.
Qed.

(** It returns none only if no stored user has the email. *)
Lemma user_findUnique_None email db id user :
  user_findUnique email db = None →
  users db !! id = Some user → User.email user ≠ email.
Proof.
  intros Hnil%head_None Hl He. unfold Prisma.findMany in Hnil.
  eapply (filter_nil_not_elem_of _ _ (id, user)) in Hnil; [|done].
  apply Hnil. by apply elem_of_map_to_list.
Qed.

(** [sendOtpEmail] does not touch the store. *)
Lemma sendOtpEmail_store env sendMail params db :
  (EmailService.sendOtpEmail env sendMail params db).2 = db.
Proof.
  unfold EmailService.sendOtpEmail, EmailService.getTransporter. async_simpl.
  destruct (_ || _); cbn; [done|]. by destruct (sendMail _).
Qed.

(** Its outcome does not depend on the store. *)
Lemma sendOtpEmail_outcome env sendMail params db db' :
  (EmailService.sendOtpEmail env sendMail params db).1 =
  (EmailService.sendOtpEmail env sendMail params db').1.
Proof.
  unfold EmailService.sendOtpEmail, EmailService.getTransporter. async_simpl.
  destruct (_ || _); cbn; [done|]. by destruct (sendMail _).
Qed.

(** [createOtpForUser] for the id of a stored user stores one new code under
    an unused identifier. *)
Lemma createOtpForUser_store env now random params db :
  is_Some (users db !! OtpService.create_userId params) →
  let otp := {| OtpCode.createdAt := now;
                OtpCode.userId := OtpService.create_userId params;
                OtpCode.code := OtpService.generateOtpCode random 6;
                OtpCode.purpose := OtpService.create_purpose params;
                OtpCode.expiresAt := JS.addMinutes now (OTP_EXP_MINUTES env);
                OtpCode.usedAt := None;
                OtpCode.sentTo := OtpService.create_sentTo params |} in
  ∃ otpId, otpCodes db !! otpId = None ∧
    OtpService.createOtpForUser env now random params db =
      (Resolved (otpId, otp), set_otpCodes (insert otpId otp) db).
Proof.
  intros [user Huser] otp. exists (fresh (dom (otpCodes db))). split.
  - apply not_elem_of_dom, is_fresh.
  - unfold OtpService.createOtpForUser. by rewrite Huser.
Qed.

(** For an id no stored user has, the database refuses the code and nothing
    is stored. *)
Lemma createOtpForUser_refused env now random params db :
  users db !! OtpService.create_userId params = None →
  OtpService.createOtpForUser env now random params db =
    (Rejected (ForeignKeyConstraint "OtpCode_userId_fkey"), db).
Proof. intros Huser. unfold OtpService.createOtpForUser. by rewrite Huser. Qed.

(** [requestPasswordReset] by cases on the user found. *)
Lemma requestPasswordReset_cases env sendMail now random email db :
  requestPasswordReset env sendMail now random email db =
    match user_findUnique email db with
    | None => (Resolved (), db)
    | Some (id, user) =>
        if User.isActive user then
          let issued := OtpService.createOtpForUser env now random
            {| OtpService.create_userId := id;
               OtpService.create_purpose := PASSWORD_RESET;
               OtpService.create_sentTo := email |} db in
          ((EmailService.sendOtpEmail env sendMail
              {| EmailService.email_to := email;
                 EmailService.email_code := OtpService.generateOtpCode random 6;
                 EmailService.email_purpose := "Сброс пароля" |} issued.2).1,
           issued.2)
        else (Resolved (), db)
    end.
Proof.
  unfold requestPasswordReset. async_simpl.
  destruct (user_findUnique email db) as [[id user]|] eqn:Hfind; [|done].
  apply user_findUnique_Some in Hfind as [Hid _].
  destruct (User.isActive user); [|done]. cbn.
  destruct (createOtpForUser_store env now random
              {| OtpService.create_userId := id;
                 OtpService.create_purpose := PASSWORD_RESET;
                 OtpService.create_sentTo := email |} db) as (otpId & _ & ->);
    [by eexists|].
  cbn.
  match goal with
  | |- context [EmailService.sendOtpEmail ?e ?s ?q ?d] =>
      pose proof (sendOtpEmail_store e s q d) as Hst;
      destruct (EmailService.sendOtpEmail e s q d) as [[[]|err] db2]
  end; cbn in *; by subst db2.
Qed.

(** C7. When no stored user has the email, or the user who has it is
    inactive, [requestPasswordReset] resolves and leaves the store as it
    was: no code is created and no user is modified.  For the active user
    who has the email it stores one new PASSWORD_RESET code of that user,
    sent to the email, and nothing else; and the store changes in no other
    case. *)
Theorem requestPasswordReset_effects env sendMail now random email db :
  let r := requestPasswordReset env sendMail now random email db in
  ((∀ id user, users db !! id = Some user → User.email user = email →
               User.isActive user = false) →
   r = (Resolved (), db)) ∧
  (∀ id user,
     users db !! id = Some user → User.email user = email →
     User.isActive user = true →
     (∀ id' user', users db !! id' = Some user' → User.email user' = email → id' = id) →
     ∃ otpId,
       otpCodes db !! otpId = None ∧
       r.2 = set_otpCodes (insert otpId
               {| OtpCode.createdAt := now; OtpCode.userId := id;
                  OtpCode.code := OtpService.generateOtpCode random 6;
                  OtpCode.purpose := PASSWORD_RESET;
                  OtpCode.expiresAt := JS.addMinutes now (OTP_EXP_MINUTES env);
                  OtpCode.usedAt := None; OtpCode.sentTo := email |}) db) ∧
  (r.2 ≠ db →
   ∃ id user, users db !! id = Some user ∧ User.email user = email ∧
              User.isActive user = true).
Proof.
  intros r. subst r. rewrite requestPasswordReset_cases.
  destruct (user_findUnique email db) as [[id user]|] eqn:Hfind.
  - apply user_findUnique_Some in Hfind as [Hid He].
    destruct (User.isActive user) eqn:Hact.
    + split; [|split].
      * intros Hin. specialize (Hin _ _ Hid He). congruence.
      * intros id0 user0 Hid0 He0 _ Huniq.
        pose proof (Huniq _ _ Hid He) as ->.
        destruct (createOtpForUser_store env now random
                    {| OtpService.create_userId := id0;
                       OtpService.create_purpose := PASSWORD_RESET;
                       OtpService.create_sentTo := email |} db) as (otpId & Hfresh & ->);
          [by eexists|].
        by exists otpId.
      * intros _. by exists id, user.
    + split; [done|]. split; [|done].
      intros id0 user0 Hid0 He0 Hact0 Huniq.
      pose proof (Huniq _ _ Hid He) as ->. congruence.
  - split; [done|]. split; [|done].
    intros id0 user0 Hid0 He0 _ _.
    by destruct (user_findUnique_None _ _ _ _ Hfind Hid0).
Qed.

(** Bob is inactive and nobody has c@x.com: nothing changes; Alice is
    active: one code is stored. *)
Lemma requestPasswordReset_effects_witness :
  requestPasswordReset Example.env_smtp (λ _, true) 1000 Example.draws_123456
    "b@x.com" Example.users_db = (Resolved (), Example.users_db) ∧
  requestPasswordReset Example.env_smtp (λ _, true) 1000 Example.draws_123456
    "c@x.com" Example.users_db = (Resolved (), Example.users_db) ∧
  ∃ otpId,
    otpCodes Example.users_db !! otpId = None ∧
    (requestPasswordReset Example.env_smtp (λ _, true) 1000 Example.draws_123456
       "a@x.com" Example.users_db).2 =
    set_otpCodes (insert otpId
      {| OtpCode.createdAt := 1000; OtpCode.userId := "u1";
         OtpCode.code := OtpService.generateOtpCode Example.draws_123456 6;
         OtpCode.purpose := PASSWORD_RESET;
         OtpCode.expiresAt := JS.addMinutes 1000 (OTP_EXP_MINUTES Example.env_smtp);
         OtpCode.usedAt := None; OtpCode.sentTo := "a@x.com" |}) Example.users_db.
Proof.
  assert (∀ id user, users Example.users_db !! id = Some user →
            (id = "u1" ∧ user = Example.alice) ∨ (id = "u2" ∧ user = Example.bob))
    as Hcases.
  { intros id user Hl. cbn in Hl.
    apply lookup_insert_Some in Hl as [[<- <-]|[_ Hl]]; [by left|].
    apply lookup_singleton_Some in Hl as [<- <-]. by right. }
  split; [|split].
  - apply (requestPasswordReset_effects Example.env_smtp (λ _, true) 1000
             Example.draws_123456 "b@x.com" Example.users_db).
    intros id user [[-> ->]|[-> ->]]%Hcases; [discriminate|reflexivity].
  - apply (requestPasswordReset_effects Example.env_smtp (λ _, true) 1000
             Example.draws_123456 "c@x.com" Example.users_db).
    intros id user [[-> ->]|[-> ->]]%Hcases; discriminate.
  - apply (proj1 (proj2 (requestPasswordReset_effects Example.env_smtp (λ _, true) 1000
             Example.draws_123456 "a@x.com" Example.users_db)) "u1" Example.alice).
    + vm_compute. reflexivity.
    + reflexivity.
    + reflexivity.
    + intros id user [[-> ->]|[-> ->]]%Hcases; [reflexivity|discriminate].
Defined.

(** [registerRequestOtp] on a store where the email is taken. *)
Lemma registerRequestOtp_duplicate env bcrypt_hash sendMail now random email password db
    id user :
  users db !! id = Some user → User.email user = email →
  registerRequestOtp env bcrypt_hash sendMail now random email password db
  = (Rejected UserAlreadyExists, db).
Proof.
  intros Hid He. unfold registerRequestOtp. async_simpl.
  destruct (user_findUnique email db) as [[id' user']|] eqn:Hfind; [done|].
  by destruct (user_findUnique_None _ _ _ _ Hfind Hid).
Qed.

(** Every later request for a taken email is rejected and changes nothing. *)
Lemma register_attempts_duplicate email attempts db id user :
  users db !! id = Some user → User.email user = email →
  Client.register_attempts email attempts db
  = (replicate (length attempts) (Rejected UserAlreadyExists), db).
Proof.
  intros Hid He. induction attempts as [|a attempts IH]; cbn; [done|].
  rewrite (registerRequestOtp_duplicate _ _ _ _ _ _ _ _ _ _ Hid He). cbn.
  by rewrite IH.
Qed.

(** C9. When no stored user has the email, [registerRequestOtp] stores the
    inactive user and a REGISTER code for it, and only then dispatches the
    mail: the store reached is the same whether or not the dispatch
    succeeds, and the outcome of the request is the outcome of the dispatch.
    So when the dispatch fails the request is rejected while the inactive
    user stays stored, and every later [registerRequestOtp] for the same
    email is rejected with 'User with this email already exists'. *)
Theorem registerRequestOtp_keeps_user_on_mail_failure
    env bcrypt_hash sendMail now random email password db :
  (∀ id user, users db !! id = Some user → User.email user ≠ email) →
  let r := registerRequestOtp env bcrypt_hash sendMail now random email password db in
  let user := {| User.createdAt := now; User.updatedAt := now; User.email := email;
                 User.phone := None;
                 User.passwordHash := bcrypt_hash password SALT_ROUNDS;
                 User.isActive := false |} in
  ∃ userId otpId,
    users db !! userId = None ∧ otpCodes db !! otpId = None ∧
    r.2 = set_otpCodes (insert otpId
            {| OtpCode.createdAt := now; OtpCode.userId := userId;
               OtpCode.code := OtpService.generateOtpCode random 6;
               OtpCode.purpose := REGISTER;
               OtpCode.expiresAt := JS.addMinutes now (OTP_EXP_MINUTES env);
               OtpCode.usedAt := None; OtpCode.sentTo := email |})
            (set_users (insert userId user) db) ∧
    r.1 = (EmailService.sendOtpEmail env sendMail
             {| EmailService.email_to := email;
                EmailService.email_code := OtpService.generateOtpCode random 6;
                EmailService.email_purpose := "Регистрация" |} db).1 ∧
    (∀ e, r.1 = Rejected e →
          users r.2 !! userId = Some user ∧ User.isActive user = false ∧
          ∀ attempts,
            Client.register_attempts email attempts r.2
            = (replicate (length attempts) (Rejected UserAlreadyExists), r.2)).
Proof.
  intros Hnew r user.
  assert (user_findUnique email db = None) as Hfind.
  { destruct (user_findUnique email db) as [[id u]|] eqn:Hfind; [|done].
    apply user_findUnique_Some in Hfind as [Hid He]. by destruct (Hnew _ _ Hid). }
  set (userId := fresh (dom (users db))).
  assert (users db !! userId = None) as Hfresh by apply not_elem_of_dom, is_fresh.
  subst r. unfold registerRequestOtp. async_simpl. rewrite Hfind.
  unfold Prisma.create. cbn. fold userId. fold user.
  match goal with
  | |- context [OtpService.createOtpForUser ?e ?n ?r ?q ?d] =>
      destruct (createOtpForUser_store e n r q d) as (otpId & Hotp & ->);
        [cbn; rewrite lookup_insert_eq; by eexists|]
  end.
  cbn.
  match goal with
  | |- context [EmailService.sendOtpEmail ?e ?s ?q ?d] =>
      pose proof (sendOtpEmail_store e s q d) as Hst;
      pose proof (sendOtpEmail_outcome e s q d db) as Hout;
      destruct (EmailService.sendOtpEmail e s q d) as [o db2]
  end.
  cbn in *. subst db2. rewrite <-Hout.
  exists userId, otpId.
  split; [done|]. split; [done|]. split; [done|]. split; [done|].
  intros e _. split; [cbn; by rewrite lookup_insert_eq|]. split; [done|].
  intros attempts. apply (register_attempts_duplicate _ _ _ userId user); [|done].
  cbn. by rewrite lookup_insert_eq.
Qed.

(** Without SMTP settings the first request for a@x.com is rejected, and so
    are two later ones made once the mail works. *)
Lemma registerRequestOtp_keeps_user_on_mail_failure_witness :
  let r := registerRequestOtp Example.env_no_smtp Example.bcrypt_hash (λ _, true)
             1000 Example.draws_123456 "a@x.com" "secret1" Example.empty_db in
  r.1 = Rejected SmtpNotConfigured ∧
  (∃ userId, users r.2 !! userId
     = Some {| User.createdAt := 1000; User.updatedAt := 1000;
               User.email := "a@x.com"; User.phone := None;
               User.passwordHash := Example.bcrypt_hash "secret1" SALT_ROUNDS;
               User.isActive := false |}) ∧
  Client.register_attempts "a@x.com" [Example.retry 2000; Example.retry 3000] r.2
  = ([Rejected UserAlreadyExists; Rejected UserAlreadyExists], r.2).
Proof.
  intros r.
  destruct (registerRequestOtp_keeps_user_on_mail_failure Example.env_no_smtp
              Example.bcrypt_hash (λ _, true) 1000 Example.draws_123456
              "a@x.com" "secret1" Example.empty_db)
    as (userId & otpId & _ & _ & _ & Hout & Hfail).
  { intros id user Hl. cbn in Hl. by rewrite lookup_empty in Hl. }
  fold r in Hout, Hfail.
  assert (r.1 = Rejected SmtpNotConfigured) as Hr by (rewrite Hout; reflexivity).
  destruct (Hfail _ Hr) as (Huser & _ & Hlater).
  split; [exact Hr|]. split; [by exists userId|].
  apply (Hlater [Example.retry 2000; Example.retry 3000]).
Defined.

End Accounts.

(** ** Statistics and achievements *)

Section Achievements.

Import ProfileService.

Implicit Types (db : Db) (userId : string) (stats : Stats).

(** The achievements as a function of the statistics. *)
Lemma getUserAchievements_cases userId db :
  getUserAchievements userId db =
    match getUserStats userId db with
    | (Resolved stats, db') =>
        (Resolved
           (push_if ((averageProgress stats =? 100) && (startedCourses stats >? 0))
              {| id := "perfect_progress"; title := "Идеальный прогресс";
                 description := "Достиг 100% прогресса по всем курсам";
                 unlocked := true; unlockedAt := None |}
           (push_if ((completedAssignments stats >? 0) &&
                     (completedAssignments stats =? totalAssignments stats))
              {| id := "all_assignments"; title := "Выполнил все задания";
                 description := "Завершил все доступные задания";
                 unlocked := true; unlockedAt := None |}
           (push_if (completedCourses stats >=? 10)
              {| id := "ten_courses"; title := "Мастер обучения";
                 description := "Завершил 10 курсов";
                 unlocked := true; unlockedAt := None |}
           (push_if (completedCourses stats >=? 5)
              {| id := "five_courses"; title := "Опытный студент";
                 description := "Завершил 5 курсов";
                 unlocked := true; unlockedAt := None |}
           (push_if (completedCourses stats >=? 1)
              {| id := "first_completed"; title := "Первый успех";
                 description := "Завершил первый курс";
                 unlocked := true; unlockedAt := None |}
           (push_if (startedCourses stats >=? 1)
              {| id := "first_course"; title := "Первый шаг";
                 description := "Начал прохождение первого курса";
                 unlocked := true; unlockedAt := None |} [])))))),
         db')
    | (Rejected e, db') => (Rejected e, db')
    end.
Proof.
  unfold getUserAchievements. async_simpl.
  by destruct (getUserStats userId db) as [[stats|e] db'].
Qed.

Lemma elem_of_push_if (x : string) cond a (achievements : list Achievement) :
  x ∈ id <$> push_if cond a achievements ↔
  (cond = true ∧ x = id a) ∨ x ∈ id <$> achievements.
Proof.
  unfold push_if. destruct cond.
  - rewrite fmap_app, elem_of_app. cbn. rewrite list_elem_of_singleton. intuition.
  - intuition discriminate.
Qed.

(** What [getUserStats] reports about the started courses when it resolves. *)
Lemma getUserStats_resolved userId db stats db' :
  getUserStats userId db = (Resolved stats, db') →
  db' = db ∧
  startedCourses stats = Z.of_nat (length (userCourses userId db)) ∧
  averageProgress stats =
    (if Z.of_nat (length (userCourses userId db)) >? 0
     then JS.Math_round_div
            (JS.reduce_sum (λ cp, UserCourseProgress.progressPercent cp.2)
               (userCourses userId db))
            (Z.of_nat (length (userCourses userId db)))
     else 0).
Proof.
  unfold getUserStats. async_simpl.
  destruct (with_maxScore db _) as [joined|e]; [|done].
  by intros [= <- <-].
Qed.

(** [getUserStats] resolves when every assignment the user submitted is
    stored. *)
Lemma getUserStats_resolves userId db :
  (∀ a ua, userAssignments db !! (userId, a) = Some ua → is_Some (assignments db !! a)) →
  ∃ stats, getUserStats userId db = (Resolved stats, db).
Proof.
  intros Hfk. unfold getUserStats. async_simpl.
  destruct (with_maxScore db _) as [joined|e] eqn:Hjoin; [by eexists|].
  unfold with_maxScore in Hjoin.
  destruct (mapM _ _) as [joined|] eqn:HmapM; [done|].
  apply mapM_None_1, Exists_exists in HmapM as ([[u a] ua] & Hin & Hnone).
  unfold Prisma.findMany in Hin.
  apply list_elem_of_filter in Hin as [Hu Hin%elem_of_map_to_list]. cbn in *. subst u.
  destruct (Hfk _ _ Hin) as [asg Hasg]. by rewrite Hasg in Hnone.
Qed.

(** The rows [findMany] returns are the entries of the filtered table. *)
Lemma findMany_length `{Countable K} {V : Type} (P : K * V → Prop)
    `{∀ r, Decision (P r)} (table : gmap K V) :
  length (Prisma.findMany P table) = size (filter P table).
Proof.
  unfold Prisma.findMany. rewrite map_filter_alt, map_size_list_to_map.
  - done.
  - eapply sublist_NoDup; [apply (NoDup_fst_map_to_list table)|].
    apply fmap_sublist, sublist_filter.
Qed.

(** C8. [getUserAchievements] resolves when every assignment the user
    submitted is stored, and whenever it resolves: [startedCourses] is the
    number of course progress rows of the user; [averageProgress] is 0 when
    there is none and otherwise the rounded mean of [progressPercent] over
    these rows only; "first_course" is among the achievements iff
    [startedCourses >= 1]; and "perfect_progress" is among them iff
    [averageProgress = 100] and [startedCourses > 0]. *)
Theorem achievements_first_course_perfect_progress userId db :
  let rows := userCourses userId db in
  ((∀ a ua, userAssignments db !! (userId, a) = Some ua →
            is_Some (assignments db !! a)) →
   ∃ achievements, getUserAchievements userId db = (Resolved achievements, db)) ∧
  (∀ achievements,
     (getUserAchievements userId db).1 = Resolved achievements →
     ∃ stats,
       getUserStats userId db = (Resolved stats, db) ∧
       startedCourses stats =
         Z.of_nat (size (filter (λ r, r.1.1 = userId) (userCourseProgress db))) ∧
       startedCourses stats = Z.of_nat (length rows) ∧
       averageProgress stats =
         (if decide (rows = []) then 0
          else JS.Math_round_div
                 (Spec.Zsum ((λ cp, UserCourseProgress.progressPercent cp.2) <$> rows))
                 (Z.of_nat (length rows))) ∧
       ("first_course" ∈ id <$> achievements ↔ 1 ≤ startedCourses stats) ∧
       ("perfect_progress" ∈ id <$> achievements ↔
          averageProgress stats = 100 ∧ 0 < startedCourses stats)).
Proof.
  intros rows. split.
  - intros Hfk. destruct (getUserStats_resolves userId db Hfk) as [stats Hs].
    rewrite getUserAchievements_cases, Hs. by eexists.
  - intros achievements Hach. rewrite getUserAchievements_cases in Hach.
    destruct (getUserStats userId db) as [[stats|e] db'] eqn:Hs; [|done].
    cbn in Hach. injection Hach as <-.
    apply getUserStats_resolved in Hs as (-> & Hstarted & Havg).
    exists stats. split; [done|]. split; [|split; [done|split]].
    + rewrite Hstarted. unfold userCourses. by rewrite findMany_length.
    + rewrite Havg, reduce_sum_Zsum. fold rows.
      destruct rows as [|row rows']; [done|]. rewrite decide_False by done.
      cbn [length]. by destruct (Z.gtb_spec (Z.of_nat (S (length rows'))) 0); [|lia].
    + split.
      * rewrite !elem_of_push_if. cbn [id]. rewrite fmap_nil, elem_of_nil.
        split.
        -- intros [[_ ?]|[[_ ?]|[[_ ?]|[[_ ?]|[[_ ?]|[[Hc _]|[]]]]]]]; try discriminate.
           apply Z.geb_le in Hc. lia.
        -- intros Hc. do 5 right. left. split; [|done]. apply Z.geb_le. lia.
      * rewrite !elem_of_push_if. cbn [id]. rewrite fmap_nil, elem_of_nil.
        split.
        -- intros [[Hc _]|[[_ ?]|[[_ ?]|[[_ ?]|[[_ ?]|[[_ ?]|[]]]]]]]; try discriminate.
           apply andb_true_iff in Hc as [Ha%Z.eqb_eq Hb%Z.gtb_gt]. lia.
        -- intros [Ha Hb]. left. split; [|done].
           apply andb_true_iff. split; [by apply Z.eqb_eq|]. apply Z.gtb_gt. lia.
Qed.

(** The user who completed all three lessons of the course has one started
    course at 100: both achievements are unlocked. *)
Lemma achievements_first_course_perfect_progress_witness :
  (∃ achievements,
     getUserAchievements "u1" Example.finished_db
       = (Resolved achievements, Example.finished_db)) ∧
  (∃ stats,
     getUserStats "u1" Example.finished_db = (Resolved stats, Example.finished_db) ∧
     startedCourses stats = 1 ∧ averageProgress stats = 100).
Proof.
  split.
  - apply (proj1 (achievements_first_course_perfect_progress "u1" Example.finished_db)).
    intros a ua Hl. vm_compute in Hl. discriminate.
  - edestruct (proj2 (achievements_first_course_perfect_progress "u1" Example.finished_db))
      as (stats & Hs & _ & Hstarted & Havg & _).
    { vm_compute. reflexivity. }
    exists stats. split; [exact Hs|]. rewrite Hstarted, Havg.
    split; vm_compute; reflexivity.
Defined.

End Achievements.

(** * Further properties of the services *)

(** ** Issuing codes *)

Section OtpIssue.

Import OtpService.

Implicit Types (db : Db) (now : Z) (env : Env) (random : nat → nat).

Local Arguments generateOtpCode : simpl never.

Lemma list_ascii_of_string_app (s1 s2 : string) :
  list_ascii_of_string (s1 +:+ s2) =
    (list_ascii_of_string s1 ++ list_ascii_of_string s2)%list.
Proof.
  induction s1 as [|c s1 IH]; [done|].
  change (String c s1 +:+ s2) with (String c (s1 +:+ s2)). cbn. by rewrite IH.
Qed.

Lemma string_length_list_ascii (s : string) :
  String.length s = length (list_ascii_of_string s).
Proof. induction s as [|c s IH]; cbn; [done|]. by rewrite IH. Qed.

Lemma digit_at_digit k :
  (k < 10)%nat → digit_at k = String (Ascii.ascii_of_nat (48 + k)) "".
Proof. intros Hk. do 10 (destruct k as [|k]; [reflexivity|]). lia. Qed.

Lemma generateOtpCode_loop_chars random n i code :
  (∀ j, (i ≤ j < i + n)%nat → (random j < 10)%nat) →
  list_ascii_of_string (generateOtpCode_loop random i n code) =
    (list_ascii_of_string code ++
     ((λ j, Ascii.ascii_of_nat (48 + random j)) <$> seq i n))%list.
Proof.
  revert i code. induction n as [|n IH]; intros i code Hr; cbn.
  - by rewrite app_nil_r.
  - rewrite IH by (intros j Hj; apply Hr; lia).
    rewrite list_ascii_of_string_app, digit_at_digit by (apply Hr; lia).
    cbn. by rewrite <-app_assoc.
Qed.

(** X1. When every draw is an index into the ten digits, as
    [Math.floor(Math.random() * 10)] is, [generateOtpCode] returns the drawn
    digits in the order drawn: a string of exactly [length] characters, each
    a decimal digit. *)
Theorem generateOtpCode_digits random n :
  (∀ i, (i < n)%nat → (random i < 10)%nat) →
  list_ascii_of_string (generateOtpCode random n) =
    ((λ i, Ascii.ascii_of_nat (48 + random i)) <$> seq 0 n) ∧
  String.length (generateOtpCode random n) = n ∧
  Forall (λ c, (48 ≤ Ascii.nat_of_ascii c ≤ 57)%nat)
    (list_ascii_of_string (generateOtpCode random n)).
Proof.
  intros Hr.
  assert (list_ascii_of_string (generateOtpCode random n) =
            ((λ i, Ascii.ascii_of_nat (48 + random i)) <$> seq 0 n)) as Hchars.
  { unfold generateOtpCode. rewrite generateOtpCode_loop_chars; [done|].
    intros j Hj. apply Hr. lia. }
  split; [done|]. split.
  - by rewrite string_length_list_ascii, Hchars, length_fmap, length_seq.
  - rewrite Hchars. apply Forall_fmap, Forall_forall. intros i Hi%elem_of_seq. cbn.
    rewrite Ascii.nat_ascii_embedding; [|specialize (Hr i); lia].
    specialize (Hr i). lia.
Qed.

Lemma generateOtpCode_digits_witness :
  list_ascii_of_string (generateOtpCode Example.draws_123456 6) =
    ((λ i, Ascii.ascii_of_nat (48 + Example.draws_123456 i)) <$> seq 0 6) ∧
  String.length (generateOtpCode Example.draws_123456 6) = 6%nat ∧
  Forall (λ c, (48 ≤ Ascii.nat_of_ascii c ≤ 57)%nat)
    (list_ascii_of_string (generateOtpCode Example.draws_123456 6)).
Proof.
  apply (generateOtpCode_digits Example.draws_123456 6).
  intros i Hi. unfold Example.draws_123456. lia.
Defined.

(** The code just issued to a stored user is the one [findFirst] selects
    when every stored unused code of the same user, purpose and value was
    created earlier. *)
Lemma createOtpForUser_selected tie env now random params db :
  let q := {| verify_userId := create_userId params;
              verify_purpose := create_purpose params;
              verify_code := generateOtpCode random 6 |} in
  is_Some (users db !! create_userId params) →
  (∀ id otp, otpCodes db !! id = Some otp → verify_where q (id, otp) →
             OtpCode.createdAt otp < now) →
  ∃ otpId otp,
    otpCodes db !! otpId = None ∧
    OtpCode.expiresAt otp = JS.addMinutes now (OTP_EXP_MINUTES env) ∧
    createOtpForUser env now random params db
      = (Resolved (otpId, otp), set_otpCodes (insert otpId otp) db) ∧
    otpCode_findFirst tie q (set_otpCodes (insert otpId otp) db) = Some (otpId, otp).
Proof.
  intros q Huser Hold.
  destruct (createOtpForUser_store env now random params db Huser)
    as (otpId & Hfresh & Hc).
  eexists otpId, _. split; [done|]. split; [|split; [exact Hc|]]; [done|].
  match goal with |- otpCode_findFirst tie _ (set_otpCodes (insert _ ?o) _) = _ => set (otp := o) end.
  assert (verify_where q (otpId, otp)) as Hw by done.
  assert (otpCodes (set_otpCodes (insert otpId otp) db) !! otpId = Some otp) as Hnew
    by (cbn; apply lookup_insert_eq).
  destruct (otpCode_findFirst tie q _) as [[id' otp']|] eqn:Hfind.
  - pose proof (otpCode_findFirst_newest tie _ _ _ _ _ _ Hfind Hnew Hw) as Hle.
    apply otpCode_findFirst_Some in Hfind as [Hid' Hw']. cbn in Hid'.
    apply lookup_insert_Some in Hid' as [[<- <-]|[Hne Hid']]; [done|].
    specialize (Hold _ _ Hid' Hw'). cbn in Hle. lia.
  - by destruct (otpCode_findFirst_None tie _ _ _ _ Hfind Hnew).
Qed.

(** X2. Issue then verify.  For the id of a stored user, when every stored
    unused code of the same user, purpose and value was created before
    [now], [createOtpForUser] at [now] resolves with a code that verifies at
    a time [now'] iff [now'] is not after [now + OTP_EXP_MINUTES] minutes;
    the verification marks the issued code used at [now'] and leaves every
    code stored before as it was. *)
Theorem createOtpForUser_verifyOtp tie env now random params db now' :
  let issued := createOtpForUser env now random params db in
  let q := {| verify_userId := create_userId params;
              verify_purpose := create_purpose params;
              verify_code := generateOtpCode random 6 |} in
  is_Some (users db !! create_userId params) →
  (∀ id otp, otpCodes db !! id = Some otp → verify_where q (id, otp) →
             OtpCode.createdAt otp < now) →
  let verified := verifyOtp tie now' q issued.2 in
  (∃ otpId otp, issued.1 = Resolved (otpId, otp) ∧
                OtpCode.code otp = generateOtpCode random 6) ∧
  (verified.1 = Resolved true ↔ now' ≤ now + OTP_EXP_MINUTES env * 60000) ∧
  (verified.1 = Resolved true →
   ∃ otpId otp,
     issued.1 = Resolved (otpId, otp) ∧ otpCodes db !! otpId = None ∧
     otpCodes verified.2 !! otpId = Some (OtpCode.set_usedAt now' otp) ∧
     ∀ id, id ≠ otpId → otpCodes verified.2 !! id = otpCodes db !! id).
Proof.
  intros issued q Huser Hold verified.
  destruct (createOtpForUser_store env now random params db Huser)
    as (otpId0 & _ & Hstore).
  destruct (createOtpForUser_selected tie env now random params db Huser Hold)
    as (otpId & otp & Hfresh & Hexp & Hissued & Hfind).
  split.
  { subst issued. rewrite Hstore. by eexists _, _. }
  subst verified issued q. rewrite Hissued. cbn [snd fst].
  rewrite verifyOtp_cases, Hfind, Hexp. unfold JS.addMinutes.
  destruct (Z.ltb_spec (now + OTP_EXP_MINUTES env * 60000) now'); cbn.
  - split; [|done]. split; [done|lia].
  - split; [split; [lia|done]|]. intros _. exists otpId, otp.
    split; [done|]. split; [done|]. split.
    + by rewrite lookup_alter_eq, lookup_insert_eq.
    + intros id Hne. by rewrite lookup_alter_ne, lookup_insert_ne.
Qed.

(** A reset code issued to Alice at 1000 with a ten minute window verifies
    at 601000. *)
Lemma createOtpForUser_verifyOtp_witness :
  let issued := createOtpForUser Example.env_smtp 1000 Example.draws_123456
                  Example.reset_for_alice Example.alice_db in
  (verifyOtp Example.by_id 601000 Example.reset_123456 issued.2).1 = Resolved true ↔
  601000 ≤ 1000 + OTP_EXP_MINUTES Example.env_smtp * 60000.
Proof.
  apply (createOtpForUser_verifyOtp Example.by_id Example.env_smtp 1000 Example.draws_123456
           Example.reset_for_alice Example.alice_db 601000).
  - eexists. vm_compute. reflexivity.
  - intros id otp Hl. cbn in Hl. by rewrite lookup_empty in Hl.
Defined.

(** X3. Issuing a code invalidates none.  [createOtpForUser] leaves every
    stored code as it was; for the id of a stored user it stores one more
    code, and for an id no stored user has the database refuses the code
    (foreign key [OtpCode_userId_fkey]) and the store is as it was.  So a
    stored code that is the only unused one of its user, purpose and value,
    and differs from the new code in one of the three, verifies after the
    call exactly as before: iff it is unused and [now'] is not after its
    [expiresAt]. *)
Theorem createOtpForUser_keeps_codes env now random params db :
  let issued := createOtpForUser env now random params db in
  (∀ id otp, otpCodes db !! id = Some otp → otpCodes issued.2 !! id = Some otp) ∧
  (is_Some (users db !! create_userId params) →
   (∃ otpId otp, issued.1 = Resolved (otpId, otp) ∧ otpCodes db !! otpId = None ∧
                 otpCodes issued.2 !! otpId = Some otp) ∧
   size (otpCodes issued.2) = S (size (otpCodes db))) ∧
  (users db !! create_userId params = None →
   issued = (Rejected (ForeignKeyConstraint "OtpCode_userId_fkey"), db)) ∧
  (∀ tie now' id otp,
     otpCodes db !! id = Some otp →
     let q := {| verify_userId := OtpCode.userId otp;
                 verify_purpose := OtpCode.purpose otp;
                 verify_code := OtpCode.code otp |} in
     (∀ id' otp', otpCodes db !! id' = Some otp' → verify_where q (id', otp') → id' = id) →
     (OtpCode.userId otp, OtpCode.purpose otp, OtpCode.code otp)
       ≠ (create_userId params, create_purpose params, generateOtpCode random 6) →
     ((verifyOtp tie now' q issued.2).1 = Resolved true ↔
      OtpCode.usedAt otp = None ∧ now' ≤ OtpCode.expiresAt otp)).
Proof.
  intros issued.
  destruct (users db !! create_userId params) as [user|] eqn:Huser.
  - destruct (createOtpForUser_store env now random params db) as (otpId & Hfresh & Hc);
      [by rewrite Huser|].
    subst issued. rewrite Hc. cbn [snd fst]. split; [|split; [|split]].
    + intros id otp Hid. cbn. rewrite lookup_insert_ne; [done|]. by intros ->; simplify_eq.
    + intros _. split.
      * eexists otpId, _. split; [done|]. split; [done|]. cbn. apply lookup_insert_eq.
      * cbn. by apply map_size_insert_None.
    + done.
    + intros tie now' id otp Hid Huniq Hdiff.
      apply (verifyOtp_accepts_code _ now' _ id otp).
      * cbn. rewrite lookup_insert_ne; [done|]. by intros ->; simplify_eq.
      * intros id' otp' Hid' Hw. cbn in Hid'.
        apply lookup_insert_Some in Hid' as [[<- <-]|[_ Hid']]; [|by eapply Huniq].
        destruct Hdiff. destruct Hw as (Hu & Hp & Hcode & _). cbn in Hu, Hp, Hcode.
        by rewrite <-Hu, <-Hp, <-Hcode.
  - subst issued. rewrite (createOtpForUser_refused env now random params db Huser).
    cbn [snd fst]. split; [done|]. split; [by intros [? ?]|]. split; [done|].
    intros tie now' id otp Hid Huniq _. by apply (verifyOtp_accepts_code _ now' _ id otp).
Qed.

(** Alice and Bob are stored and Alice holds a code.  A code issued to Bob
    is stored beside it and the code of Alice still verifies; a code for an
    id no user has is refused. *)
Lemma createOtpForUser_keeps_codes_witness :
  let issued := createOtpForUser Example.env_smtp 2000 Example.draws_123456
                  Example.reset_for_bob Example.alice_code_db in
  size (otpCodes issued.2) = 2%nat ∧
  ((verifyOtp Example.by_id 5000 Example.login_123456 issued.2).1 = Resolved true ↔
   OtpCode.usedAt (Example.otp 1000 601000) = None ∧
   5000 ≤ OtpCode.expiresAt (Example.otp 1000 601000)) ∧
  createOtpForUser Example.env_smtp 2000 Example.draws_123456
    Example.reset_for_bob Example.one_code_db
    = (Rejected (ForeignKeyConstraint "OtpCode_userId_fkey"), Example.one_code_db).
Proof.
  split; [|split].
  - destruct (proj1 (proj2 (createOtpForUser_keeps_codes Example.env_smtp 2000
               Example.draws_123456 Example.reset_for_bob Example.alice_code_db)))
      as [_ Hsize].
    + eexists. vm_compute. reflexivity.
    + rewrite Hsize. vm_compute. reflexivity.
  - apply (proj2 (proj2 (proj2 (createOtpForUser_keeps_codes Example.env_smtp 2000
             Example.draws_123456 Example.reset_for_bob Example.alice_code_db)))
             Example.by_id 5000 "o1" (Example.otp 1000 601000)).
    + vm_compute. reflexivity.
    + intros id' otp' Hl _. cbn in Hl. by apply lookup_singleton_Some in Hl as [<- _].
    + discriminate.
  - apply (proj1 (proj2 (proj2 (createOtpForUser_keeps_codes Example.env_smtp 2000
             Example.draws_123456 Example.reset_for_bob Example.one_code_db)))).
    vm_compute. reflexivity.
Defined.

End OtpIssue.

(** ** Registration, login and password reset flows *)

Section AuthFlows.

Import AuthService OtpService.

Implicit Types (db : Db) (now : Z) (email password code : string) (env : Env).

Local Arguments verifyOtp : simpl never.
Local Arguments createOtpForUser : simpl never.
Local Arguments generateOtpCode : simpl never.
Local Arguments EmailService.sendOtpEmail : simpl never.

(** [findUnique] returns the user who has the email when there is one such
    user. *)
Lemma user_findUnique_unique email db id user :
  users db !! id = Some user → User.email user = email →
  (∀ id' user', users db !! id' = Some user' → User.email user' = email → id' = id) →
  user_findUnique email db = Some (id, user).
Proof.
  intros Hid He Huniq.
  destruct (user_findUnique email db) as [[id' user']|] eqn:Hfind.
  - apply user_findUnique_Some in Hfind as [Hid' He'].
    pose proof (Huniq _ _ Hid' He') as ->. by simplify_eq.
  - by destruct (user_findUnique_None _ _ _ _ Hfind Hid).
Qed.

Lemma user_findUnique_absent email db :
  (∀ id user, users db !! id = Some user → User.email user ≠ email) →
  user_findUnique email db = None.
Proof.
  intros Hno. destruct (user_findUnique email db) as [[id user]|] eqn:Hfind; [|done].
  apply user_findUnique_Some in Hfind as [Hid He]. by destruct (Hno _ _ Hid).
Qed.

(** [verifyOtp] resolves, and writes to the code table only. *)
Lemma verifyOtp_frame tie now params db :
  ∃ ok f, verifyOtp tie now params db = (Resolved ok, set_otpCodes f db) ∧
          (ok = false → f = λ table, table).
Proof.
  rewrite verifyOtp_cases.
  destruct (otpCode_findFirst tie params db) as [[id otp]|].
  - destruct (OtpCode.expiresAt otp <? now).
    + exists false, (λ table, table). by destruct db.
    + by eexists true, _.
  - exists false, (λ table, table). by destruct db.
Qed.

(** X4. [registerVerifyOtp] rejects with 'User not found' when no stored user
    has the email and with 'Invalid or expired code' when [verifyOtp] does
    not accept the code for that user and REGISTER, leaving the store (and
    so an inactive account) as it was.  When the code is accepted it
    resolves with the token signed for the user's id; the user is then
    active with email, phone and password hash unchanged (an already active
    user is not written at all), no other user is touched and the code table
    is the one [verifyOtp] left. *)
Theorem registerVerifyOtp_outcomes tie env jwt_sign now email code db :
  let r := registerVerifyOtp env jwt_sign tie now email code db in
  ((∀ id user, users db !! id = Some user → User.email user ≠ email) →
   r = (Rejected UserNotFound, db)) ∧
  (∀ id user,
     users db !! id = Some user → User.email user = email →
     (∀ id' user', users db !! id' = Some user' → User.email user' = email → id' = id) →
     let v := verifyOtp tie now {| verify_userId := id; verify_purpose := REGISTER;
                               verify_code := code |} db in
     (v.1 = Resolved false → r = (Rejected InvalidOrExpiredCode, db)) ∧
     (v.1 = Resolved true →
      r.1 = Resolved (jwt_sign id now (JWT_SECRET env)) ∧
      otpCodes r.2 = otpCodes v.2 ∧
      (∃ user', users r.2 !! id = Some user' ∧
                User.isActive user' = true ∧
                User.email user' = email ∧
                User.phone user' = User.phone user ∧
                User.passwordHash user' = User.passwordHash user ∧
                (User.isActive user = true → user' = user)) ∧
      (∀ id', id' ≠ id → users r.2 !! id' = users db !! id'))).
Proof.
  intros r. split.
  - intros Hno. subst r. unfold registerVerifyOtp. async_simpl.
    by rewrite (user_findUnique_absent _ _ Hno).
  - intros id user Hid He Huniq v.
    assert (r = match v with
                | (Resolved true, db') =>
                    (Resolved (jwt_sign id now (JWT_SECRET env)),
                     if User.isActive user then db'
                     else set_users (alter (λ u,
                       {| User.createdAt := User.createdAt u; User.updatedAt := now;
                          User.email := User.email u; User.phone := User.phone u;
                          User.passwordHash := User.passwordHash u;
                          User.isActive := true |}) id) db')
                | (Resolved false, db') => (Rejected InvalidOrExpiredCode, db')
                | (Rejected e, db') => (Rejected e, db')
                end) as Hr.
    { subst r v. unfold registerVerifyOtp, user_update, signJwt. async_simpl.
      rewrite (user_findUnique_unique _ _ _ _ Hid He Huniq).
      destruct (verifyOtp tie now _ db) as [[[]|e] db']; cbn; [|done..].
      by destruct (User.isActive user). }
    destruct (verifyOtp_frame tie now {| verify_userId := id; verify_purpose := REGISTER;
                                     verify_code := code |} db) as (ok & f & Hv & Hf).
    fold v in Hv. rewrite Hv in Hr |- *. cbn [fst snd]. split.
    + intros [= ->]. rewrite Hr, (Hf eq_refl). by destruct db.
    + intros [= ->]. rewrite Hr. cbn [fst snd]. split; [done|].
      destruct (User.isActive user) eqn:Hact; cbn.
      * split; [done|]. split; [|done]. by exists user.
      * split; [done|]. split.
        -- rewrite lookup_alter_eq, Hid. cbn. eexists. split; [done|]. by repeat split.
        -- intros id' Hne. by rewrite lookup_alter_ne.
Qed.

(** Carol verifies with the wrong code, then with the right one. *)
Lemma registerVerifyOtp_outcomes_witness :
  registerVerifyOtp Example.env_smtp Example.jwt_sign Example.by_id 5000 "c@x.com" "000000"
    Example.pending_db = (Rejected InvalidOrExpiredCode, Example.pending_db) ∧
  (registerVerifyOtp Example.env_smtp Example.jwt_sign Example.by_id 5000 "c@x.com" "123456"
     Example.pending_db).1
    = Resolved (Example.jwt_sign "u3" 5000 (JWT_SECRET Example.env_smtp)) ∧
  registerVerifyOtp Example.env_smtp Example.jwt_sign Example.by_id 5000 "d@x.com" "123456"
    Example.pending_db = (Rejected UserNotFound, Example.pending_db).
Proof.
  assert (∀ id user, users Example.pending_db !! id = Some user →
                     id = "u3" ∧ user = Example.carol) as Hcases.
  { intros id user Hl. cbn in Hl. by apply lookup_singleton_Some in Hl as [<- <-]. }
  split; [|split].
  - apply (proj2 (registerVerifyOtp_outcomes Example.by_id Example.env_smtp Example.jwt_sign 5000
                    "c@x.com" "000000" Example.pending_db) "u3" Example.carol).
    + vm_compute. reflexivity.
    + reflexivity.
    + by intros id' user' [-> _]%Hcases _.
    + vm_compute. reflexivity.
  - apply (proj2 (registerVerifyOtp_outcomes Example.by_id Example.env_smtp Example.jwt_sign 5000
                    "c@x.com" "123456" Example.pending_db) "u3" Example.carol).
    + vm_compute. reflexivity.
    + reflexivity.
    + by intros id' user' [-> _]%Hcases _.
    + vm_compute. reflexivity.
  - apply (proj1 (registerVerifyOtp_outcomes Example.by_id Example.env_smtp Example.jwt_sign 5000
                    "d@x.com" "123456" Example.pending_db)).
    intros id user [-> ->]%Hcases. discriminate.
Defined.

(** [registerVerifyOtp] by cases on the user found and on the verdict. *)
Lemma registerVerifyOtp_cases tie env jwt_sign now email code db :
  registerVerifyOtp env jwt_sign tie now email code db =
    match user_findUnique email db with
    | None => (Rejected UserNotFound, db)
    | Some (id, user) =>
        match verifyOtp tie now {| verify_userId := id; verify_purpose := REGISTER;
                               verify_code := code |} db with
        | (Resolved true, db') =>
            (Resolved (jwt_sign id now (JWT_SECRET env)),
             if User.isActive user then db'
             else set_users (alter (λ u,
               {| User.createdAt := User.createdAt u; User.updatedAt := now;
                  User.email := User.email u; User.phone := User.phone u;
                  User.passwordHash := User.passwordHash u;
                  User.isActive := true |}) id) db')
        | (Resolved false, db') => (Rejected InvalidOrExpiredCode, db')
        | (Rejected e, db') => (Rejected e, db')
        end
    end.
Proof.
  unfold registerVerifyOtp, user_update, signJwt. async_simpl.
  destruct (user_findUnique email db) as [[id user]|]; [|done].
  destruct (verifyOtp tie now _ db) as [[[]|e] db']; cbn; [|done..].
  by destruct (User.isActive user).
Qed.

(** The store [registerRequestOtp] reaches for an email no user has: the new
    inactive user, then the code issued to it. *)
Lemma registerRequestOtp_new env bcrypt_hash sendMail now random email password db :
  (∀ id user, users db !! id = Some user → User.email user ≠ email) →
  let userId := fresh (dom (users db)) in
  let user := {| User.createdAt := now; User.updatedAt := now; User.email := email;
                 User.phone := None;
                 User.passwordHash := bcrypt_hash password SALT_ROUNDS;
                 User.isActive := false |} in
  users db !! userId = None ∧
  (registerRequestOtp env bcrypt_hash sendMail now random email password db).2 =
    (createOtpForUser env now random
       {| create_userId := userId; create_purpose := REGISTER; create_sentTo := email |}
       (set_users (insert userId user) db)).2.
Proof.
  intros Hno userId user. split; [apply not_elem_of_dom, is_fresh|].
  unfold registerRequestOtp. async_simpl. rewrite (user_findUnique_absent _ _ Hno).
  unfold Prisma.create. cbn. fold userId. fold user.
  change (set_users (insert userId user) db)
    with (set_users (λ _ : gmap string User.t, <[userId:=user]> (users db)) db).
  match goal with
  | |- context [createOtpForUser ?e ?n ?r ?q ?d] =>
      destruct (createOtpForUser_store e n r q d) as (otpId & _ & ->);
        [cbn; rewrite lookup_insert_eq; by eexists|]
  end.
  cbn.
  match goal with
  | |- context [EmailService.sendOtpEmail ?e ?s ?q ?d] =>
      pose proof (sendOtpEmail_store e s q d) as Hst;
      destruct (EmailService.sendOtpEmail e s q d) as [o db2]
  end.
  by cbn in *.
Qed.

(** The users after a registration request for a new email, and after the
    verification that follows it. *)
Lemma register_verify_users
    tie env bcrypt_hash jwt_sign sendMail now random email password db now' :
  (∀ id user, users db !! id = Some user → User.email user ≠ email) →
  (∀ id otp, otpCodes db !! id = Some otp → is_Some (users db !! OtpCode.userId otp)) →
  now' ≤ now + OTP_EXP_MINUTES env * 60000 →
  let requested :=
    registerRequestOtp env bcrypt_hash sendMail now random email password db in
  let verified :=
    registerVerifyOtp env jwt_sign tie now' email (generateOtpCode random 6) requested.2 in
  ∃ userId,
    users db !! userId = None ∧
    users requested.2 =
      <[userId := {| User.createdAt := now; User.updatedAt := now; User.email := email;
                     User.phone := None;
                     User.passwordHash := bcrypt_hash password SALT_ROUNDS;
                     User.isActive := false |}]> (users db) ∧
    verified.1 = Resolved (jwt_sign userId now' (JWT_SECRET env)) ∧
    users verified.2 =
      <[userId := {| User.createdAt := now; User.updatedAt := now'; User.email := email;
                     User.phone := None;
                     User.passwordHash := bcrypt_hash password SALT_ROUNDS;
                     User.isActive := true |}]> (users db).
Proof.
  intros Hno Hfk Hexp requested verified.
  destruct (registerRequestOtp_new env bcrypt_hash sendMail now random email password db Hno)
    as [Hfresh Hstore].
  set (userId := fresh (dom (users db))) in *.
  set (user := {| User.createdAt := now; User.updatedAt := now; User.email := email;
                  User.phone := None;
                  User.passwordHash := bcrypt_hash password SALT_ROUNDS;
                  User.isActive := false |}) in *.
  destruct (createOtpForUser_selected tie env now random
              {| create_userId := userId; create_purpose := REGISTER; create_sentTo := email |}
              (set_users (insert userId user) db))
    as (otpId & otp & _ & Hotpexp & Hissued & Hfind).
  { cbn. rewrite lookup_insert_eq. by eexists. }
  { intros id otp Hid (Hu & _). cbn in Hid, Hu.
    destruct (Hfk _ _ Hid) as [u Hu']. rewrite Hu in Hu'. congruence. }
  fold requested in Hstore. rewrite Hissued in Hstore. cbn [snd] in Hstore.
  exists userId. split; [done|]. split; [by rewrite Hstore|].
  subst verified. rewrite registerVerifyOtp_cases, Hstore.
  rewrite (user_findUnique_unique email _ userId user).
  2:{ cbn. apply lookup_insert_eq. }
  2:{ done. }
  2:{ intros id' user' Hid' He'. cbn in Hid'.
      apply lookup_insert_Some in Hid' as [[<- _]|[_ Hid']]; [done|].
      by destruct (Hno _ _ Hid'). }
  rewrite verifyOtp_cases. cbn [create_userId create_purpose] in Hfind. rewrite Hfind, Hotpexp.
  unfold JS.addMinutes.
  destruct (Z.ltb_spec (now + OTP_EXP_MINUTES env * 60000) now'); [lia|].
  cbn. split; [done|]. by rewrite alter_insert_eq.
Qed.

(** X5. Register then verify.  For an email no stored user has, in a store
    whose codes all belong to stored users, after [registerRequestOtp] at
    [now] a [registerVerifyOtp] with the generated code at a time [now'] not
    after the expiry resolves with the token of the new user and activates
    it, whether or not the mail was delivered; the user keeps the email and
    the hash set at registration. *)
Theorem registerRequestOtp_then_registerVerifyOtp
    tie env bcrypt_hash jwt_sign sendMail now random email password db now' :
  (∀ id user, users db !! id = Some user → User.email user ≠ email) →
  (∀ id otp, otpCodes db !! id = Some otp → is_Some (users db !! OtpCode.userId otp)) →
  now' ≤ now + OTP_EXP_MINUTES env * 60000 →
  let requested :=
    registerRequestOtp env bcrypt_hash sendMail now random email password db in
  let verified :=
    registerVerifyOtp env jwt_sign tie now' email (generateOtpCode random 6) requested.2 in
  ∃ userId,
    users db !! userId = None ∧
    verified.1 = Resolved (jwt_sign userId now' (JWT_SECRET env)) ∧
    users verified.2 !! userId =
      Some {| User.createdAt := now; User.updatedAt := now'; User.email := email;
              User.phone := None;
              User.passwordHash := bcrypt_hash password SALT_ROUNDS;
              User.isActive := true |}.
Proof.
  intros Hno Hfk Hexp requested verified.
  destruct (register_verify_users tie env bcrypt_hash jwt_sign sendMail now random email
              password db now' Hno Hfk Hexp) as (userId & Hfresh & _ & Htoken & Husers).
  exists userId. split; [done|]. split; [done|].
  subst verified requested. by rewrite Husers, lookup_insert_eq.
Qed.

(** Carol registers while the mail is down and still verifies. *)
Lemma registerRequestOtp_then_registerVerifyOtp_witness :
  let requested :=
    registerRequestOtp Example.env_no_smtp Example.bcrypt_hash (λ _, true) 1000
      Example.draws_123456 "c@x.com" "secret1" Example.users_db in
  let verified :=
    registerVerifyOtp Example.env_no_smtp Example.jwt_sign Example.by_id 5000 "c@x.com"
      (generateOtpCode Example.draws_123456 6) requested.2 in
  ∃ userId,
    users Example.users_db !! userId = None ∧
    verified.1 = Resolved (Example.jwt_sign userId 5000 (JWT_SECRET Example.env_no_smtp)) ∧
    users verified.2 !! userId =
      Some {| User.createdAt := 1000; User.updatedAt := 5000; User.email := "c@x.com";
              User.phone := None;
              User.passwordHash := Example.bcrypt_hash "secret1" SALT_ROUNDS;
              User.isActive := true |}.
Proof.
  apply (registerRequestOtp_then_registerVerifyOtp Example.by_id Example.env_no_smtp
           Example.bcrypt_hash Example.jwt_sign (λ _, true) 1000 Example.draws_123456
           "c@x.com" "secret1" Example.users_db 5000).
  - intros id user Hl. cbn in Hl.
    apply lookup_insert_Some in Hl as [[_ <-]|[_ Hl]]; [discriminate|].
    apply lookup_singleton_Some in Hl as [_ <-]. discriminate.
  - intros id otp Hl. cbn in Hl. by rewrite lookup_empty in Hl.
  - cbn. lia.
Defined.

(** [loginWithPassword] by cases on the user found. *)
Lemma loginWithPassword_cases env bcrypt_compare jwt_sign now email password db :
  loginWithPassword env bcrypt_compare jwt_sign now email password db =
    match user_findUnique email db with
    | None => (Rejected UserNotFoundOrInactive, db)
    | Some (id, user) =>
        if User.isActive user then
          if bcrypt_compare password (User.passwordHash user)
          then (Resolved (jwt_sign id now (JWT_SECRET env)), db)
          else (Rejected InvalidCredentials, db)
        else (Rejected UserNotFoundOrInactive, db)
    end.
Proof.
  unfold loginWithPassword, signJwt. async_simpl.
  destruct (user_findUnique email db) as [[id user]|]; [|done].
  destruct (User.isActive user); [|done]. cbn.
  by destruct (bcrypt_compare _ _).
Qed.

(** X6. [loginWithPassword] never writes to the store.  It resolves only for
    a stored active user with the email whose hash bcrypt accepts for the
    password, and then with the token signed for that user's id at the time
    of the call; when every
    stored user with the email is inactive, or none has it, it rejects with
    'User not found or inactive' whatever the password; and for the active
    user who has the email it rejects with 'Invalid credentials' exactly
    when bcrypt does not accept the password. *)
Theorem loginWithPassword_outcomes env bcrypt_compare jwt_sign now email password db :
  let r := loginWithPassword env bcrypt_compare jwt_sign now email password db in
  r.2 = db ∧
  (∀ token, r.1 = Resolved token →
     ∃ id user, users db !! id = Some user ∧ User.email user = email ∧
                User.isActive user = true ∧
                bcrypt_compare password (User.passwordHash user) = true ∧
                token = jwt_sign id now (JWT_SECRET env)) ∧
  ((∀ id user, users db !! id = Some user → User.email user = email →
               User.isActive user = false) →
   r.1 = Rejected UserNotFoundOrInactive) ∧
  (∀ id user,
     users db !! id = Some user → User.email user = email →
     (∀ id' user', users db !! id' = Some user' → User.email user' = email → id' = id) →
     User.isActive user = true →
     r.1 = if bcrypt_compare password (User.passwordHash user)
           then Resolved (jwt_sign id now (JWT_SECRET env))
           else Rejected InvalidCredentials).
Proof.
  intros r. subst r. rewrite loginWithPassword_cases.
  destruct (user_findUnique email db) as [[id user]|] eqn:Hfind.
  - pose proof (user_findUnique_Some _ _ _ _ Hfind) as [Hid He].
    destruct (User.isActive user) eqn:Hact.
    + destruct (bcrypt_compare password (User.passwordHash user)) eqn:Hcmp; cbn.
      * split; [done|]. split; [|split].
        -- intros token [= <-]. by exists id, user.
        -- intros Hin. specialize (Hin _ _ Hid He). congruence.
        -- intros id0 user0 Hid0 He0 Huniq _.
           pose proof (Huniq _ _ Hid He) as ->. simplify_eq. by rewrite Hcmp.
      * split; [done|]. split; [done|]. split.
        -- intros Hin. specialize (Hin _ _ Hid He). congruence.
        -- intros id0 user0 Hid0 He0 Huniq _.
           pose proof (Huniq _ _ Hid He) as ->. simplify_eq. by rewrite Hcmp.
    + cbn. split; [done|]. split; [done|]. split; [done|].
      intros id0 user0 Hid0 He0 Huniq Hact0.
      pose proof (Huniq _ _ Hid He) as ->. simplify_eq. congruence.
  - cbn. split; [done|]. split; [done|]. split; [done|].
    intros id0 user0 Hid0 He0 _ _.
    by destruct (user_findUnique_None _ _ _ _ Hfind Hid0).
Qed.

(** Alice logs in with her password and not with another; Bob, inactive,
    does not log in. *)
Lemma loginWithPassword_outcomes_witness :
  (loginWithPassword Example.env_smtp Example.bcrypt_compare Example.jwt_sign 7000
     "a@x.com" "hashA" Example.login_db).1
    = Resolved (Example.jwt_sign "u1" 7000 (JWT_SECRET Example.env_smtp)) ∧
  (loginWithPassword Example.env_smtp Example.bcrypt_compare Example.jwt_sign 7000
     "a@x.com" "hashB" Example.login_db).1 = Rejected InvalidCredentials ∧
  (loginWithPassword Example.env_smtp Example.bcrypt_compare Example.jwt_sign 7000
     "b@x.com" "hashB" Example.login_db).1 = Rejected UserNotFoundOrInactive.
Proof.
  assert (∀ id user, users Example.login_db !! id = Some user →
            (id = "u1" ∧ user = Example.dave) ∨ (id = "u2" ∧ user = Example.bob))
    as Hcases.
  { intros id user Hl. cbn in Hl.
    apply lookup_insert_Some in Hl as [[<- <-]|[_ Hl]]; [by left|].
    apply lookup_singleton_Some in Hl as [<- <-]. by right. }
  split; [|split].
  - apply (proj2 (proj2 (proj2 (loginWithPassword_outcomes Example.env_smtp
             Example.bcrypt_compare Example.jwt_sign 7000 "a@x.com" "hashA" Example.login_db)))
             "u1" Example.dave).
    + vm_compute. reflexivity.
    + reflexivity.
    + intros id' user' [[-> ->]|[-> ->]]%Hcases; [done|discriminate].
    + reflexivity.
  - apply (proj2 (proj2 (proj2 (loginWithPassword_outcomes Example.env_smtp
             Example.bcrypt_compare Example.jwt_sign 7000 "a@x.com" "hashB" Example.login_db)))
             "u1" Example.dave).
    + vm_compute. reflexivity.
    + reflexivity.
    + intros id' user' [[-> ->]|[-> ->]]%Hcases; [done|discriminate].
    + reflexivity.
  - apply (proj1 (proj2 (proj2 (loginWithPassword_outcomes Example.env_smtp
             Example.bcrypt_compare Example.jwt_sign 7000 "b@x.com" "hashB" Example.login_db)))).
    intros id user [[-> ->]|[-> ->]]%Hcases; [discriminate|reflexivity].
Defined.

(** [findUnique] on a table that gained one user with a new email. *)
Lemma user_findUnique_insert email db db' id user :
  (∀ id' user', users db !! id' = Some user' → User.email user' ≠ email) →
  users db' = <[id := user]> (users db) → User.email user = email →
  user_findUnique email db' = Some (id, user).
Proof.
  intros Hno Husers He. apply user_findUnique_unique; [|done|].
  - rewrite Husers. apply lookup_insert_eq.
  - intros id' user' Hid' He'. rewrite Husers in Hid'.
    apply lookup_insert_Some in Hid' as [[<- _]|[_ Hid']]; [done|].
    by destruct (Hno _ _ Hid').
Qed.

(** X7. An account logs in only once verified.  For an email no stored user
    has (codes belonging to stored users), after [registerRequestOtp] and
    before verification [loginWithPassword] rejects with 'User not found or
    inactive' whatever the password tried and whenever; after
    [registerVerifyOtp] with the generated code, within the expiry, a login
    at a time [later] with the registration password resolves with a token
    signed at [later] for the user the verification signed its token for,
    provided bcrypt accepts a password against its own hash.  (The two
    tokens are signed at different times and need not be the same string.) *)
Theorem login_only_after_verification
    tie env bcrypt_hash bcrypt_compare jwt_sign sendMail now random email password db
    now' guess early later :
  (∀ id user, users db !! id = Some user → User.email user ≠ email) →
  (∀ id otp, otpCodes db !! id = Some otp → is_Some (users db !! OtpCode.userId otp)) →
  now' ≤ now + OTP_EXP_MINUTES env * 60000 →
  bcrypt_compare password (bcrypt_hash password SALT_ROUNDS) = true →
  let requested :=
    registerRequestOtp env bcrypt_hash sendMail now random email password db in
  let verified :=
    registerVerifyOtp env jwt_sign tie now' email (generateOtpCode random 6) requested.2 in
  (loginWithPassword env bcrypt_compare jwt_sign early email guess requested.2).1
    = Rejected UserNotFoundOrInactive ∧
  ∃ userId,
    users db !! userId = None ∧
    verified.1 = Resolved (jwt_sign userId now' (JWT_SECRET env)) ∧
    (loginWithPassword env bcrypt_compare jwt_sign later email password verified.2).1
      = Resolved (jwt_sign userId later (JWT_SECRET env)).
Proof.
  intros Hno Hfk Hexp Hbcrypt requested verified.
  destruct (register_verify_users tie env bcrypt_hash jwt_sign sendMail now random email
              password db now' Hno Hfk Hexp)
    as (userId & Hfresh & Hreq & Htoken & Hver).
  fold requested in Hreq. fold requested verified in Htoken, Hver.
  split.
  - rewrite loginWithPassword_cases.
    by rewrite (user_findUnique_insert email db requested.2 userId _ Hno Hreq eq_refl).
  - exists userId. split; [done|]. split; [done|].
    rewrite loginWithPassword_cases.
    rewrite (user_findUnique_insert email db verified.2 userId _ Hno Hver eq_refl).
    cbn. by rewrite Hbcrypt.
Qed.

Lemma login_only_after_verification_witness :
  let requested :=
    registerRequestOtp Example.env_smtp Example.bcrypt_hash (λ _, true) 1000
      Example.draws_123456 "c@x.com" "secret1" Example.users_db in
  let verified :=
    registerVerifyOtp Example.env_smtp Example.jwt_sign Example.by_id 5000 "c@x.com"
      (generateOtpCode Example.draws_123456 6) requested.2 in
  (loginWithPassword Example.env_smtp Example.bcrypt_compare Example.jwt_sign 2000
     "c@x.com" "secret1" requested.2).1 = Rejected UserNotFoundOrInactive ∧
  ∃ userId,
    users Example.users_db !! userId = None ∧
    verified.1 = Resolved (Example.jwt_sign userId 5000 (JWT_SECRET Example.env_smtp)) ∧
    (loginWithPassword Example.env_smtp Example.bcrypt_compare Example.jwt_sign 9000
       "c@x.com" "secret1" verified.2).1
      = Resolved (Example.jwt_sign userId 9000 (JWT_SECRET Example.env_smtp)).
Proof.
  apply (login_only_after_verification Example.by_id Example.env_smtp Example.bcrypt_hash
           Example.bcrypt_compare Example.jwt_sign (λ _, true) 1000 Example.draws_123456
           "c@x.com" "secret1" Example.users_db 5000 "secret1" 2000 9000).
  - intros id user Hl. cbn in Hl.
    apply lookup_insert_Some in Hl as [[_ <-]|[_ Hl]]; [discriminate|].
    apply lookup_singleton_Some in Hl as [_ <-]. discriminate.
  - intros id otp Hl. cbn in Hl. by rewrite lookup_empty in Hl.
  - cbn. lia.
  - vm_compute. reflexivity.
Defined.

(** [confirmPasswordReset] by cases on the user found and on the verdict. *)
Lemma confirmPasswordReset_cases tie bcrypt_hash now email code newPassword db :
  confirmPasswordReset bcrypt_hash tie now email code newPassword db =
    match user_findUnique email db with
    | None => (Rejected UserNotFoundOrInactive, db)
    | Some (id, user) =>
        if User.isActive user then
          match verifyOtp tie now {| verify_userId := id; verify_purpose := PASSWORD_RESET;
                                 verify_code := code |} db with
          | (Resolved true, db') =>
              (Resolved (),
               set_users (alter (λ u,
                 {| User.createdAt := User.createdAt u; User.updatedAt := now;
                    User.email := User.email u; User.phone := User.phone u;
                    User.passwordHash := bcrypt_hash newPassword SALT_ROUNDS;
                    User.isActive := User.isActive u |}) id) db')
          | (Resolved false, db') => (Rejected InvalidOrExpiredCode, db')
          | (Rejected e, db') => (Rejected e, db')
          end
        else (Rejected UserNotFoundOrInactive, db)
    end.
Proof.
  unfold confirmPasswordReset, user_update. async_simpl.
  destruct (user_findUnique email db) as [[id user]|]; [|done].
  destruct (User.isActive user); [|done]. cbn.
  by destruct (verifyOtp tie now _ db) as [[[]|e] db'].
Qed.

(** X8. [confirmPasswordReset] rejects with 'User not found or inactive' when
    no stored user has the email or the one who has it is inactive, and with
    'Invalid or expired code' when [verifyOtp] does not accept the code for
    that user and PASSWORD_RESET; in both cases the store, and so the old
    password hash, is as it was.  When the code is accepted it resolves,
    the user's hash is the bcrypt hash of the new password, its email, phone
    and activity are unchanged, and no other user is touched. *)
Theorem confirmPasswordReset_outcomes tie bcrypt_hash now email code newPassword db :
  let r := confirmPasswordReset bcrypt_hash tie now email code newPassword db in
  ((∀ id user, users db !! id = Some user → User.email user = email →
               User.isActive user = false) →
   r = (Rejected UserNotFoundOrInactive, db)) ∧
  (∀ id user,
     users db !! id = Some user → User.email user = email →
     (∀ id' user', users db !! id' = Some user' → User.email user' = email → id' = id) →
     User.isActive user = true →
     let v := verifyOtp tie now {| verify_userId := id; verify_purpose := PASSWORD_RESET;
                               verify_code := code |} db in
     (v.1 = Resolved false → r = (Rejected InvalidOrExpiredCode, db)) ∧
     (v.1 = Resolved true →
      r.1 = Resolved () ∧
      otpCodes r.2 = otpCodes v.2 ∧
      users r.2 !! id =
        Some {| User.createdAt := User.createdAt user; User.updatedAt := now;
                User.email := email; User.phone := User.phone user;
                User.passwordHash := bcrypt_hash newPassword SALT_ROUNDS;
                User.isActive := true |} ∧
      (∀ id', id' ≠ id → users r.2 !! id' = users db !! id'))).
Proof.
  intros r. subst r. rewrite confirmPasswordReset_cases. split.
  - intros Hin.
    destruct (user_findUnique email db) as [[id user]|] eqn:Hfind; [|done].
    apply user_findUnique_Some in Hfind as [Hid He]. by rewrite (Hin _ _ Hid He).
  - intros id user Hid He Huniq Hact v.
    rewrite (user_findUnique_unique _ _ _ _ Hid He Huniq), Hact.
    destruct (verifyOtp_frame tie now {| verify_userId := id; verify_purpose := PASSWORD_RESET;
                                     verify_code := code |} db) as (ok & f & Hv & Hf).
    subst v. rewrite Hv. cbn [fst snd]. split.
    + intros [= ->]. rewrite (Hf eq_refl). by destruct db.
    + intros [= ->]. cbn. split; [done|]. split; [done|]. split.
      * rewrite lookup_alter_eq, Hid. cbn. by rewrite He, Hact.
      * intros id' Hne. by rewrite lookup_alter_ne.
Qed.

Lemma confirmPasswordReset_outcomes_witness :
  confirmPasswordReset Example.bcrypt_hash Example.by_id 5000 "b@x.com" "123456" "newpass"
    Example.twin_codes_db = (Rejected UserNotFoundOrInactive, Example.twin_codes_db) ∧
  confirmPasswordReset Example.bcrypt_hash Example.by_id 5000 "a@x.com" "000000" "newpass"
    Example.twin_codes_db = (Rejected InvalidOrExpiredCode, Example.twin_codes_db) ∧
  (confirmPasswordReset Example.bcrypt_hash Example.by_id 5000 "a@x.com" "123456" "newpass"
     Example.twin_codes_db).1 = Resolved ().
Proof.
  assert (∀ id user, users Example.twin_codes_db !! id = Some user →
                     id = "u1" ∧ user = Example.alice) as Hcases.
  { intros id user Hl. vm_compute in Hl.
    change (({[ "u1" := Example.alice ]} : gmap string User.t) !! id = Some user) in Hl.
    by apply lookup_singleton_Some in Hl as [<- <-]. }
  split; [|split].
  - apply (proj1 (confirmPasswordReset_outcomes Example.by_id Example.bcrypt_hash 5000 "b@x.com"
                    "123456" "newpass" Example.twin_codes_db)).
    intros id user [-> ->]%Hcases. discriminate.
  - apply (proj2 (confirmPasswordReset_outcomes Example.by_id Example.bcrypt_hash 5000 "a@x.com"
                    "000000" "newpass" Example.twin_codes_db) "u1" Example.alice).
    + vm_compute. reflexivity.
    + reflexivity.
    + by intros id' user' [-> _]%Hcases _.
    + reflexivity.
    + vm_compute. reflexivity.
  - apply (proj2 (confirmPasswordReset_outcomes Example.by_id Example.bcrypt_hash 5000 "a@x.com"
                    "123456" "newpass" Example.twin_codes_db) "u1" Example.alice).
    + vm_compute. reflexivity.
    + reflexivity.
    + by intros id' user' [-> _]%Hcases _.
    + reflexivity.
    + vm_compute. reflexivity.
Defined.

(** The store a reset round trip reaches: the user carries the new hash and
    is still the only one with the email, and no unused PASSWORD_RESET code of
    the user carries the digits. *)
Lemma reset_round_trip tie env bcrypt_hash sendMail now random email newPassword db
    id user now' :
  users db !! id = Some user → User.email user = email →
  (∀ id' user', users db !! id' = Some user' → User.email user' = email → id' = id) →
  User.isActive user = true →
  let code := generateOtpCode random 6 in
  let q := {| verify_userId := id; verify_purpose := PASSWORD_RESET; verify_code := code |} in
  (∀ otpId otp, otpCodes db !! otpId = Some otp → ¬ verify_where q (otpId, otp)) →
  now' ≤ now + OTP_EXP_MINUTES env * 60000 →
  let requested := requestPasswordReset env sendMail now random email db in
  let confirmed := confirmPasswordReset bcrypt_hash tie now' email code newPassword requested.2 in
  confirmed.1 = Resolved () ∧
  users confirmed.2 !! id =
    Some {| User.createdAt := User.createdAt user; User.updatedAt := now';
            User.email := email; User.phone := User.phone user;
            User.passwordHash := bcrypt_hash newPassword SALT_ROUNDS;
            User.isActive := true |} ∧
  (∀ id' user', users confirmed.2 !! id' = Some user' →
                User.email user' = email → id' = id) ∧
  (∀ otpId otp, otpCodes confirmed.2 !! otpId = Some otp → ¬ verify_where q (otpId, otp)).
Proof.
  intros Hid He Huniq Hact code q Hnone Hexp requested confirmed.
  destruct (createOtpForUser_selected tie env now random
              {| create_userId := id; create_purpose := PASSWORD_RESET;
                 create_sentTo := email |} db)
    as (otpId & otp & Hfresh & Hotpexp & Hissued & Hfind).
  { by eexists. }
  { intros oid o Ho Hw. by destruct (Hnone _ _ Ho). }
  cbn [create_userId create_purpose] in Hfind. fold code in Hfind. fold q in Hfind.
  assert (requested.2 = set_otpCodes (insert otpId otp) db) as Hreq.
  { subst requested. rewrite requestPasswordReset_cases.
    rewrite (user_findUnique_unique _ _ _ _ Hid He Huniq), Hact. cbn [snd].
    by rewrite Hissued. }
  set (hashed := λ u : User.t,
         {| User.createdAt := User.createdAt u; User.updatedAt := now';
            User.email := User.email u; User.phone := User.phone u;
            User.passwordHash := bcrypt_hash newPassword SALT_ROUNDS;
            User.isActive := User.isActive u |}).
  assert (confirmed =
            (Resolved (),
             set_users (alter hashed id)
               (set_otpCodes (alter (OtpCode.set_usedAt now') otpId)
                  (set_otpCodes (insert otpId otp) db)))) as Hconf.
  { subst confirmed. rewrite confirmPasswordReset_cases, Hreq.
    rewrite (user_findUnique_unique email _ id user) by done. rewrite Hact.
    fold q. rewrite verifyOtp_cases, Hfind, Hotpexp. unfold JS.addMinutes.
    by destruct (Z.ltb_spec (now + OTP_EXP_MINUTES env * 60000) now'); [lia|]. }
  split; [by rewrite Hconf|]. split; [|split].
  - rewrite Hconf. cbn. rewrite lookup_alter_eq, Hid. cbn. unfold hashed.
    by rewrite He, Hact.
  - intros id' user' Hid' He'. rewrite Hconf in Hid'. cbn in Hid'.
    destruct (decide (id' = id)) as [|Hne]; [done|].
    rewrite lookup_alter_ne in Hid' by done. by eapply Huniq.
  - intros oid o Ho Hw. rewrite Hconf in Ho. cbn in Ho.
    destruct (decide (oid = otpId)) as [->|Hne].
    + rewrite lookup_alter_eq, lookup_insert_eq in Ho. injection Ho as <-.
      by destruct Hw as (_ & _ & _ & Hu).
    + rewrite lookup_alter_ne, lookup_insert_ne in Ho by done.
      by destruct (Hnone _ _ Ho).
Qed.

(** X9. Reset round trip.  For the active user who has the email, when no
    stored unused PASSWORD_RESET code of that user carries the digits about
    to be drawn: after [requestPasswordReset] at [now], a
    [confirmPasswordReset] with the generated code at a time [now'] not after
    the expiry resolves and stores the bcrypt hash of the new password (the
    mail need not have been delivered); a login with the new password at a
    time [later] then resolves with the token signed for the user at
    [later], provided bcrypt accepts a password against its own hash.  On
    the store reached the code is spent: a further [confirmPasswordReset]
    with it, at any time and with any password, is rejected with 'Invalid or
    expired code' and changes nothing.  The digits are not retired, though:
    after one more [requestPasswordReset] that draws the same digits, a
    [confirmPasswordReset] with them within the new expiry resolves
    again. *)
Theorem requestPasswordReset_then_confirmPasswordReset
    tie env bcrypt_hash bcrypt_compare jwt_sign sendMail now random email newPassword db
    id user now' later :
  users db !! id = Some user → User.email user = email →
  (∀ id' user', users db !! id' = Some user' → User.email user' = email → id' = id) →
  User.isActive user = true →
  let code := generateOtpCode random 6 in
  let q := {| verify_userId := id; verify_purpose := PASSWORD_RESET; verify_code := code |} in
  (∀ otpId otp, otpCodes db !! otpId = Some otp → ¬ verify_where q (otpId, otp)) →
  now' ≤ now + OTP_EXP_MINUTES env * 60000 →
  let requested := requestPasswordReset env sendMail now random email db in
  let confirmed := confirmPasswordReset bcrypt_hash tie now' email code newPassword requested.2 in
  confirmed.1 = Resolved () ∧
  users confirmed.2 !! id =
    Some {| User.createdAt := User.createdAt user; User.updatedAt := now';
            User.email := email; User.phone := User.phone user;
            User.passwordHash := bcrypt_hash newPassword SALT_ROUNDS;
            User.isActive := true |} ∧
  (bcrypt_compare newPassword (bcrypt_hash newPassword SALT_ROUNDS) = true →
   (loginWithPassword env bcrypt_compare jwt_sign later email newPassword confirmed.2).1
     = Resolved (jwt_sign id later (JWT_SECRET env))) ∧
  (∀ tie' now'' otherPassword,
     confirmPasswordReset bcrypt_hash tie' now'' email code otherPassword confirmed.2
     = (Rejected InvalidOrExpiredCode, confirmed.2)) ∧
  (∀ tie' sendMail' again again' otherPassword,
     again' ≤ again + OTP_EXP_MINUTES env * 60000 →
     let requested' := requestPasswordReset env sendMail' again random email confirmed.2 in
     (confirmPasswordReset bcrypt_hash tie' again' email code otherPassword requested'.2).1
     = Resolved ()).
Proof.
  intros Hid He Huniq Hact code q Hnone Hexp requested confirmed.
  destruct (reset_round_trip tie env bcrypt_hash sendMail now random email newPassword db
              id user now' Hid He Huniq Hact Hnone Hexp)
    as (Hok & Hid' & Huniq' & Hnone').
  fold code q requested confirmed in Hok, Hid', Huniq', Hnone'.
  split; [done|]. split; [done|]. split; [|split].
  - intros Hbcrypt. rewrite loginWithPassword_cases.
    rewrite (user_findUnique_unique email _ id _ Hid' eq_refl Huniq').
    cbn. by rewrite Hbcrypt.
  - intros tie' now'' otherPassword. rewrite confirmPasswordReset_cases.
    rewrite (user_findUnique_unique email _ id _ Hid' eq_refl Huniq').
    cbn [User.isActive]. fold q. rewrite verifyOtp_cases.
    destruct (otpCode_findFirst tie' q confirmed.2) as [[oid o]|] eqn:Hsel; [|done].
    apply otpCode_findFirst_Some in Hsel as [Ho Hw]. by destruct (Hnone' _ _ Ho).
  - intros tie' sendMail' again again' otherPassword Hexp' requested'.
    by destruct (reset_round_trip tie' env bcrypt_hash sendMail' again random email
                   otherPassword confirmed.2 id _ again' Hid' eq_refl Huniq' eq_refl
                   Hnone' Hexp') as (Hok' & _).
Qed.

(** Alice resets her password at 1000, confirms at 5000 and logs in at 7000;
    the code is refused at 6000, and accepted again at 9000 after a second
    request at 8000 drew the same digits. *)
Lemma requestPasswordReset_then_confirmPasswordReset_witness :
  let requested :=
    requestPasswordReset Example.env_smtp (λ _, true) 1000 Example.draws_123456
      "a@x.com" Example.alice_db in
  let confirmed :=
    confirmPasswordReset Example.bcrypt_hash Example.by_id 5000 "a@x.com"
      (generateOtpCode Example.draws_123456 6) "newpass" requested.2 in
  confirmed.1 = Resolved () ∧
  (loginWithPassword Example.env_smtp Example.bcrypt_compare Example.jwt_sign 7000
     "a@x.com" "newpass" confirmed.2).1
    = Resolved (Example.jwt_sign "u1" 7000 (JWT_SECRET Example.env_smtp)) ∧
  confirmPasswordReset Example.bcrypt_hash Example.by_id 6000 "a@x.com"
    (generateOtpCode Example.draws_123456 6) "other" confirmed.2
    = (Rejected InvalidOrExpiredCode, confirmed.2) ∧
  (confirmPasswordReset Example.bcrypt_hash Example.by_id 9000 "a@x.com"
     (generateOtpCode Example.draws_123456 6) "other"
     (requestPasswordReset Example.env_smtp (λ _, true) 8000 Example.draws_123456
        "a@x.com" confirmed.2).2).1 = Resolved ().
Proof.
  destruct (requestPasswordReset_then_confirmPasswordReset Example.by_id Example.env_smtp
              Example.bcrypt_hash Example.bcrypt_compare Example.jwt_sign (λ _, true)
              1000 Example.draws_123456 "a@x.com" "newpass" Example.alice_db
              "u1" Example.alice 5000 7000) as (Hok & _ & Hlogin & Hreplay & Hagain).
  - vm_compute. reflexivity.
  - reflexivity.
  - intros id' user' Hl _. cbn in Hl. by apply lookup_singleton_Some in Hl as [<- _].
  - reflexivity.
  - intros otpId otp Hl. cbn in Hl. by rewrite lookup_empty in Hl.
  - cbn. lia.
  - split; [exact Hok|]. split; [apply Hlogin; vm_compute; reflexivity|].
    split; [apply (Hreplay Example.by_id 6000 "other")|].
    apply (Hagain Example.by_id (λ _, true) 8000 9000 "other"). cbn. lia.
Defined.

End AuthFlows.

(** ** Progress: frame, edge cases and invariants *)

Section ProgressInvariants.

Import CourseService.

Implicit Types (db : Db) (now p : Z) (userId lessonId courseId : string).

Local Arguments updateCourseProgress : simpl never.
Local Arguments updateLessonProgress : simpl never.

(** [updateCourseProgress] by cases: the course row it writes holds the
    rollup of the store it runs on. *)
Lemma updateCourseProgress_cases now userId courseId db :
  updateCourseProgress now userId courseId db =
    match courses db !! courseId with
    | None => (Rejected CourseNotFound, db)
    | Some _ =>
        match Spec.active_lessons db courseId with
        | [] => (Resolved (), db)
        | _ =>
            (Resolved (),
             set_userCourseProgress (insert (userId, courseId)
               {| UserCourseProgress.progressPercent :=
                    Spec.course_percent db userId courseId;
                  UserCourseProgress.completedAt :=
                    if Spec.course_percent db userId courseId =? 100 then Some now
                    else userCourseProgress db !! (userId, courseId)
                           ≫= UserCourseProgress.completedAt |}) db)
        end
    end.
Proof.
  unfold updateCourseProgress. async_simpl.
  destruct (courses db !! courseId) as [c|]; [|done]. cbn.
  rewrite active_lessons_query.
  destruct (course_lessons courseId db) as [|l1 ls] eqn:Hls; [done|].
  cbn [length Nat.eqb fmap list_fmap]. cbn -[Prisma.findMany].
  assert (JS.Math_round_div
            (JS.reduce_sum (λ lp, UserLessonProgress.progressPercent lp.2)
               (Prisma.findMany (λ r, r.1.1 = userId ∧ r.1.2 ∈ (l1 :: ls).*1)
                  (userLessonProgress db)))
            (Z.of_nat (length (l1 :: ls)))
          = Spec.course_percent db userId courseId) as Hpct.
  { unfold Spec.course_percent.
    pose proof (active_lessons_NoDup db courseId) as Hnd.
    rewrite !active_lessons_query. rewrite active_lessons_query in Hnd.
    rewrite Hls in *.
    by rewrite (findMany_sum _ _ _ Hnd), length_fmap. }
  cbn [length fmap list_fmap] in Hpct. rewrite Hpct.
  unfold Prisma.upsert. cbn. unfold set_userCourseProgress. cbn.
  by destruct (userCourseProgress db !! (userId, courseId)).
Qed.

(** [updateLessonProgress] by cases. *)
Lemma updateLessonProgress_cases now userId lessonId p db :
  updateLessonProgress now userId lessonId p db =
    if (p <? 0) || (p >? 100) then (Rejected ProgressOutOfRange, db)
    else match lessons db !! lessonId with
         | None => (Rejected LessonNotFound, db)
         | Some lesson =>
             let row :=
               {| UserLessonProgress.progressPercent := p;
                  UserLessonProgress.completedAt :=
                    if p =? 100 then Some now
                    else userLessonProgress db !! (userId, lessonId)
                           ≫= UserLessonProgress.completedAt |} in
             let r := updateCourseProgress now userId (Lesson.courseId lesson)
                        (set_userLessonProgress (insert (userId, lessonId) row) db) in
             (match r.1 with
              | Resolved _ => Resolved row
              | Rejected e => Rejected e
              end, r.2)
         end.
Proof.
  unfold updateLessonProgress. destruct ((p <? 0) || (p >? 100)); [done|].
  async_simpl. destruct (lessons db !! lessonId) as [lesson|]; [|done].
  unfold Prisma.upsert. cbn.
  replace (set_userLessonProgress _ db)
    with (set_userLessonProgress (insert (userId, lessonId)
            {| UserLessonProgress.progressPercent := p;
               UserLessonProgress.completedAt :=
                 if p =? 100 then Some now
                 else userLessonProgress db !! (userId, lessonId)
                        ≫= UserLessonProgress.completedAt |}) db)
    by (unfold set_userLessonProgress; cbn;
        by destruct (userLessonProgress db !! (userId, lessonId))).
  destruct (updateCourseProgress now userId (Lesson.courseId lesson) _) as [[[]|e] db2];
    cbn; [|done].
  by destruct (userLessonProgress db !! (userId, lessonId)).
Qed.

(** The progress rows [updateLessonProgress] can write. *)
Lemma updateLessonProgress_keys now userId lessonId p db :
  let db' := (updateLessonProgress now userId lessonId p db).2 in
  (∀ key, key ≠ (userId, lessonId) →
          userLessonProgress db' !! key = userLessonProgress db !! key) ∧
  (∀ key, (∀ lesson, lessons db !! lessonId = Some lesson →
                     key ≠ (userId, Lesson.courseId lesson)) →
          userCourseProgress db' !! key = userCourseProgress db !! key).
Proof.
  intros db'. subst db'. rewrite updateLessonProgress_cases.
  destruct ((p <? 0) || (p >? 100)); [done|].
  destruct (lessons db !! lessonId) as [lesson|]; [|done].
  cbn [snd]. rewrite updateCourseProgress_cases. cbn [courses lessons set_userLessonProgress].
  destruct (courses db !! Lesson.courseId lesson); cbn.
  - destruct (Spec.active_lessons _ _); cbn.
    + split; [intros key Hne; by rewrite lookup_insert_ne|done].
    + split; [intros key Hne; by rewrite lookup_insert_ne|].
      intros key Hne. rewrite lookup_insert_ne; [done|].
      intros <-. by apply (Hne lesson).
  - split; [intros key Hne; by rewrite lookup_insert_ne|done].
Qed.

(** X10. [updateLessonProgress] writes at most two rows: the lesson progress
    row of that user and lesson, and the course progress row of that user and
    the lesson's course.  Every other progress row, in particular every row
    of another user, and every other table is left as it was, whether the
    call resolves or rejects. *)
Theorem updateLessonProgress_touches_own_rows now userId lessonId p db :
  let db' := (updateLessonProgress now userId lessonId p db).2 in
  (∀ key, key ≠ (userId, lessonId) →
          userLessonProgress db' !! key = userLessonProgress db !! key) ∧
  (∀ key, (∀ lesson, lessons db !! lessonId = Some lesson →
                     key ≠ (userId, Lesson.courseId lesson)) →
          userCourseProgress db' !! key = userCourseProgress db !! key) ∧
  (∀ other key, other ≠ userId →
     userLessonProgress db' !! (other, key) = userLessonProgress db !! (other, key) ∧
     userCourseProgress db' !! (other, key) = userCourseProgress db !! (other, key)) ∧
  users db' = users db ∧ otpCodes db' = otpCodes db ∧ courses db' = courses db ∧
  lessons db' = lessons db ∧ assignments db' = assignments db ∧
  userAssignments db' = userAssignments db.
Proof.
  intros db'.
  destruct (updateLessonProgress_keys now userId lessonId p db) as [Hlp Hcp].
  split; [done|]. split; [done|]. split.
  - intros other key Hne. split.
    + apply Hlp. congruence.
    + apply Hcp. intros lesson _. congruence.
  - apply updateLessonProgress_frame.
Qed.

(** u1 has completed lesson A at time 1000, which put the course at 33.  A
    call of u2 leaves both rows of u1 as they were, and so does, for the
    lesson row, a call of u1 on lesson B. *)
Lemma updateLessonProgress_touches_own_rows_witness :
  userLessonProgress (updateLessonProgress 2000 "u2" "lA" 50 Example.completed_db).2
    !! ("u1", "lA") =
    Some {| UserLessonProgress.progressPercent := 100;
            UserLessonProgress.completedAt := Some 1000 |} ∧
  userCourseProgress (updateLessonProgress 2000 "u2" "lA" 50 Example.completed_db).2
    !! ("u1", "c1") =
    Some {| UserCourseProgress.progressPercent := 33;
            UserCourseProgress.completedAt := None |} ∧
  userLessonProgress (updateLessonProgress 2000 "u1" "lB" 50 Example.completed_db).2
    !! ("u1", "lA") =
    Some {| UserLessonProgress.progressPercent := 100;
            UserLessonProgress.completedAt := Some 1000 |}.
Proof.
  split; [|split].
  - etrans.
    + apply (proj1 (proj2 (proj2 (updateLessonProgress_touches_own_rows 2000 "u2" "lA" 50
               Example.completed_db))) "u1" "lA").
      discriminate.
    + vm_compute. reflexivity.
  - etrans.
    + apply (proj1 (proj2 (proj2 (updateLessonProgress_touches_own_rows 2000 "u2" "lA" 50
               Example.completed_db))) "u1" "c1").
      discriminate.
    + vm_compute. reflexivity.
  - etrans.
    + apply (proj1 (updateLessonProgress_touches_own_rows 2000 "u1" "lB" 50
               Example.completed_db) ("u1", "lA")).
      discriminate.
    + vm_compute. reflexivity.
Defined.

(** X11. Edge cases of [updateLessonProgress] for a percent in range.  An
    unknown lesson is rejected with 'Lesson not found' and nothing is
    written.  When the lesson's course has no active lesson the percent is
    stored and no course progress row is written.  When the lesson itself is
    inactive its percent is stored but does not count: the course row
    written holds the rollup of the store as it was before the call. *)
Theorem updateLessonProgress_edge_cases now userId lessonId p db :
  0 ≤ p ≤ 100 →
  let r := updateLessonProgress now userId lessonId p db in
  (lessons db !! lessonId = None → r = (Rejected LessonNotFound, db)) ∧
  (∀ lesson,
     lessons db !! lessonId = Some lesson →
     is_Some (courses db !! Lesson.courseId lesson) →
     Spec.active_lessons db (Lesson.courseId lesson) = [] →
     (∃ row, r.1 = Resolved row ∧
             userLessonProgress r.2 !! (userId, lessonId) = Some row ∧
             UserLessonProgress.progressPercent row = p) ∧
     userCourseProgress r.2 = userCourseProgress db) ∧
  (∀ lesson,
     lessons db !! lessonId = Some lesson →
     is_Some (courses db !! Lesson.courseId lesson) →
     Lesson.isActive lesson = false →
     Spec.active_lessons db (Lesson.courseId lesson) ≠ [] →
     (∃ row, userLessonProgress r.2 !! (userId, lessonId) = Some row ∧
             UserLessonProgress.progressPercent row = p) ∧
     (∃ row, userCourseProgress r.2 !! (userId, Lesson.courseId lesson) = Some row ∧
             UserCourseProgress.progressPercent row =
               Spec.course_percent db userId (Lesson.courseId lesson))).
Proof.
  intros Hp r. subst r. rewrite updateLessonProgress_cases.
  apply progress_range_check in Hp. rewrite Hp. split; [|split].
  - by intros ->.
  - intros lesson Hl [c Hc] Hnil. rewrite Hl. cbn [fst snd].
    rewrite updateCourseProgress_cases. cbn [courses set_userLessonProgress]. rewrite Hc.
    rewrite (active_lessons_ext db (set_userLessonProgress _ db) _ eq_refl), Hnil. cbn.
    split; [|done]. eexists. split; [done|]. by rewrite lookup_insert_eq.
  - intros lesson Hl [c Hc] Hinactive Hne. rewrite Hl. cbn [fst snd].
    rewrite updateCourseProgress_cases. cbn [courses set_userLessonProgress]. rewrite Hc.
    rewrite (active_lessons_ext db (set_userLessonProgress _ db) _ eq_refl).
    destruct (Spec.active_lessons db (Lesson.courseId lesson)) as [|x xs] eqn:Hact; [done|].
    cbn. split.
    + eexists. by rewrite lookup_insert_eq.
    + rewrite lookup_insert_eq. eexists. split; [done|]. cbn.
      unfold Spec.course_percent.
      rewrite (active_lessons_ext db (set_userLessonProgress _ db) _ eq_refl), Hact.
      do 2 f_equal. apply list_fmap_ext. intros _ l' Hl'%list_elem_of_lookup_2.
      unfold Spec.lesson_percent. cbn. rewrite lookup_insert_ne; [done|].
      intros [= <-]. rewrite <-Hact in Hl'.
      apply active_lessons_elem in Hl' as (lesson' & Hl'' & _ & Ha). congruence.
Qed.

Lemma updateLessonProgress_edge_cases_witness :
  updateLessonProgress 1000 "u1" "zz" 50 Example.course_db
    = (Rejected LessonNotFound, Example.course_db) ∧
  userCourseProgress (updateLessonProgress 1000 "u1" "lH" 50 Example.hidden_db).2
    = userCourseProgress Example.hidden_db ∧
  (∃ row, userCourseProgress (updateLessonProgress 1000 "u1" "lD" 100 Example.mixed_db).2
            !! ("u1", "c1") = Some row ∧
          UserCourseProgress.progressPercent row = 0).
Proof.
  split; [|split].
  - apply (proj1 (updateLessonProgress_edge_cases 1000 "u1" "zz" 50 Example.course_db
                    ltac:(lia))).
    vm_compute. reflexivity.
  - apply (proj1 (proj2 (updateLessonProgress_edge_cases 1000 "u1" "lH" 50
                           Example.hidden_db ltac:(lia))) Example.lessonH).
    + vm_compute. reflexivity.
    + eexists. vm_compute. reflexivity.
    + vm_compute. reflexivity.
  - destruct (proj2 (proj2 (updateLessonProgress_edge_cases 1000 "u1" "lD" 100
                              Example.mixed_db ltac:(lia))) Example.lessonD)
      as [_ (row & Hrow & Hpct)].
    + vm_compute. reflexivity.
    + eexists. vm_compute. reflexivity.
    + reflexivity.
    + vm_compute. discriminate.
    + exists row. split; [exact Hrow|]. rewrite Hpct. vm_compute. reflexivity.
Defined.

Lemma Zsum_bounds {A} (f : A → Z) (xs : list A) (lo hi : Z) :
  (∀ x, x ∈ xs → lo ≤ f x ≤ hi) →
  lo * Z.of_nat (length xs) ≤ Spec.Zsum (f <$> xs) ≤ hi * Z.of_nat (length xs).
Proof.
  unfold Spec.Zsum. induction xs as [|x xs IH]; intros Hb; cbn [length fmap list_fmap foldr].
  - lia.
  - assert (lo ≤ f x ≤ hi) by (apply Hb; by left).
    assert (∀ y, y ∈ xs → lo ≤ f y ≤ hi) as Hb' by (intros y Hy; apply Hb; by right).
    specialize (IH Hb'). lia.
Qed.

Lemma Zsum_mono {A} (f g : A → Z) (xs : list A) :
  (∀ x, x ∈ xs → f x ≤ g x) → Spec.Zsum (f <$> xs) ≤ Spec.Zsum (g <$> xs).
Proof.
  unfold Spec.Zsum. induction xs as [|x xs IH]; intros Hb; cbn [fmap list_fmap foldr].
  - lia.
  - assert (f x ≤ g x) by (apply Hb; by left).
    assert (∀ y, y ∈ xs → f y ≤ g y) as Hb' by (intros y Hy; apply Hb; by right).
    specialize (IH Hb'). lia.
Qed.

Lemma Math_round_div_bounds (s n : Z) :
  0 < n → 0 ≤ s ≤ 100 * n → 0 ≤ JS.Math_round_div s n ≤ 100.
Proof.
  intros Hn Hs. unfold JS.Math_round_div. split.
  - apply Z.div_pos; lia.
  - assert ((2 * s + n) `div` (2 * n) < 101); [|lia].
    apply Z.div_lt_upper_bound; lia.
Qed.

Lemma Math_round_div_mono (s s' n : Z) :
  0 < n → s ≤ s' → JS.Math_round_div s n ≤ JS.Math_round_div s' n.
Proof. intros Hn Hs. unfold JS.Math_round_div. apply Z.div_le_mono; lia. Qed.

(** The rollup of lesson percents within 0..100 lies within 0..100. *)
Lemma course_percent_bounds db userId courseId :
  map_Forall (λ _ row, 0 ≤ UserLessonProgress.progressPercent row ≤ 100)
    (userLessonProgress db) →
  Spec.active_lessons db courseId ≠ [] →
  0 ≤ Spec.course_percent db userId courseId ≤ 100.
Proof.
  intros Hrange Hne. unfold Spec.course_percent.
  apply Math_round_div_bounds.
  - destruct (Spec.active_lessons db courseId); [done|]. cbn [length]. lia.
  - rewrite <-(Z.mul_0_l (Z.of_nat (length (Spec.active_lessons db courseId)))) at 1.
    apply Zsum_bounds. intros l _. unfold Spec.lesson_percent.
    destruct (userLessonProgress db !! (userId, l)) as [row|] eqn:Hrow; [|lia].
    by apply (Hrange _ _ Hrow).
Qed.

(** X12. The progress tables stay within range: when every stored lesson and
    course percent lies within 0..100, it still does after any
    [updateLessonProgress] and any [submitAssignment], resolved or
    rejected. *)
Theorem percent_in_range_preserved db :
  Invariant.percent_in_range db →
  (∀ now userId lessonId p,
     Invariant.percent_in_range (updateLessonProgress now userId lessonId p db).2) ∧
  (∀ schema now userId assignmentId answers score,
     Invariant.percent_in_range
       (submitAssignment schema now userId assignmentId answers score db).2).
Proof.
  assert (∀ db now userId lessonId p,
            Invariant.percent_in_range db →
            Invariant.percent_in_range (updateLessonProgress now userId lessonId p db).2)
    as Hupd.
  { clear db. intros db now userId lessonId p [Hlp Hcp].
    rewrite updateLessonProgress_cases.
    destruct ((p <? 0) || (p >? 100)) eqn:Hp; [done|].
    apply progress_range_check in Hp.
    destruct (lessons db !! lessonId) as [lesson|]; [|done]. cbn [snd].
    match goal with
    | |- context [set_userLessonProgress (insert ?k ?row) db] =>
        set (db1 := set_userLessonProgress (insert k row) db)
    end.
    assert (map_Forall (λ _ row, 0 ≤ UserLessonProgress.progressPercent row ≤ 100)
              (userLessonProgress db1)) as Hlp1.
    { subst db1. cbn. by apply map_Forall_insert_2. }
    rewrite updateCourseProgress_cases.
    destruct (courses db1 !! Lesson.courseId lesson); [|done].
    destruct (Spec.active_lessons db1 (Lesson.courseId lesson)) as [|x xs] eqn:Hact;
      [done|].
    split; [done|]. cbn. apply map_Forall_insert_2; [|done]. cbn.
    apply course_percent_bounds; [done|]. by rewrite Hact. }
  intros Hinv. split; [intros; by apply Hupd|].
  intros schema now userId assignmentId answers score. rewrite submitAssignment_cases.
  destruct (assignments db !! assignmentId) as [asg|]; [|done].
  destruct ((score <? 0) || (score >? Assignment.maxScore asg)); [done|].
  destruct (match answers with None => _ | Some _ => _ end); [done|].
  destruct (lessons db !! Assignment.lessonId asg); [|done].
  cbn [snd]. by apply Hupd.
Qed.

Lemma percent_in_range_preserved_witness :
  Invariant.percent_in_range
    (updateLessonProgress 2000 "u1" "lB" 70 Example.completed_db).2 ∧
  Invariant.percent_in_range
    (submitAssignment Example.answers_json 3000 "u1" "qA" (Some "{}") 70
       Example.completed_db).2.
Proof.
  assert (Invariant.percent_in_range Example.completed_db) as Hinv.
  { split; compute_done. }
  split.
  - apply (proj1 (percent_in_range_preserved Example.completed_db Hinv)).
  - apply (proj2 (percent_in_range_preserved Example.completed_db Hinv)).
Defined.

(** X13. Completed rows keep a completion time: when every lesson and course
    progress row standing at 100 carries a [completedAt], the same holds
    after any [updateLessonProgress] and any [submitAssignment].  (The
    converse is not kept: a row regressed below 100 retains its time.) *)
Theorem completion_stamped_preserved db :
  Invariant.completion_stamped db →
  (∀ now userId lessonId p,
     Invariant.completion_stamped (updateLessonProgress now userId lessonId p db).2) ∧
  (∀ schema now userId assignmentId answers score,
     Invariant.completion_stamped
       (submitAssignment schema now userId assignmentId answers score db).2).
Proof.
  assert (∀ db now userId lessonId p,
            Invariant.completion_stamped db →
            Invariant.completion_stamped (updateLessonProgress now userId lessonId p db).2)
    as Hupd.
  { clear db. intros db now userId lessonId p [Hlp Hcp].
    rewrite updateLessonProgress_cases.
    destruct ((p <? 0) || (p >? 100)); [done|].
    destruct (lessons db !! lessonId) as [lesson|]; [|done]. cbn [snd].
    match goal with
    | |- context [set_userLessonProgress (insert ?k ?row) db] =>
        set (db1 := set_userLessonProgress (insert k row) db)
    end.
    assert (map_Forall (λ _ row, UserLessonProgress.progressPercent row = 100 →
                                 is_Some (UserLessonProgress.completedAt row))
              (userLessonProgress db1)) as Hlp1.
    { subst db1. cbn. apply map_Forall_insert_2; [|done]. cbn. intros ->. by eexists. }
    rewrite updateCourseProgress_cases.
    destruct (courses db1 !! Lesson.courseId lesson); [|done].
    destruct (Spec.active_lessons db1 (Lesson.courseId lesson)); [done|].
    split; [done|]. cbn. apply map_Forall_insert_2; [|done]. cbn.
    intros ->. by eexists. }
  intros Hinv. split; [intros; by apply Hupd|].
  intros schema now userId assignmentId answers score. rewrite submitAssignment_cases.
  destruct (assignments db !! assignmentId) as [asg|]; [|done].
  destruct ((score <? 0) || (score >? Assignment.maxScore asg)); [done|].
  destruct (match answers with None => _ | Some _ => _ end); [done|].
  destruct (lessons db !! Assignment.lessonId asg); [|done].
  cbn [snd]. by apply Hupd.
Qed.

Lemma completion_stamped_preserved_witness :
  Invariant.completion_stamped
    (updateLessonProgress 2000 "u1" "lA" 50 Example.completed_db).2 ∧
  Invariant.completion_stamped
    (submitAssignment Example.answers_json 3000 "u1" "qA" (Some "{}") 70
       Example.completed_db).2.
Proof.
  assert (Invariant.completion_stamped Example.completed_db) as Hinv.
  { split; intros key row Hrow; vm_compute in Hrow.
    - change (({[ ("u1", "lA") := {| UserLessonProgress.progressPercent := 100;
                 UserLessonProgress.completedAt := Some 1000 |} ]}
               : gmap (string * string) UserLessonProgress.t) !! key = Some row) in Hrow.
      apply lookup_singleton_Some in Hrow as [_ <-]. by eexists.
    - change (({[ ("u1", "c1") := {| UserCourseProgress.progressPercent := 33;
                 UserCourseProgress.completedAt := None |} ]}
               : gmap (string * string) UserCourseProgress.t) !! key = Some row) in Hrow.
      apply lookup_singleton_Some in Hrow as [_ <-]. discriminate. }
  split.
  - apply (proj1 (completion_stamped_preserved Example.completed_db Hinv)).
  - apply (proj2 (completion_stamped_preserved Example.completed_db Hinv)).
Defined.

(** X14. Raising a lesson never lowers its course: from the same store, for
    a lesson of a stored course with an active lesson, the course percent
    stored after setting the lesson to [p'] is at least the one stored after
    setting it to [p] whenever [p <= p']. *)
Theorem course_percent_monotone now now' userId lessonId p p' db lesson :
  0 ≤ p → p ≤ p' → p' ≤ 100 →
  lessons db !! lessonId = Some lesson →
  is_Some (courses db !! Lesson.courseId lesson) →
  Spec.active_lessons db (Lesson.courseId lesson) ≠ [] →
  ∃ row row',
    userCourseProgress (updateLessonProgress now userId lessonId p db).2
      !! (userId, Lesson.courseId lesson) = Some row ∧
    userCourseProgress (updateLessonProgress now' userId lessonId p' db).2
      !! (userId, Lesson.courseId lesson) = Some row' ∧
    UserCourseProgress.progressPercent row ≤ UserCourseProgress.progressPercent row'.
Proof.
  intros Hp0 Hpp Hp100 Hl Hc Hne.
  destruct (updateLessonProgress_course_row now userId lessonId p db lesson)
    as (row & Hrow & Hpct); [lia|done..|].
  destruct (updateLessonProgress_course_row now' userId lessonId p' db lesson)
    as (row' & Hrow' & Hpct'); [lia|done..|].
  exists row, row'. split; [done|]. split; [done|].
  rewrite Hpct, Hpct'. unfold Spec.course_percent.
  destruct (updateLessonProgress_frame now userId lessonId p db) as (_ & _ & _ & Hls & _).
  destruct (updateLessonProgress_frame now' userId lessonId p' db) as (_ & _ & _ & Hls' & _).
  rewrite !(active_lessons_ext db _ _ Hls), !(active_lessons_ext db _ _ Hls').
  apply Math_round_div_mono.
  - destruct (Spec.active_lessons db (Lesson.courseId lesson)); [done|]. cbn [length]. lia.
  - apply Zsum_mono. intros l _. unfold Spec.lesson_percent.
    rewrite (updateLessonProgress_table now userId lessonId p db lesson) by (done || lia).
    rewrite (updateLessonProgress_table now' userId lessonId p' db lesson) by (done || lia).
    destruct (decide (l = lessonId)) as [->|Hneq].
    + by rewrite !lookup_insert_eq.
    + rewrite !lookup_insert_ne by congruence. done.
Qed.

Lemma course_percent_monotone_witness :
  ∃ row row',
    userCourseProgress (updateLessonProgress 2000 "u1" "lB" 30 Example.completed_db).2
      !! ("u1", "c1") = Some row ∧
    userCourseProgress (updateLessonProgress 2000 "u1" "lB" 80 Example.completed_db).2
      !! ("u1", "c1") = Some row' ∧
    UserCourseProgress.progressPercent row ≤ UserCourseProgress.progressPercent row'.
Proof.
  apply (course_percent_monotone 2000 2000 "u1" "lB" 30 80 Example.completed_db
           Example.lessonB).
  - lia.
  - lia.
  - lia.
  - vm_compute. reflexivity.
  - eexists. vm_compute. reflexivity.
  - vm_compute. discriminate.
Defined.

Lemma Zsum_shortfall {A} (f : A → Z) (xs : list A) :
  Spec.Zsum ((λ x, 100 - f x) <$> xs) = 100 * Z.of_nat (length xs) - Spec.Zsum (f <$> xs).
Proof.
  unfold Spec.Zsum. induction xs as [|x xs IH]; cbn [length fmap list_fmap foldr]; lia.
Qed.

(** X15. When a course is marked completed.  With the user's lesson percents
    within 0..100, after [updateLessonProgress] on a lesson of a stored
    course with [n] active lessons the course row stands at 100 exactly when
    twice the total shortfall of the active lessons, the sum of [100 -
    percent], is at most [n]: always when every active lesson is at 100, and
    also, by rounding, with a small shortfall in a course of many lessons.
    [completedAt] of the course row is the time of the call when the row
    stands at 100 and is otherwise left as it was. *)
Theorem course_completed_iff now userId lessonId p db lesson :
  0 ≤ p ≤ 100 →
  lessons db !! lessonId = Some lesson →
  is_Some (courses db !! Lesson.courseId lesson) →
  Spec.active_lessons db (Lesson.courseId lesson) ≠ [] →
  map_Forall (λ _ row, 0 ≤ UserLessonProgress.progressPercent row ≤ 100)
    (userLessonProgress db) →
  let db' := (updateLessonProgress now userId lessonId p db).2 in
  let ids := Spec.active_lessons db (Lesson.courseId lesson) in
  ∃ row,
    userCourseProgress db' !! (userId, Lesson.courseId lesson) = Some row ∧
    (UserCourseProgress.progressPercent row = 100 ↔
     2 * Spec.Zsum ((λ l, 100 - Spec.lesson_percent db' userId l) <$> ids)
       ≤ Z.of_nat (length ids)) ∧
    ((∀ l, l ∈ ids → Spec.lesson_percent db' userId l = 100) →
     UserCourseProgress.progressPercent row = 100) ∧
    (UserCourseProgress.progressPercent row = 100 →
     UserCourseProgress.completedAt row = Some now) ∧
    (UserCourseProgress.progressPercent row ≠ 100 →
     UserCourseProgress.completedAt row =
       userCourseProgress db !! (userId, Lesson.courseId lesson)
         ≫= UserCourseProgress.completedAt).
Proof.
  intros Hp Hl [c Hc] Hne Hrange db' ids.
  pose proof Hp as Hchk. apply progress_range_check in Hchk.
  set (lrow := {| UserLessonProgress.progressPercent := p;
                  UserLessonProgress.completedAt :=
                    if p =? 100 then Some now
                    else userLessonProgress db !! (userId, lessonId)
                           ≫= UserLessonProgress.completedAt |}).
  set (db1 := set_userLessonProgress (insert (userId, lessonId) lrow) db).
  set (cp := Spec.course_percent db1 userId (Lesson.courseId lesson)).
  assert (Spec.active_lessons db1 (Lesson.courseId lesson) = ids) as Hids by done.
  assert (db' = set_userCourseProgress (insert (userId, Lesson.courseId lesson)
            {| UserCourseProgress.progressPercent := cp;
               UserCourseProgress.completedAt :=
                 if cp =? 100 then Some now
                 else userCourseProgress db !! (userId, Lesson.courseId lesson)
                        ≫= UserCourseProgress.completedAt |}) db1) as Hdb'.
  { subst db'. rewrite updateLessonProgress_cases, Hchk, Hl. cbn [snd]. fold lrow db1.
    rewrite updateCourseProgress_cases.
    change (courses db1) with (courses db). rewrite Hc, Hids.
    destruct ids; [done|]. done. }
  assert (map_Forall (λ _ row, 0 ≤ UserLessonProgress.progressPercent row ≤ 100)
            (userLessonProgress db1)) as Hrange1.
  { subst db1. cbn. by apply map_Forall_insert_2. }
  assert (0 < Z.of_nat (length ids)) as Hn.
  { subst ids. destruct (Spec.active_lessons db _); [done|]. cbn [length]. lia. }
  assert (∀ l, Spec.lesson_percent db' userId l = Spec.lesson_percent db1 userId l) as Hlp.
  { intros l. by rewrite Hdb'. }
  assert (0 ≤ Spec.Zsum (Spec.lesson_percent db1 userId <$> ids)
            ≤ 100 * Z.of_nat (length ids)) as Hsum.
  { rewrite <-(Z.mul_0_l (Z.of_nat (length ids))) at 1.
    apply Zsum_bounds. intros l _. unfold Spec.lesson_percent.
    destruct (userLessonProgress db1 !! (userId, l)) as [row|] eqn:Hrow; [|lia].
    by apply (Hrange1 _ _ Hrow). }
  assert (cp = 100 ↔
          2 * Spec.Zsum ((λ l, 100 - Spec.lesson_percent db' userId l) <$> ids)
            ≤ Z.of_nat (length ids)) as Hiff.
  { rewrite (list_fmap_ext _ (λ l, 100 - Spec.lesson_percent db1 userId l) ids)
      by (intros; by rewrite ?Hlp).
    rewrite Zsum_shortfall.
    subst cp. unfold Spec.course_percent, JS.Math_round_div. rewrite Hids.
    set (S := Spec.Zsum (Spec.lesson_percent db1 userId <$> ids)) in *.
    set (n := Z.of_nat (length ids)) in *. split.
    - intros Hq. pose proof (Z.mul_div_le (2 * S + n) (2 * n) ltac:(lia)) as Hle.
      rewrite Hq in Hle. lia.
    - intros Hs. apply Z.le_antisymm.
      + assert ((2 * S + n) `div` (2 * n) < 101); [|lia].
        apply Z.div_lt_upper_bound; lia.
      + apply Z.div_le_lower_bound; lia. }
  exists {| UserCourseProgress.progressPercent := cp;
            UserCourseProgress.completedAt :=
              if cp =? 100 then Some now
              else userCourseProgress db !! (userId, Lesson.courseId lesson)
                     ≫= UserCourseProgress.completedAt |}.
  split; [by rewrite Hdb'; cbn; rewrite lookup_insert_eq|]. cbn.
  split; [done|]. split; [|split].
  - intros Hall. apply Hiff.
    rewrite (list_fmap_ext _ (λ _, 0) ids).
    2:{ intros _ l Hin%list_elem_of_lookup_2. rewrite (Hall l Hin). lia. }
    assert (Spec.Zsum ((λ _ : string, 0) <$> ids) = 0) as ->; [|lia].
    clear. unfold Spec.Zsum. induction ids; cbn; lia.
  - intros ->. done.
  - intros Hne100. by destruct (Z.eqb_spec cp 100).
Qed.

(** All three lessons at 100, the last set at 3000: the course is completed
    at 3000. *)
Lemma course_completed_iff_witness :
  ∃ row,
    userCourseProgress (updateLessonProgress 3000 "u1" "lC" 100 Example.two_done_db).2
      !! ("u1", "c1") = Some row ∧
    UserCourseProgress.progressPercent row = 100 ∧
    UserCourseProgress.completedAt row = Some 3000.
Proof.
  destruct (course_completed_iff 3000 "u1" "lC" 100 Example.two_done_db Example.lessonC)
    as (row & Hrow & _ & Hall & Hstamp & _).
  - lia.
  - vm_compute. reflexivity.
  - eexists. vm_compute. reflexivity.
  - vm_compute. discriminate.
  - compute_done.
  - assert (UserCourseProgress.progressPercent row = 100) as Hpct.
    { apply Hall. apply Forall_forall. compute_done. }
    exists row. split; [exact Hrow|]. split; [exact Hpct|]. by apply Hstamp.
Defined.

(** X16. [submitAssignment] for an unknown assignment is rejected with
    'Assignment not found' and writes nothing.  In every case it writes no
    submission other than the one of that user and assignment, no row of
    another user in any of the three progress tables, and nothing in the
    users, codes, courses, lessons and assignments. *)
Theorem submitAssignment_touches_own_rows
    schema now userId assignmentId answers score db :
  let r := submitAssignment schema now userId assignmentId answers score db in
  (assignments db !! assignmentId = None → r = (Rejected AssignmentNotFound, db)) ∧
  (∀ key, key ≠ (userId, assignmentId) →
          userAssignments r.2 !! key = userAssignments db !! key) ∧
  (∀ other key, other ≠ userId →
     userAssignments r.2 !! (other, key) = userAssignments db !! (other, key) ∧
     userLessonProgress r.2 !! (other, key) = userLessonProgress db !! (other, key) ∧
     userCourseProgress r.2 !! (other, key) = userCourseProgress db !! (other, key)) ∧
  users r.2 = users db ∧ otpCodes r.2 = otpCodes db ∧ courses r.2 = courses db ∧
  lessons r.2 = lessons db ∧ assignments r.2 = assignments db.
Proof.
  intros r.
  assert ((∀ key, key ≠ (userId, assignmentId) →
             userAssignments r.2 !! key = userAssignments db !! key) ∧
          (∀ other key, other ≠ userId →
             userLessonProgress r.2 !! (other, key) = userLessonProgress db !! (other, key) ∧
             userCourseProgress r.2 !! (other, key) = userCourseProgress db !! (other, key)))
    as [Hua Hother].
  { subst r. rewrite submitAssignment_cases.
    destruct (assignments db !! assignmentId) as [asg|]; [|done].
    destruct ((score <? 0) || (score >? Assignment.maxScore asg)); [done|].
    destruct (match answers with None => _ | Some _ => _ end); [done|].
    destruct (lessons db !! Assignment.lessonId asg) as [lesson|]; cbn [snd].
    - match goal with
      | |- context [updateLessonProgress ?n ?u ?l ?q ?d] =>
          destruct (updateLessonProgress_keys n u l q d) as [Hlp Hcp];
          destruct (updateLessonProgress_frame n u l q d) as (_ & _ & _ & _ & _ & Hf)
      end.
      split.
      + intros key Hne. rewrite Hf. cbn. by rewrite lookup_insert_ne.
      + intros other key Hne. split.
        * rewrite Hlp by congruence. done.
        * rewrite Hcp; [done|]. intros ? _. congruence.
    - split; [|done]. intros key Hne. cbn. by rewrite lookup_insert_ne. }
  split; [|split; [done|split]].
  - intros Hnone. subst r. by rewrite submitAssignment_cases, Hnone.
  - intros other key Hne. split; [apply Hua; congruence|by apply Hother].
  - apply submitAssignment_frame.
Qed.

Lemma submitAssignment_touches_own_rows_witness :
  submitAssignment Example.answers_json 3000 "u1" "zz" (Some "{}") 70 Example.completed_db
    = (Rejected AssignmentNotFound, Example.completed_db) ∧
  userLessonProgress
    (submitAssignment Example.answers_json 3000 "u2" "qA" (Some "{}") 70
       Example.completed_db).2
    !! ("u1", "lA") = userLessonProgress Example.completed_db !! ("u1", "lA").
Proof.
  split.
  - apply (proj1 (submitAssignment_touches_own_rows Example.answers_json 3000 "u1" "zz"
                    (Some "{}") 70 Example.completed_db)).
    vm_compute. reflexivity.
  - apply (proj1 (proj2 (proj2 (submitAssignment_touches_own_rows Example.answers_json
                    3000 "u2" "qA" (Some "{}") 70 Example.completed_db))) "u1" "lA").
    discriminate.
Defined.

End ProgressInvariants.

(** ** Statistics: bounds and totals *)

Section StatsBounds.

Import ProfileService.

Implicit Types (db : Db) (userId : string) (stats : Stats).

(** Every field of the statistics [getUserStats] resolves with. *)
Lemma getUserStats_fields userId db stats db' :
  getUserStats userId db = (Resolved stats, db') →
  db' = db ∧
  totalCourses stats = Prisma.count (λ r, Course.isActive r.2 = true) (courses db) ∧
  startedCourses stats = Z.of_nat (length (userCourses userId db)) ∧
  completedCourses stats =
    Z.of_nat (length (filter (λ cp, UserCourseProgress.progressPercent cp.2 = 100)
                        (userCourses userId db))) ∧
  completedLessons stats =
    Prisma.count (λ r, r.1.1 = userId ∧ UserLessonProgress.progressPercent r.2 = 100)
      (userLessonProgress db) ∧
  totalLessons stats =
    Prisma.count (λ r, lesson_course_active db r.2 ∧ Lesson.isActive r.2 = true)
      (lessons db) ∧
  completedAssignments stats =
    Prisma.count (λ r, r.1.1 = userId ∧ UserAssignment.completedAt r.2 ≠ None)
      (userAssignments db) ∧
  totalAssignments stats =
    Prisma.count (λ r, assignment_lesson_active db r.2 ∧ Assignment.isActive r.2 = true)
      (assignments db) ∧
  ∃ joined,
    with_maxScore db (Prisma.findMany (λ r, r.1.1 = userId) (userAssignments db))
      = Resolved joined ∧
    totalScore stats =
      default 0 (sum_score (Prisma.findMany (λ r, r.1.1 = userId) (userAssignments db))) ∧
    maxScore stats = JS.reduce_sum (λ ua, ua.2) joined.
Proof.
  unfold getUserStats. async_simpl.
  destruct (with_maxScore db _) as [joined|e] eqn:Hjoin; [|done].
  intros [= <- <-]. cbn. repeat (split; [done|]). by exists joined.
Qed.

(** X18. Bounds on the statistics.  Whenever [getUserStats] resolves, every
    count is non-negative and [completedCourses] is at most
    [startedCourses]; when the stored percents lie within 0..100 so does
    [averageProgress]; and [completedLessons] is at most [totalLessons]
    provided every lesson the user completed is an active lesson of an active
    course (the count of completed lessons is not restricted to those). *)
Theorem getUserStats_bounds userId db stats :
  getUserStats userId db = (Resolved stats, db) →
  0 ≤ completedCourses stats ≤ startedCourses stats ∧
  0 ≤ totalCourses stats ∧ 0 ≤ completedLessons stats ∧ 0 ≤ totalLessons stats ∧
  0 ≤ completedAssignments stats ∧ 0 ≤ totalAssignments stats ∧
  (Invariant.percent_in_range db → 0 ≤ averageProgress stats ≤ 100) ∧
  ((∀ l row, userLessonProgress db !! (userId, l) = Some row →
             UserLessonProgress.progressPercent row = 100 →
             ∃ lesson, lessons db !! l = Some lesson ∧
                       lesson_course_active db lesson ∧ Lesson.isActive lesson = true) →
   completedLessons stats ≤ totalLessons stats).
Proof.
  intros Hs.
  pose proof (getUserStats_resolved _ _ _ _ Hs) as (_ & _ & Havg).
  apply getUserStats_fields in Hs
    as (_ & Htc & Hsc & Hcc & Hcl & Htl & Hca & Hta & _).
  rewrite Htc, Hsc, Hcc, Hcl, Htl, Hca, Hta. unfold Prisma.count.
  split; [split; [lia|]|].
  { apply inj_le, length_filter. }
  do 5 (split; [lia|]). split.
  - intros [_ Hcp]. rewrite Havg.
    destruct (Z.gtb_spec (Z.of_nat (length (userCourses userId db))) 0) as [Hpos|]; [|lia].
    rewrite reduce_sum_Zsum. apply Math_round_div_bounds; [lia|].
    rewrite <-(Z.mul_0_l (Z.of_nat (length (userCourses userId db)))) at 1.
    apply Zsum_bounds. intros [key row] Hin.
    unfold userCourses, Prisma.findMany in Hin.
    apply list_elem_of_filter in Hin as [_ Hin%elem_of_map_to_list].
    by apply (Hcp _ _ Hin).
  - intros Hactive. apply inj_le.
    set (done_rows := Prisma.findMany
           (λ r, r.1.1 = userId ∧ UserLessonProgress.progressPercent r.2 = 100)
           (userLessonProgress db)).
    set (open_lessons := Prisma.findMany
           (λ r, lesson_course_active db r.2 ∧ Lesson.isActive r.2 = true) (lessons db)).
    rewrite <-(length_fmap (λ r, r.1.2) done_rows), <-(length_fmap fst open_lessons).
    apply submseteq_length, NoDup_submseteq.
    + apply NoDup_fmap_2_strong.
      * intros [[u1 l1] r1] [[u2 l2] r2] H1 H2 Heq. cbn in Heq. subst l2.
        subst done_rows. unfold Prisma.findMany in H1, H2.
        apply list_elem_of_filter in H1 as [[Hu1 _] H1%elem_of_map_to_list].
        apply list_elem_of_filter in H2 as [[Hu2 _] H2%elem_of_map_to_list].
        cbn in Hu1, Hu2. subst u1 u2. by simplify_eq.
      * subst done_rows. unfold Prisma.findMany.
        apply NoDup_filter, NoDup_map_to_list.
    + intros l ([[u l'] row] & -> & Hin)%list_elem_of_fmap. cbn.
      subst done_rows. unfold Prisma.findMany in Hin.
      apply list_elem_of_filter in Hin as [[Hu Hp] Hin%elem_of_map_to_list].
      cbn in Hu, Hp. subst u.
      destruct (Hactive _ _ Hin Hp) as (lesson & Hl & Hca' & Hla).
      apply list_elem_of_fmap. exists (l', lesson). split; [done|].
      subst open_lessons. unfold Prisma.findMany.
      apply list_elem_of_filter. split; [done|]. by apply elem_of_map_to_list.
Qed.

Lemma getUserStats_bounds_witness :
  ∃ stats,
    getUserStats "u1" Example.finished_db = (Resolved stats, Example.finished_db) ∧
    0 ≤ completedCourses stats ≤ startedCourses stats ∧
    completedLessons stats ≤ totalLessons stats.
Proof.
  assert (∃ stats, getUserStats "u1" Example.finished_db
                   = (Resolved stats, Example.finished_db)) as [stats Hs]
    by (eexists; vm_compute; reflexivity).
  exists stats. split; [exact Hs|].
  destruct (getUserStats_bounds "u1" Example.finished_db stats Hs)
    as (Hc & _ & _ & _ & _ & _ & _ & Hl).
  split; [exact Hc|]. apply Hl. intros l row Hrow _.
  assert (l = "lA" ∨ l = "lB" ∨ l = "lC") as Hcases.
  { apply elem_of_map_to_list in Hrow. vm_compute in Hrow.
    apply elem_of_cons in Hrow as [Hrow|Hrow].
    { injection Hrow as -> _. right; right; reflexivity. }
    apply elem_of_cons in Hrow as [Hrow|Hrow].
    { injection Hrow as -> _. left; reflexivity. }
    apply elem_of_cons in Hrow as [Hrow|Hrow].
    { injection Hrow as -> _. right; left; reflexivity. }
    apply elem_of_nil in Hrow. destruct Hrow. }
  assert (∀ lesson, Lesson.courseId lesson = "c1" →
                    lesson_course_active Example.finished_db lesson) as Hactive.
  { intros lesson Hcourse. unfold lesson_course_active. rewrite Hcourse.
    eexists. split; vm_compute; reflexivity. }
  destruct Hcases as [-> | [-> | ->]].
  - exists Example.lessonA.
    split; [vm_compute; reflexivity|]. split; [apply Hactive|]; reflexivity.
  - exists Example.lessonB.
    split; [vm_compute; reflexivity|]. split; [apply Hactive|]; reflexivity.
  - exists Example.lessonC.
    split; [vm_compute; reflexivity|]. split; [apply Hactive|]; reflexivity.
Defined.

(** Which achievement ids [getUserAchievements] returns. *)
Lemma achievement_ids userId db achievements :
  (getUserAchievements userId db).1 = Resolved achievements →
  ∃ stats,
    getUserStats userId db = (Resolved stats, db) ∧
    ∀ x, x ∈ id <$> achievements ↔
      (1 ≤ startedCourses stats ∧ x = "first_course") ∨
      (1 ≤ completedCourses stats ∧ x = "first_completed") ∨
      (5 ≤ completedCourses stats ∧ x = "five_courses") ∨
      (10 ≤ completedCourses stats ∧ x = "ten_courses") ∨
      (0 < completedAssignments stats ∧
       completedAssignments stats = totalAssignments stats ∧ x = "all_assignments") ∨
      (averageProgress stats = 100 ∧ 0 < startedCourses stats ∧ x = "perfect_progress").
Proof.
  intros Hach. rewrite getUserAchievements_cases in Hach.
  destruct (getUserStats userId db) as [[stats|e] db'] eqn:Hs; [|done].
  cbn in Hach. injection Hach as <-.
  pose proof (getUserStats_fields _ _ _ _ Hs) as (-> & _).
  exists stats. split; [done|]. intros x.
  rewrite !elem_of_push_if. cbn [id]. rewrite fmap_nil, elem_of_nil.
  rewrite !andb_true_iff, !Z.geb_le, !Z.gtb_gt, !Z.eqb_eq. intuition lia.
Qed.

(** X19. Achievements accumulate.  The ids [getUserAchievements] returns come
    in the fixed order first_course, first_completed, five_courses,
    ten_courses, all_assignments, perfect_progress, without repetition, and
    every achievement returned is unlocked with no unlock time.  A later
    threshold implies the earlier ones: ten_courses implies five_courses,
    which implies first_completed, which implies first_course; and
    perfect_progress implies first_course. *)
Theorem achievements_accumulate userId db achievements :
  (getUserAchievements userId db).1 = Resolved achievements →
  id <$> achievements `sublist_of`
    ["first_course"; "first_completed"; "five_courses"; "ten_courses";
     "all_assignments"; "perfect_progress"] ∧
  Forall (λ a, unlocked a = true ∧ unlockedAt a = None) achievements ∧
  ("ten_courses" ∈ id <$> achievements → "five_courses" ∈ id <$> achievements) ∧
  ("five_courses" ∈ id <$> achievements → "first_completed" ∈ id <$> achievements) ∧
  ("first_completed" ∈ id <$> achievements → "first_course" ∈ id <$> achievements) ∧
  ("perfect_progress" ∈ id <$> achievements → "first_course" ∈ id <$> achievements).
Proof.
  intros Hach.
  destruct (achievement_ids _ _ _ Hach) as (stats & Hs & Hids).
  pose proof (getUserStats_fields _ _ _ _ Hs) as (_ & _ & Hsc & Hcc & _).
  assert (completedCourses stats ≤ startedCourses stats) as Hle.
  { rewrite Hsc, Hcc. apply inj_le, length_filter. }
  rewrite getUserAchievements_cases, Hs in Hach. cbn in Hach. injection Hach as <-.
  split; [|split].
  - unfold push_if.
    destruct (startedCourses stats >=? 1), (completedCourses stats >=? 1),
      (completedCourses stats >=? 5), (completedCourses stats >=? 10),
      ((completedAssignments stats >? 0) &&
       (completedAssignments stats =? totalAssignments stats)),
      ((averageProgress stats =? 100) && (startedCourses stats >? 0));
      cbn; repeat first [apply sublist_nil | apply sublist_skip | apply sublist_cons].
  - unfold push_if.
    destruct (startedCourses stats >=? 1), (completedCourses stats >=? 1),
      (completedCourses stats >=? 5), (completedCourses stats >=? 10),
      ((completedAssignments stats >? 0) &&
       (completedAssignments stats =? totalAssignments stats)),
      ((averageProgress stats =? 100) && (startedCourses stats >? 0));
      cbn; by repeat constructor.
  - split; [|split; [|split]]; rewrite !Hids; intros Hin.
    + do 2 right. left. split; [|done].
      destruct Hin as [[_ ?]|[[_ ?]|[[_ ?]|[[? _]|[(_ & _ & ?)|(_ & _ & ?)]]]]];
        try discriminate. lia.
    + right. left. split; [|done].
      destruct Hin as [[_ ?]|[[_ ?]|[[? _]|[[_ ?]|[(_ & _ & ?)|(_ & _ & ?)]]]]];
        try discriminate. lia.
    + left. split; [|done].
      destruct Hin as [[_ ?]|[[? _]|[[_ ?]|[[_ ?]|[(_ & _ & ?)|(_ & _ & ?)]]]]];
        try discriminate. lia.
    + left. split; [|done].
      destruct Hin as [[_ ?]|[[_ ?]|[[_ ?]|[[_ ?]|[(_ & _ & ?)|(_ & ? & _)]]]]];
        try discriminate. lia.
Qed.

Lemma achievements_accumulate_witness :
  ∃ achievements,
    (getUserAchievements "u1" Example.finished_db).1 = Resolved achievements ∧
    id <$> achievements `sublist_of`
      ["first_course"; "first_completed"; "five_courses"; "ten_courses";
       "all_assignments"; "perfect_progress"] ∧
    ("first_completed" ∈ id <$> achievements → "first_course" ∈ id <$> achievements).
Proof.
  assert (∃ achievements, (getUserAchievements "u1" Example.finished_db).1
                          = Resolved achievements) as [achievements Hach]
    by (eexists; vm_compute; reflexivity).
  exists achievements. split; [exact Hach|].
  destruct (achievements_accumulate "u1" Example.finished_db achievements Hach)
    as (Hsub & _ & _ & _ & Hfirst & _).
  by split.
Defined.

(** Two conditions that agree on the rows of a list select the same rows. *)
Lemma filter_ext_elem {A} (P Q : A → Prop)
    `{!∀ x, Decision (P x)} `{!∀ x, Decision (Q x)} (xs : list A) :
  (∀ x, x ∈ xs → P x ↔ Q x) → filter P xs = filter Q xs.
Proof.
  induction xs as [|x xs IH]; intros Hext; [done|].
  assert (P x ↔ Q x) as Hx by (apply Hext; left).
  rewrite !filter_cons, IH by (intros y Hy; apply Hext; by right).
  destruct (decide (P x)), (decide (Q x)); try done; tauto.
Qed.

Lemma scores_in_range_frame db db' :
  assignments db' = assignments db → userAssignments db' = userAssignments db →
  Invariant.scores_in_range db → Invariant.scores_in_range db'.
Proof. unfold Invariant.scores_in_range. by intros -> ->. Qed.

(** X17. Stored scores stay within range: when every stored submission
    refers to a stored assignment, carries a score within 0..[maxScore] of it
    and a completion time, the same holds after [submitAssignment], whatever
    its arguments and outcome, and after [updateLessonProgress]. *)
Theorem scores_in_range_preserved schema now userId assignmentId answers score db :
  Invariant.scores_in_range db →
  Invariant.scores_in_range
    (CourseService.submitAssignment schema now userId assignmentId answers score db).2 ∧
  ∀ lessonId p,
    Invariant.scores_in_range
      (CourseService.updateLessonProgress now userId lessonId p db).2.
Proof.
  intros Hinv.
  assert (∀ u l q d, Invariant.scores_in_range d →
            Invariant.scores_in_range (CourseService.updateLessonProgress now u l q d).2)
    as Hlesson.
  { intros u l q d Hd.
    destruct (updateLessonProgress_frame now u l q d) as (_ & _ & _ & _ & Ha & Hua).
    by apply (scores_in_range_frame d). }
  split; [|intros; by apply Hlesson].
  rewrite submitAssignment_cases.
  destruct (assignments db !! assignmentId) as [asg|] eqn:Ha; [|done].
  destruct ((score <? 0) || (score >? Assignment.maxScore asg)) eqn:Hr; [done|].
  apply orb_false_iff in Hr as [Hlo Hhi].
  apply Z.ltb_ge in Hlo. rewrite Z.gtb_ltb in Hhi. apply Z.ltb_ge in Hhi.
  destruct (match answers with None => _ | Some _ => _ end); [done|].
  cbn zeta.
  match goal with
  | |- context [set_userAssignments ?f db] =>
      assert (Invariant.scores_in_range (set_userAssignments f db)) as Hinv1
  end.
  { apply map_Forall_insert_2; [|done]. split; [by eexists|]. exists asg. by split. }
  destruct (lessons db !! Assignment.lessonId asg); cbn [snd]; [by apply Hlesson|done].
Qed.

Lemma scores_in_range_preserved_witness :
  Invariant.scores_in_range
    (CourseService.submitAssignment Example.answers_json 500 "u1" "qA" (Some "answers") 80
       Example.course_db).2.
Proof.
  assert (Invariant.scores_in_range Example.course_db) as Hinv
    by apply map_Forall_empty.
  apply (proj1 (scores_in_range_preserved Example.answers_json 500 "u1" "qA"
                  (Some "answers") 80 Example.course_db Hinv)).
Defined.

(** The scores of the submissions against the [maxScore]s joined to them. *)
Lemma joined_scores db (rows : list (string * string * UserAssignment.t))
    (joined : list (string * string * UserAssignment.t * Z)) :
  Invariant.scores_in_range db →
  Forall (λ r, userAssignments db !! r.1 = Some r.2) rows →
  Forall2 (λ ua y, (λ a, (ua, Assignment.maxScore a)) <$> assignments db !! ua.1.2 = Some y)
    rows joined →
  0 ≤ Spec.Zsum ((λ ua, UserAssignment.score ua.2) <$> rows)
    ≤ Spec.Zsum ((λ ua, ua.2) <$> joined).
Proof.
  intros Hinv Hrows Hj.
  induction Hj as [|[[u a] ua] [ua' m] rows joined Hr Hj IH]; [cbn; lia|].
  apply Forall_cons in Hrows as [Hrow Hrows]. specialize (IH Hrows).
  cbn in Hrow, Hr. destruct (Hinv _ _ Hrow) as (_ & asg & Hasg & Hrange).
  cbn in Hasg. rewrite Hasg in Hr. cbn in Hr. injection Hr as <- <-.
  unfold Spec.Zsum in *. cbn [fmap list_fmap foldr snd]. lia.
Qed.

(** X20. Totals of the statistics.  When every stored submission refers to a
    stored assignment, carries a score within 0..[maxScore] of it and a
    completion time, [getUserStats] resolves, its [totalScore] lies within
    0..[maxScore], and [completedAssignments] is the number of the user's
    submissions, over active and inactive assignments alike. *)
Theorem getUserStats_scores userId db :
  Invariant.scores_in_range db →
  ∃ stats,
    getUserStats userId db = (Resolved stats, db) ∧
    0 ≤ totalScore stats ≤ maxScore stats ∧
    completedAssignments stats =
      Z.of_nat (length (Prisma.findMany (λ r, r.1.1 = userId) (userAssignments db))).
Proof.
  intros Hinv.
  destruct (getUserStats_resolves userId db) as [stats Hs].
  { intros a ua Hua. destruct (Hinv _ _ Hua) as (_ & asg & Hasg & _). by exists asg. }
  exists stats. split; [done|].
  apply getUserStats_fields in Hs
    as (_ & _ & _ & _ & _ & _ & Hca & _ & joined & Hj & Hts & Hms).
  split.
  - rewrite Hts, Hms.
    assert (∀ rows, default 0 (sum_score rows)
                    = JS.reduce_sum (λ ua, UserAssignment.score ua.2) rows) as ->
      by (by intros []).
    rewrite !reduce_sum_Zsum.
    unfold with_maxScore in Hj.
    destruct (mapM _ _) as [joined'|] eqn:Hm; [|done].
    injection Hj as ->. apply mapM_Some in Hm.
    apply (joined_scores db _ _ Hinv); [|done].
    apply Forall_forall. intros [k v] Hin. unfold Prisma.findMany in Hin.
    apply list_elem_of_filter in Hin as [_ Hin]. by apply elem_of_map_to_list in Hin.
  - rewrite Hca. unfold Prisma.count, Prisma.findMany. do 2 f_equal.
    apply filter_ext_elem. intros [k v] Hin%elem_of_map_to_list. cbn.
    destruct (Hinv _ _ Hin) as ([t Ht] & _). rewrite Ht. split; [tauto|done].
Qed.

Lemma getUserStats_scores_witness :
  ∃ stats,
    getUserStats "u1" Example.graded_db = (Resolved stats, Example.graded_db) ∧
    0 ≤ totalScore stats ≤ maxScore stats ∧
    completedAssignments stats =
      Z.of_nat (length (Prisma.findMany (λ r, r.1.1 = "u1")
                          (userAssignments Example.graded_db))).
Proof.
  apply (getUserStats_scores "u1" Example.graded_db).
  apply map_Forall_singleton. split; [by eexists|].
  exists Example.quizA. split; [reflexivity|]. cbn. lia.
Defined.

(** When the rounded mean of percents within 0..100 is 100. *)
Lemma Math_round_div_100 (s n : Z) :
  0 < n → 0 ≤ s ≤ 100 * n →
  JS.Math_round_div s n = 100 ↔ 2 * (100 * n - s) ≤ n.
Proof.
  intros Hn Hs. unfold JS.Math_round_div. split.
  - intros Hq. pose proof (Z.mul_div_le (2 * s + n) (2 * n) ltac:(lia)) as Hle.
    rewrite Hq in Hle. lia.
  - intros Hle. apply Z.le_antisymm.
    + assert ((2 * s + n) `div` (2 * n) < 101); [|lia].
      apply Z.div_lt_upper_bound; lia.
    + apply Z.div_le_lower_bound; lia.
Qed.

(** X21. When perfect_progress is unlocked.  With the stored percents within
    0..100, [getUserAchievements] returns perfect_progress exactly when the
    user has a course progress row and twice the total shortfall of the
    user's rows, the sum of [100 - percent], is at most their number: always
    when every row stands at 100, and also, by rounding, with a small
    shortfall over many rows. *)
Theorem perfect_progress_iff userId db achievements :
  Invariant.percent_in_range db →
  (getUserAchievements userId db).1 = Resolved achievements →
  let rows := userCourses userId db in
  ("perfect_progress" ∈ id <$> achievements ↔
     rows ≠ [] ∧
     2 * Spec.Zsum ((λ cp, 100 - UserCourseProgress.progressPercent cp.2) <$> rows)
       ≤ Z.of_nat (length rows)) ∧
  (rows ≠ [] →
   (∀ cp, cp ∈ rows → UserCourseProgress.progressPercent cp.2 = 100) →
   "perfect_progress" ∈ id <$> achievements).
Proof.
  intros [_ Hrange] Hach rows.
  destruct (achievement_ids _ _ _ Hach) as (stats & Hs & Hids).
  pose proof (getUserStats_resolved _ _ _ _ Hs) as (_ & Hsc & Havg).
  fold rows in Hsc, Havg.
  assert (0 ≤ Spec.Zsum ((λ cp, UserCourseProgress.progressPercent cp.2) <$> rows)
            ≤ 100 * Z.of_nat (length rows)) as Hsum.
  { rewrite <-(Z.mul_0_l (Z.of_nat (length rows))) at 1.
    apply Zsum_bounds. intros [key row] Hin.
    subst rows. unfold userCourses, Prisma.findMany in Hin.
    apply list_elem_of_filter in Hin as [_ Hin%elem_of_map_to_list].
    by apply (Hrange _ _ Hin). }
  assert ("perfect_progress" ∈ id <$> achievements ↔
          rows ≠ [] ∧
          2 * Spec.Zsum ((λ cp, 100 - UserCourseProgress.progressPercent cp.2) <$> rows)
            ≤ Z.of_nat (length rows)) as Hiff.
  { rewrite Hids, Zsum_shortfall, Hsc, Havg, reduce_sum_Zsum.
    destruct (Z.gtb_spec (Z.of_nat (length rows)) 0) as [Hpos|Hzero].
    - rewrite Math_round_div_100 by (done || lia). split.
      + intros [[_ ?]|[[_ ?]|[[_ ?]|[[_ ?]|[(_ & _ & ?)|(Hq & _ & _)]]]]];
          try discriminate.
        split; [|done]. intros Hnil. rewrite Hnil in Hpos. cbn in Hpos. lia.
      + intros [_ Hq]. do 5 right. split; [done|]. split; [lia|done].
    - split.
      + intros [[_ ?]|[[_ ?]|[[_ ?]|[[_ ?]|[(_ & _ & ?)|(_ & Hq & _)]]]]];
          try discriminate. lia.
      + intros [Hne _]. destruct rows; [done|]. cbn [length] in Hzero. lia. }
  split; [exact Hiff|].
  intros Hne Hall. apply Hiff. split; [done|].
  pose proof (Zsum_bounds (λ cp, 100 - UserCourseProgress.progressPercent cp.2) rows 0 0)
    as Hb.
  destruct Hb as [_ Hb]; [intros cp Hcp; rewrite (Hall _ Hcp); lia|]. lia.
Qed.

Lemma perfect_progress_iff_witness :
  ∃ achievements,
    (getUserAchievements "u1" Example.near_perfect_db).1 = Resolved achievements ∧
    "perfect_progress" ∈ id <$> achievements.
Proof.
  assert (∃ achievements, (getUserAchievements "u1" Example.near_perfect_db).1
                          = Resolved achievements) as [achievements Hach]
    by (eexists; vm_compute; reflexivity).
  exists achievements. split; [exact Hach|].
  assert (Invariant.percent_in_range Example.near_perfect_db) as Hrange.
  { split; [apply map_Forall_empty|].
    apply map_Forall_insert_2; [cbn; lia|]. apply map_Forall_singleton. cbn. lia. }
  apply (proj1 (perfect_progress_iff "u1" Example.near_perfect_db achievements Hrange Hach)).
  split.
  - intros Hnil. vm_compute in Hnil. discriminate Hnil.
  - vm_compute. discriminate.
Defined.

End StatsBounds.

(** ** Authenticating a request *)

Section Authentication.

Import AuthService AuthMiddleware.

Implicit Types (env : Env) (jwt_verify : string → string → option (option string)).
Implicit Types (req : Request) (token : string).

(** A header that starts with a prefix is the prefix followed by what
    [substring] leaves. *)
Lemma prefix_substring (p s : string) :
  String.prefix p s = true → s = p +:+ substring (String.length p) s.
Proof.
  revert s. induction p as [|a p IH]; intros s Hp; [done|].
  destruct s as [|b s]; [done|]. cbn in Hp.
  destruct (Ascii.ascii_dec a b) as [->|]; [|done].
  change (String b p +:+ ?t) with (String b (p +:+ t)).
  cbn [String.length substring]. f_equal. by apply IH.
Qed.

Lemma truthy_str_Some (o : option string) :
  JS.truthy_str o = true ↔ ∃ s, o = Some s ∧ s ≠ "".
Proof.
  destruct o as [s|]; cbn.
  - rewrite negb_true_iff, String.eqb_neq. split; [by exists s|by intros (? & [= <-] & ?)].
  - split; [done|by intros (? & ? & ?)].
Qed.

(** A [Bearer] token is read as the same token in x-auth-token is. *)
Lemma authMiddleware_bearer env jwt_verify token :
  authMiddleware env jwt_verify
    {| x_auth_token := None; authorization := Some ("Bearer " +:+ token) |} =
  authMiddleware env jwt_verify {| x_auth_token := Some token; authorization := None |}.
Proof. by destruct token. Qed.

(** A non-empty x-auth-token that jsonwebtoken verifies for a non-empty
    subject. *)
Lemma authMiddleware_header env jwt_verify token a userId :
  token ≠ "" → userId ≠ "" →
  jwt_verify token (JWT_SECRET env) = Some (Some userId) →
  authMiddleware env jwt_verify {| x_auth_token := Some token; authorization := a |}
    = next userId.
Proof.
  intros Ht%String.eqb_neq Hu%String.eqb_neq Hv. unfold authMiddleware. cbn.
  rewrite Ht. cbn. rewrite Ht, Hv. cbn. by rewrite Hu.
Qed.

(** X22. Which token the middleware reads.  A non-empty x-auth-token header
    is the token and the Authorization header is then ignored; without one,
    a header [Bearer t] gives the same response as the x-auth-token [t]; a
    request with neither a non-empty x-auth-token nor an Authorization
    header starting with [Bearer ], or with nothing after it, is answered
    'No auth token provided' whatever jsonwebtoken would say; and the request
    is handed on only with a non-empty user id, the subject jsonwebtoken
    verified for a non-empty token read from one of the two headers. *)
Theorem authMiddleware_token_selection env jwt_verify :
  (∀ t a, t ≠ "" →
     authMiddleware env jwt_verify {| x_auth_token := Some t; authorization := a |} =
     authMiddleware env jwt_verify {| x_auth_token := Some t; authorization := None |}) ∧
  (∀ x t, x = None ∨ x = Some "" →
     authMiddleware env jwt_verify
       {| x_auth_token := x; authorization := Some ("Bearer " +:+ t) |} =
     authMiddleware env jwt_verify {| x_auth_token := Some t; authorization := None |}) ∧
  (∀ x a, x = None ∨ x = Some "" →
     a = None ∨ a = Some "Bearer " ∨ (∃ s, a = Some s ∧ String.prefix "Bearer " s = false) →
     authMiddleware env jwt_verify {| x_auth_token := x; authorization := a |} =
     status_401 "No auth token provided") ∧
  (∀ req userId,
     authMiddleware env jwt_verify req = next userId →
     userId ≠ "" ∧
     ∃ token, token ≠ "" ∧
       (x_auth_token req = Some token ∨
        (JS.truthy_str (x_auth_token req) = false ∧
         authorization req = Some ("Bearer " +:+ token))) ∧
       jwt_verify token (JWT_SECRET env) = Some (Some userId)).
Proof.
  split; [|split; [|split]].
  - intros t a Ht. unfold authMiddleware. cbn.
    apply String.eqb_neq in Ht. by rewrite Ht.
  - intros x t Hx. destruct Hx as [->| ->]; by destruct t.
  - intros x a Hx Ha.
    destruct Hx as [->| ->]; destruct Ha as [->|[->|(s & -> & Hs)]]; try done.
    + unfold authMiddleware, startsWith. cbn -[String.prefix].
      by rewrite Hs, andb_false_r.
    + unfold authMiddleware, startsWith. cbn -[String.prefix].
      by rewrite Hs, andb_false_r.
  - intros [x a] userId. unfold authMiddleware. cbn -[substring startsWith].
    destruct (JS.truthy_str x) eqn:Hx.
    + apply truthy_str_Some in Hx as (t & -> & Ht).
      apply String.eqb_neq in Ht as Ht'. rewrite Ht'.
      destruct (jwt_verify t (JWT_SECRET env)) as [sub|] eqn:Hv; [|done].
      destruct (JS.truthy_str sub) eqn:Hsub; [|done]. cbn.
      apply truthy_str_Some in Hsub as (u & -> & Hu). intros [= <-].
      split; [done|]. exists t. split; [done|]. split; [by left|done].
    + destruct (startsWith "Bearer " a) eqn:Hb; [|done].
      destruct a as [s|]; [|done]. cbn -[substring].
      unfold startsWith in Hb. apply andb_true_iff in Hb as [_ Hb].
      apply prefix_substring in Hb. cbn [String.length] in Hb.
      destruct (String.eqb (substring 7 s) "") eqn:Ht; [done|].
      destruct (jwt_verify (substring 7 s) (JWT_SECRET env)) as [sub|] eqn:Hv; [|done].
      destruct (JS.truthy_str sub) eqn:Hsub; [|done]. cbn -[substring].
      apply truthy_str_Some in Hsub as (u & -> & Hu). intros [= <-].
      split; [done|]. exists (substring 7 s). split; [by apply String.eqb_neq|].
      split; [right; split; [done|by f_equal]|done].
Qed.

Lemma authMiddleware_token_selection_witness :
  authMiddleware Example.env_smtp Example.jwt_verify
    {| x_auth_token := Some "0123456789abcdef.u1@7000";
       authorization := Some "Bearer 0123456789abcdef.u2@7000" |} = next "u1" ∧
  authMiddleware Example.env_smtp Example.jwt_verify
    {| x_auth_token := Some "";
       authorization := Some "Bearer 0123456789abcdef.u2@7000" |} = next "u2" ∧
  authMiddleware Example.env_smtp Example.jwt_verify
    {| x_auth_token := None; authorization := Some "bearer 0123456789abcdef.u2@7000" |} =
    status_401 "No auth token provided".
Proof.
  destruct (authMiddleware_token_selection Example.env_smtp Example.jwt_verify)
    as (Hheader & Hbearer & Hnone & _).
  split; [|split].
  - rewrite (Hheader "0123456789abcdef.u1@7000"); [|discriminate]. vm_compute. reflexivity.
  - etrans; [apply (Hbearer (Some "") "0123456789abcdef.u2@7000"); by right|].
    vm_compute. reflexivity.
  - apply Hnone; [by left|]. right. right. eexists. split; reflexivity.
Defined.

(** X23. The token of a login authenticates the user who logged in.  For the
    active user who has the email, with a non-empty id and a password bcrypt
    accepts, when jsonwebtoken verifies the token it signs for the id,
    [loginWithPassword] resolves with a token that, sent as x-auth-token or
    as [Bearer] token, makes the middleware hand the request on as that
    user. *)
Theorem login_token_authenticates env bcrypt_compare jwt_sign jwt_verify
    now email password db id user authorization_header :
  users db !! id = Some user →
  User.email user = email →
  (∀ id' user', users db !! id' = Some user' → User.email user' = email → id' = id) →
  User.isActive user = true →
  bcrypt_compare password (User.passwordHash user) = true →
  id ≠ "" →
  jwt_sign id now (JWT_SECRET env) ≠ "" →
  jwt_verify (jwt_sign id now (JWT_SECRET env)) (JWT_SECRET env) = Some (Some id) →
  ∃ token,
    loginWithPassword env bcrypt_compare jwt_sign now email password db = (Resolved token, db) ∧
    authMiddleware env jwt_verify
      {| x_auth_token := Some token; authorization := authorization_header |} = next id ∧
    authMiddleware env jwt_verify
      {| x_auth_token := None; authorization := Some ("Bearer " +:+ token) |} = next id.
Proof.
  intros Hid He Huniq Hact Hcmp Hne Htoken Hverify.
  exists (jwt_sign id now (JWT_SECRET env)). split; [|split].
  - rewrite loginWithPassword_cases.
    destruct (user_findUnique email db) as [[id0 user0]|] eqn:Hfind.
    + pose proof (user_findUnique_Some _ _ _ _ Hfind) as [Hid0 He0].
      pose proof (Huniq _ _ Hid0 He0) as ->. simplify_eq. by rewrite Hact, Hcmp.
    + by destruct (user_findUnique_None _ _ _ _ Hfind Hid).
  - by apply authMiddleware_header.
  - rewrite authMiddleware_bearer. by apply authMiddleware_header.
Qed.

Lemma login_token_authenticates_witness :
  ∃ token,
    loginWithPassword Example.env_smtp Example.bcrypt_compare Example.jwt_sign 7000
      "a@x.com" "hashA" Example.login_db = (Resolved token, Example.login_db) ∧
    authMiddleware Example.env_smtp Example.jwt_verify
      {| x_auth_token := Some token; authorization := None |} = next "u1" ∧
    authMiddleware Example.env_smtp Example.jwt_verify
      {| x_auth_token := None; authorization := Some ("Bearer " +:+ token) |} = next "u1".
Proof.
  apply (login_token_authenticates Example.env_smtp Example.bcrypt_compare
           Example.jwt_sign Example.jwt_verify 7000 "a@x.com" "hashA" Example.login_db
           "u1" Example.dave None).
  - vm_compute. reflexivity.
  - reflexivity.
  - intros id' user' Hl. cbn in Hl.
    apply lookup_insert_Some in Hl as [[<- <-]|[_ Hl]]; [done|].
    apply lookup_singleton_Some in Hl as [<- <-]. discriminate.
  - reflexivity.
  - vm_compute. reflexivity.
  - discriminate.
  - vm_compute. discriminate.
  - vm_compute. reflexivity.
Defined.

End Authentication.

(** ** Dispatching a code by mail *)

Section MailDispatch.

Import AuthService.

Lemma truthy_str_false (o : option string) :
  JS.truthy_str o = false ↔ o = None ∨ o = Some "".
Proof.
  destruct o as [s|]; cbn.
  - rewrite negb_false_iff, String.eqb_eq. split; [intros ->; by right|].
    by intros [|[= <-]].
  - split; [by left|done].
Qed.

Lemma truthy_num_false (o : option JS.Number) :
  JS.truthy_num o = false ↔ o = None ∨ o = Some (JS.Int 0) ∨ o = Some JS.NaN.
Proof.
  destruct o as [[n| |]|]; cbn.
  - rewrite negb_false_iff, Z.eqb_eq. split; [intros ->; right; by left|].
    by intros [|[[= <-]|]].
  - split; [intros _; right; by right|done].
  - split; [done|]. by intros [|[|]].
  - split; [by left|done].
Qed.

(** X24. Outcomes of [sendOtpEmail].  It never writes to the store.  It
    rejects with 'SMTP is not configured in environment variables' exactly
    when the host, the user or the password is missing or an empty string,
    or the port is missing, 0 or [NaN] (what [Number] makes of a port that
    is not numeric), and then whatever the transport would answer;
    otherwise its outcome is the transport's answer for one mail, addressed
    to the recipient given, whose sender is not empty: [SMTP_FROM] when it is
    set and not empty, and [SMTP_USER] otherwise. *)
Theorem sendOtpEmail_outcomes env sendMail params db :
  let r := EmailService.sendOtpEmail env sendMail params db in
  let mail := EmailService.otp_mail env params in
  r.2 = db ∧
  (r.1 = Rejected SmtpNotConfigured ↔
     SMTP_HOST env = None ∨ SMTP_HOST env = Some "" ∨
     SMTP_PORT env = None ∨ SMTP_PORT env = Some (JS.Int 0) ∨
     SMTP_PORT env = Some JS.NaN ∨
     SMTP_USER env = None ∨ SMTP_USER env = Some "" ∨
     SMTP_PASS env = None ∨ SMTP_PASS env = Some "") ∧
  (r.1 = Rejected SmtpNotConfigured →
   ∀ sendMail', (EmailService.sendOtpEmail env sendMail' params db).1 = r.1) ∧
  (r.1 ≠ Rejected SmtpNotConfigured →
   r.1 = (if sendMail mail then Resolved () else Rejected SendMailFailed) ∧
   EmailService.mail_to mail = EmailService.email_to params ∧
   JS.truthy_str (EmailService.mail_from mail) = true ∧
   EmailService.mail_from mail =
     if JS.truthy_str (SMTP_FROM env) then SMTP_FROM env else SMTP_USER env).
Proof.
  intros r mail. subst r mail.
  assert (negb (JS.truthy_str (SMTP_HOST env)) || negb (JS.truthy_num (SMTP_PORT env))
          || negb (JS.truthy_str (SMTP_USER env)) || negb (JS.truthy_str (SMTP_PASS env))
          = true ↔
          SMTP_HOST env = None ∨ SMTP_HOST env = Some "" ∨
          SMTP_PORT env = None ∨ SMTP_PORT env = Some (JS.Int 0) ∨
          SMTP_PORT env = Some JS.NaN ∨
          SMTP_USER env = None ∨ SMTP_USER env = Some "" ∨
          SMTP_PASS env = None ∨ SMTP_PASS env = Some "") as Hcfg.
  { rewrite !orb_true_iff, !negb_true_iff, !truthy_str_false, truthy_num_false. tauto. }
  unfold EmailService.sendOtpEmail, EmailService.getTransporter. async_simpl.
  destruct (negb (JS.truthy_str (SMTP_HOST env)) || negb (JS.truthy_num (SMTP_PORT env))
            || negb (JS.truthy_str (SMTP_USER env)) || negb (JS.truthy_str (SMTP_PASS env)))
    eqn:Hc; cbn.
  - split; [done|]. split; [split; [intros _; by apply Hcfg|done]|]. split; [done|].
    by intros [].
  - assert (JS.truthy_str (SMTP_USER env) = true) as Huser.
    { apply orb_false_iff in Hc as [Hc _]. apply orb_false_iff in Hc as [_ Hc].
      by apply negb_false_iff in Hc. }
    assert (JS.truthy_str
              (if JS.truthy_str (SMTP_FROM env) then SMTP_FROM env else SMTP_USER env)
            = true) as Hfrom.
    { by destruct (JS.truthy_str (SMTP_FROM env)) eqn:Hf. }
    destruct (sendMail _) eqn:Hsend; cbn.
    + split; [done|]. split; [split; [done|]|].
      { intros Hd. apply Hcfg in Hd. discriminate Hd. }
      split; [done|]. intros _. by repeat split.
    + split; [done|]. split; [split; [done|]|].
      { intros Hd. apply Hcfg in Hd. discriminate Hd. }
      split; [done|]. intros _. by repeat split.
Qed.

Lemma sendOtpEmail_outcomes_witness :
  (EmailService.sendOtpEmail Example.env_no_smtp (λ _, true)
     {| EmailService.email_to := "a@x.com"; EmailService.email_code := "123456";
        EmailService.email_purpose := "REGISTER" |} Example.empty_db).1
    = Rejected SmtpNotConfigured ∧
  (EmailService.sendOtpEmail Example.env_port_name (λ _, true)
     {| EmailService.email_to := "a@x.com"; EmailService.email_code := "123456";
        EmailService.email_purpose := "REGISTER" |} Example.empty_db).1
    = Rejected SmtpNotConfigured ∧
  EmailService.mail_from
    (EmailService.otp_mail Example.env_smtp
       {| EmailService.email_to := "a@x.com"; EmailService.email_code := "123456";
          EmailService.email_purpose := "REGISTER" |}) = Some "mailer".
Proof.
  split; [|split].
  - apply (proj1 (proj2 (sendOtpEmail_outcomes Example.env_no_smtp (λ _, true)
             {| EmailService.email_to := "a@x.com"; EmailService.email_code := "123456";
                EmailService.email_purpose := "REGISTER" |} Example.empty_db))).
    by left.
  - apply (proj1 (proj2 (sendOtpEmail_outcomes Example.env_port_name (λ _, true)
             {| EmailService.email_to := "a@x.com"; EmailService.email_code := "123456";
                EmailService.email_purpose := "REGISTER" |} Example.empty_db))).
    do 4 right. by left.
  - destruct (proj2 (proj2 (proj2 (sendOtpEmail_outcomes Example.env_smtp (λ _, true)
             {| EmailService.email_to := "a@x.com"; EmailService.email_code := "123456";
                EmailService.email_purpose := "REGISTER" |} Example.empty_db))))
      as (_ & _ & _ & Hfrom).
    + vm_compute. discriminate.
    + rewrite Hfrom. reflexivity.
Defined.

(** X25. A password reset for an active account answers as the mail
    dispatch does.  For the active user who has the email,
    [requestPasswordReset] has the outcome of [sendOtpEmail] for the mail to
    that email carrying the code generated, and that code is the one stored
    for the user, sent to the email, under an identifier new to the table:
    the code stays stored when the dispatch is rejected. *)
Theorem requestPasswordReset_outcome env sendMail now random email db id user :
  users db !! id = Some user →
  User.email user = email →
  (∀ id' user', users db !! id' = Some user' → User.email user' = email → id' = id) →
  User.isActive user = true →
  let r := requestPasswordReset env sendMail now random email db in
  let params := {| EmailService.email_to := email;
                   EmailService.email_code := OtpService.generateOtpCode random 6;
                   EmailService.email_purpose := "Сброс пароля" |} in
  r.1 = (EmailService.sendOtpEmail env sendMail params db).1 ∧
  ∃ otpId otp,
    otpCodes db !! otpId = None ∧
    otpCodes r.2 !! otpId = Some otp ∧
    OtpCode.userId otp = id ∧
    OtpCode.purpose otp = PASSWORD_RESET ∧
    OtpCode.usedAt otp = None ∧
    OtpCode.code otp = EmailService.email_code params ∧
    OtpCode.sentTo otp = EmailService.email_to params.
Proof.
  intros Hid He Huniq Hact r params. subst r.
  rewrite requestPasswordReset_cases, (user_findUnique_unique _ _ _ _ Hid He Huniq), Hact.
  cbn zeta.
  destruct (createOtpForUser_store env now random
              {| OtpService.create_userId := id;
                 OtpService.create_purpose := PASSWORD_RESET;
                 OtpService.create_sentTo := email |} db) as (otpId & Hfresh & ->);
    [by eexists|].
  cbn [fst snd]. split; [apply sendOtpEmail_outcome|].
  eexists otpId, _. split; [done|]. split; [cbn; apply lookup_insert_eq|]. done.
Qed.

Lemma requestPasswordReset_outcome_witness :
  (requestPasswordReset Example.env_no_smtp (λ _, true) 1000 Example.draws_123456
     "a@x.com" Example.users_db).1 = Rejected SmtpNotConfigured.
Proof.
  etrans.
  - apply (requestPasswordReset_outcome Example.env_no_smtp (λ _, true) 1000
             Example.draws_123456 "a@x.com" Example.users_db "u1" Example.alice).
    + vm_compute. reflexivity.
    + reflexivity.
    + intros id' user' Hl. cbn in Hl.
      apply lookup_insert_Some in Hl as [[<- <-]|[_ Hl]]; [done|].
      apply lookup_singleton_Some in Hl as [<- <-]. discriminate.
    + reflexivity.
  - vm_compute. reflexivity.
Defined.

End MailDispatch.
